(** * AWattPrice backend: the configuration store ([awattprice/config.py])

    A shallow embedding of [bootstrap_config], [config_updater_factory],
    [write_config_updater] and [read_config], together with the parts of
    the world they act on: Python text, [Box] dictionaries living in an
    object store, the file system, the log, and the [ConfigUpdater]
    document model. *)

From Stdlib Require Import ZArith Ascii.
From stdpp Require Import base option list strings gmap.

Local Open Scope Z_scope.
Local Open Scope stdpp_scope.

(** ** Python text *)

Module Text.

Definition newline : ascii := "010"%char.
Definition dquote : ascii := "034"%char.
Definition squote : ascii := "039"%char.

Definition nl : string := String newline EmptyString.

(** [str.lower] on the ASCII range (other bytes are left alone). *)
Definition lower_ascii (c : ascii) : ascii :=
  let n := N_of_ascii c in
  if ((65 <=? n) && (n <=? 90))%N then ascii_of_N (n + 32) else c.

Fixpoint lower (s : string) : string :=
  match s with
  | EmptyString => EmptyString
  | String c r => String (lower_ascii c) (lower r)
  end.

(** [str.lstrip(chars)], [str.rstrip(chars)], [str.strip(chars)]. *)
Fixpoint lstrip (chars : list ascii) (s : string) : string :=
  match s with
  | EmptyString => EmptyString
  | String c r => if bool_decide (c ∈ chars) then lstrip chars r else s
  end.

Definition rstrip (chars : list ascii) (s : string) : string :=
  String.rev (lstrip chars (String.rev s)).

Definition strip (chars : list ascii) (s : string) : string :=
  rstrip chars (lstrip chars s).

Definition whitespace : list ascii :=
  [" "; "009"; "010"; "011"; "012"; "013"]%char.

(** The two quote characters (double and single) that [read_config]
    strips from its string fields. *)
Definition quotes : list ascii := [dquote; squote].

(** [sep.join(parts)]. *)
Fixpoint join (sep : string) (parts : list string) : string :=
  match parts with
  | [] => EmptyString
  | [p] => p
  | p :: ps => p +:+ sep +:+ join sep ps
  end.

Fixpoint concat (parts : list string) : string :=
  match parts with
  | [] => EmptyString
  | p :: ps => p +:+ concat ps
  end.

(** Iterating a text file: the lines, each with its terminator. *)
Fixpoint readlines (s : string) : list string :=
  match s with
  | EmptyString => []
  | String c r =>
      if bool_decide (c = newline) then nl :: readlines r
      else match readlines r with
           | [] => [String c EmptyString]
           | l :: ls => String c l :: ls
           end
  end.

Fixpoint drop (n : nat) (s : string) : string :=
  match n, s with
  | O, _ => s
  | S _, EmptyString => EmptyString
  | S n, String _ r => drop n r
  end.

(** [s.split(sep)] for a one-character separator. *)
Fixpoint split (sep : ascii) (s : string) : list string :=
  match s with
  | EmptyString => [EmptyString]
  | String c r =>
      if bool_decide (c = sep) then EmptyString :: split sep r
      else match split sep r with
           | [] => [String c EmptyString]
           | w :: ws => String c w :: ws
           end
  end.

(** Cut [s] at the first character satisfying [p]: what comes before,
    that character, and what comes after. *)
Fixpoint partition (p : ascii → bool) (s : string)
    : option (string * ascii * string) :=
  match s with
  | EmptyString => None
  | String c r =>
      if p c then Some (EmptyString, c, r)
      else match partition p r with
           | Some (a, d, b) => Some (String c a, d, b)
           | None => None
           end
  end.

End Text.

(** ** Python dictionaries: insertion-ordered association lists *)

Module Dict.
Section dict.
Context {V : Type}.

Definition t := list (string * V).

Definition keys (d : t) : list string := d.*1.

Fixpoint get (k : string) (d : t) : option V :=
  match d with
  | [] => None
  | (k', v) :: d => if bool_decide (k' = k) then Some v else get k d
  end.

Definition contains (k : string) (d : t) : bool :=
  bool_decide (k ∈ keys d).

(** [del d[k]]: the other entries keep their order. *)
Fixpoint remove (k : string) (d : t) : t :=
  match d with
  | [] => []
  | (k', v) :: d =>
      if bool_decide (k' = k) then remove k d else (k', v) :: remove k d
  end.

(** [d[k] = v]: an existing key keeps its position, a new one goes
    last. *)
Fixpoint set (k : string) (v : V) (d : t) : t :=
  match d with
  | [] => [(k, v)]
  | (k', v') :: d =>
      if bool_decide (k' = k) then (k, v) :: d else (k', v') :: set k v d
  end.
End dict.
Global Arguments t : clear implicits.
End Dict.

(** ** Paths, values and the world the program runs in *)

(** A [pathlib.Path] is the list of its components below the root;
    [p / name] appends one. *)
Definition path := list string.

Definition Pdiv (p : path) (name : string) : path := p ++ [name].
Infix "//" := Pdiv (at level 40, left associativity).

(** [path.parent]; the root is its own parent. *)
Definition parent (p : path) : path := removelast p.

Definition as_posix (p : path) : string :=
  "/" +:+ Text.join "/" p.

(** [Path(s)] for a string: the non-empty components between slashes. *)
Definition Path_of_str (s : string) : path :=
  filter (λ c, c ≠ EmptyString) (Text.split "/"%char s).

(** What a configuration value can be: text, a boolean (after coercion)
    or a path (the reserved entry). *)
Inductive scalar :=
  | SStr (s : string)
  | SBool (b : bool)
  | SPath (p : path).

(** An entry of a [Box]: a scalar, or a nested [Box] holding one
    section's options. *)
Inductive value :=
  | Scalar (x : scalar)
  | Mapping (items : Dict.t scalar).

Definition Box := Dict.t value.

(** [str(x)], as used by f-strings and by [str.format]. *)
Definition str (x : scalar) : string :=
  match x with
  | SStr s => s
  | SBool true => "True"
  | SBool false => "False"
  | SPath p => as_posix p
  end.

Inductive exn :=
  | AttributeError
  | IndexError
  | KeyError (k : string)
  | TypeError
  | SystemError
  | FileNotFoundError (p : path)
  | FileExistsError (p : path)
  | NotADirectoryError (p : path)
  | IsADirectoryError (p : path)
  | MissingSectionHeaderError (line : string)
  | ParsingError (line : string)
  | DuplicateSectionError (section : string)
  | DuplicateOptionError (section option : string)
  | SystemExit (code : Z).

Inductive result (A : Type) :=
  | Ok (a : A)
  | Raise (e : exn).
Arguments Ok {A} a.
Arguments Raise {A} e.

(** The log: the level of each call and the message, kept as the
    f-string template with its arguments. *)
Inductive level := INFO | ERROR.

Inductive message :=
  | NoConfigFileFound (dir : path)
  | ExpectedDirectory (dir : path)
  | InsecurePermissions (p : path)
  | CouldNotRead (p : path) (e : exn)
  | InvalidBool.

Inductive event :=
  | EvLog (l : level) (m : message)
  | EvOpenRead (p : path)
  | EvOpenWrite (p : path)
  | EvMkdir (p : path).

Inductive node :=
  | File (contents : string) (mode : Z)
  | Dir.

(** Objects are referred to by their index in the store. *)
Definition loc := nat.

Record world := World {
  heap : list Box;
  fs : gmap path node;
  trace : list event
}.

Definition set_heap (h : list Box) (w : world) : world :=
  World h (fs w) (trace w).
Definition set_fs (f : gmap path node) (w : world) : world :=
  World (heap w) f (trace w).
Definition emit (e : event) (w : world) : world :=
  World (heap w) (fs w) (trace w ++ [e]).

(** ** Computations: state and exceptions *)

Definition M (A : Type) : Type := world → result A * world.

Global Instance M_ret : MRet M := λ A a w, (Ok a, w).

Global Instance M_bind : MBind M := λ A B f m w,
  match m w with
  | (Ok a, w') => f a w'
  | (Raise e, w') => (Raise e, w')
  end.

Definition raise {A} (e : exn) : M A := λ w, (Raise e, w).

Definition lift {A} (r : result A) : M A := λ w, (r, w).

(** [try: body except Exception as e: handler(e)]; [SystemExit] is not
    an [Exception] and passes through. *)
Definition try_except {A} (body : M A) (handler : exn → M A) : M A := λ w,
  match body w with
  | (Raise (SystemExit c), w') => (Raise (SystemExit c), w')
  | (Raise e, w') => handler e w'
  | r => r
  end.

(** A [for] loop threading its local variables. *)
Fixpoint foldM {A B} (body : A → B → M A) (l : list B) (a : A) : M A :=
  match l with
  | [] => mret a
  | x :: l => a' ← body a x; foldM body l a'
  end.

(** The same for pure code that can raise. *)
Definition rbind {A B} (r : result A) (f : A → result B) : result B :=
  match r with
  | Ok a => f a
  | Raise e => Raise e
  end.

Global Instance result_ret : MRet result := λ A a, Ok a.
Global Instance result_bind : MBind result := λ A B f r, rbind r f.

Fixpoint foldR {A B} (body : A → B → result A) (l : list B) (a : A)
    : result A :=
  match l with
  | [] => Ok a
  | x :: l => a' ← body a x; foldR body l a'
  end.

(** ** The logger and [sys.exit] *)

Module log.
Definition info (m : message) : M unit := λ w, (Ok tt, emit (EvLog INFO m) w).
Definition error (m : message) : M unit := λ w, (Ok tt, emit (EvLog ERROR m) w).
End log.

Module sys.
Definition exit {A} (code : Z) : M A := raise (SystemExit code).
End sys.

(** ** The file system *)

Module os.

(** The file system answers for each path on its own: the map holds
    what [stat] finds at a path, and nothing ties the entry of a path to
    the entries of its parents.  The root always is a directory. *)
Definition stat (f : gmap path node) (p : path) : option node :=
  match p with
  | [] => Some Dir
  | _ => f !! p
  end.

Definition present (f : gmap path node) (p : path) : bool :=
  match stat f p with Some _ => true | None => false end.

Definition directory (f : gmap path node) (p : path) : bool :=
  match stat f p with Some Dir => true | _ => false end.

(** [path.exists()] and [path.is_dir()] *)
Definition exists_ (p : path) : M bool := λ w, (Ok (present (fs w) p), w).
Definition is_dir (p : path) : M bool := λ w, (Ok (directory (fs w) p), w).

Definition mkdir (p : path) (f : gmap path node)
    : result (gmap path node) :=
  match stat f p with
  | Some _ => Raise (FileExistsError p)
  | None =>
      match stat f (parent p) with
      | Some Dir => Ok (<[p := Dir]> f)
      | Some (File _ _) => Raise (NotADirectoryError p)
      | None => Raise (FileNotFoundError p)
      end
  end.

(** [os.makedirs(name)] on the reversed component list: a missing
    parent is created first (and its [FileExistsError] swallowed), then
    [name] itself. *)
Fixpoint makedirs_rev (rp : list string) (f : gmap path node)
    : result (gmap path node) :=
  match rp with
  | [] => mkdir [] f
  | _ :: rparent =>
      f' ← (if present f (rev rparent) then Ok f
            else match makedirs_rev rparent f with
                 | Raise (FileExistsError _) => Ok f
                 | r => r
                 end);
      mkdir (rev rp) f'
  end.

Definition makedirs (p : path) : M unit := λ w,
  match makedirs_rev (rev p) (fs w) with
  | Ok f => (Ok tt, emit (EvMkdir p) (set_fs f w))
  | Raise e => (Raise e, w)
  end.

Inductive flag := O_WRONLY | O_CREAT | O_TRUNC.

Global Instance flag_eq_dec : EqDecision flag.
Proof. solve_decision. Defined.

(** A descriptor open for writing: the file and the offset. *)
Record fd := Fd { fd_path : path; fd_pos : nat }.

(** [os.open(path, flags, mode)] for writing.  An existing file keeps
    its contents unless [O_TRUNC] is among the flags; a missing one is
    created empty, with [mode], when [O_CREAT] is. *)
Definition open (p : path) (flags : list flag) (mode : Z) : M fd := λ w,
  match stat (fs w) p with
  | Some Dir => (Raise (IsADirectoryError p), w)
  | Some (File c m) =>
      let f := if bool_decide (O_TRUNC ∈ flags)
               then <[p := File EmptyString m]> (fs w) else fs w in
      (Ok (Fd p 0), emit (EvOpenWrite p) (set_fs f w))
  | None =>
      if bool_decide (O_CREAT ∈ flags) then
        match stat (fs w) (parent p) with
        | Some Dir =>
            (Ok (Fd p 0),
             emit (EvOpenWrite p) (set_fs (<[p := File EmptyString mode]> (fs w)) w))
        | Some (File _ _) => (Raise (NotADirectoryError p), w)
        | None => (Raise (FileNotFoundError p), w)
        end
      else (Raise (FileNotFoundError p), w)
  end.

(** Writing [data] at the offset replaces what it covers and leaves
    the bytes behind it in place. *)
Definition overwrite (pos : nat) (data old : string) : string :=
  String.substring 0 pos old +:+ data
    +:+ Text.drop (pos + String.length data) old.

(** [fh.write(data)]; [os.fdopen(fd, mode)] wraps the descriptor as it
    is and neither reopens nor truncates the file. *)
Definition write (h : fd) (data : string) : M fd := λ w,
  match fs w !! fd_path h with
  | Some (File c m) =>
      (Ok (Fd (fd_path h) (fd_pos h + String.length data)),
       set_fs (<[fd_path h := File (overwrite (fd_pos h) data c) m]> (fs w)) w)
  | _ => (Raise SystemError, w)
  end.

(** The builtin [open(path)] followed by reading the whole file. *)
Definition read_text (p : path) : M string := λ w,
  match stat (fs w) p with
  | Some (File c _) => (Ok c, emit (EvOpenRead p) w)
  | Some Dir => (Raise (IsADirectoryError p), w)
  | None => (Raise (FileNotFoundError p), w)
  end.

End os.

(** ** [Box] objects in the store *)

Module box.

(** A location outside the store has no counterpart in Python; the
    model reports it as [SystemError]. *)
Definition load (l : loc) : M Box := λ w,
  match heap w !! l with
  | Some b => (Ok b, w)
  | None => (Raise SystemError, w)
  end.

Definition store (l : loc) (b : Box) : M unit := λ w,
  (Ok tt, set_heap (<[l := b]> (heap w)) w).

(** [Box(d)]: a new object. *)
Definition new (b : Box) : M loc := λ w,
  (Ok (length (heap w)), set_heap (heap w ++ [b]) w).

(** [copy.deepcopy(config)]: a new object with equal contents, sharing
    nothing with the original. *)
Definition deepcopy (l : loc) : M loc :=
  b ← load l; new b.

(** [key in config] *)
Definition contains (l : loc) (k : string) : M bool :=
  b ← load l; mret (Dict.contains k b).

(** [config.pop(key)] removes the entry from the object at [l]. *)
Definition pop (l : loc) (k : string) : M value :=
  b ← load l;
  match Dict.get k b with
  | Some v => store l (Dict.remove k b);; mret v
  | None => raise (KeyError k)
  end.

(** [config[key]] *)
Definition getitem (l : loc) (k : string) : M value :=
  b ← load l;
  match Dict.get k b with
  | Some v => mret v
  | None => raise (KeyError k)
  end.

(** The keys a [for key in config] loop visits. *)
Definition keys (l : loc) : M (list string) :=
  b ← load l; mret (Dict.keys b).

(** [v.items()]: only a nested [Box] has them. *)
Definition items (v : value) : M (list (string * scalar)) :=
  match v with
  | Mapping its => mret its
  | Scalar _ => raise AttributeError
  end.

End box.

(** [Path(v)] accepts text and paths. *)
Definition Path (v : value) : result path :=
  match v with
  | Scalar (SStr s) => Ok (Path_of_str s)
  | Scalar (SPath p) => Ok p
  | _ => Raise TypeError
  end.

(** ** The document model: the [configupdater] package

    The program keeps its documents in [ConfigUpdater] objects.  The
    package is not part of the repository: its classes and methods are
    modelled from the specification's Document Model (ordered blocks that
    keep their source text, sections of entries, insertion behind an
    anchor, writing back what was read), one definition for each call
    [config.py] makes. *)

Module configupdater.

(** Modelled from the spec: an Entry of the Document Model, a key with
    its value, together with the source line and the delimiter it was
    read with so that an untouched entry is written back as it was. *)
Record Opt := mkOpt {
  key : string;
  val : scalar;
  delimiter : string;
  line : string;
  updated : bool
}.

(** Modelled from the spec: what a section holds, in order: entries,
    and the comment and blank lines kept for writing them back. *)
Inductive Entry :=
  | EOpt (o : Opt)
  | EComment (lines : list string)
  | ESpace (lines : list string).

(** Modelled from the spec: a Section of the Document Model, its name,
    its header line and the ordered entries, comments and blank lines
    that follow it. *)
Record Sect := mkSect {
  name : string;
  header : string;
  structure : list Entry
}.

(** Modelled from the spec: what a document holds, in order:
    sections, and the comment and blank lines before the first one. *)
Inductive Block :=
  | BSection (s : Sect)
  | BComment (lines : list string)
  | BSpace (lines : list string).

(** Modelled from the spec: the Document, an ordered sequence of
    blocks. *)
Abbreviation ConfigUpdater := (list Block).

Definition empty : ConfigUpdater := [].

Fixpoint find_idx {A} (p : A → bool) (l : list A) : option nat :=
  match l with
  | [] => None
  | x :: l => if p x then Some O else S <$> find_idx p l
  end.

(** [list.insert(i, x)] *)
Definition insert_at {A} (i : nat) (x : A) (l : list A) : list A :=
  take i l ++ x :: List.skipn i l.

(** *** Sections *)

Definition entry_key (e : Entry) : option string :=
  match e with EOpt o => Some (key o) | _ => None end.

(** Modelled from the spec: [section.options()] of the package, the
    keys of a section in their order. *)
Definition options (s : Sect) : list string :=
  omap entry_key (structure s).

(** Modelled from the spec: [key in section] of the package. *)
Definition contains (k : string) (s : Sect) : bool :=
  bool_decide (k ∈ options s).

Definition has_key (k : string) (e : Entry) : bool :=
  bool_decide (entry_key e = Some k).

(** Modelled from the spec: [section[key]] of the package, the entry
    with that key, identified by its position in the section. *)
Definition getitem (k : string) (s : Sect) : result nat :=
  match find_idx (has_key k) (structure s) with
  | Some i => Ok i
  | None => Raise (KeyError k)
  end.

(** Modelled from the spec: [set_value] of the Document Model, the
    package's [option.value = v], on the entry at position [i]: the key
    and its position stay, the line is rendered anew. *)
Definition set_value (i : nat) (v : scalar) (s : Sect) : Sect :=
  mkSect (name s) (header s)
    (alter (λ e, match e with
                 | EOpt o => EOpt (mkOpt (key o) v (delimiter o) (line o) true)
                 | _ => e
                 end) i (structure s)).

(** Modelled from the spec: [insert_after] of the Document Model, in
    the package [option.add_after], a builder placed right behind the
    entry; each block it adds moves it one further. *)
Record SectBuilder := mkSectBuilder { sb_container : Sect; sb_idx : nat }.

Definition add_after (i : nat) (s : Sect) : SectBuilder :=
  mkSectBuilder s (S i).

(** Modelled from the spec: [builder.option(key, value)] of the
    package, a new entry at the builder's place. *)
Definition add_option (k : string) (v : scalar) (b : SectBuilder)
    : result SectBuilder :=
  let s := sb_container b in
  if contains k s then Raise (DuplicateOptionError (name s) k)
  else Ok (mkSectBuilder
             (mkSect (name s) (header s)
                (insert_at (sb_idx b) (EOpt (mkOpt k v "=" EmptyString true))
                   (structure s)))
             (S (sb_idx b))).

(** Modelled from the spec: [section.to_dict()] of the package. *)
Definition sect_to_dict (s : Sect) : Dict.t scalar :=
  omap (λ e, match e with EOpt o => Some (key o, val o) | _ => None end)
    (structure s).

(** *** Documents *)

Definition block_section (b : Block) : option Sect :=
  match b with BSection s => Some s | _ => None end.

Definition sections_blocks (cu : ConfigUpdater) : list Sect :=
  omap block_section cu.

(** Modelled from the spec: [config_updater.sections()] of the
    package, the section names in their order. *)
Definition sections (cu : ConfigUpdater) : list string :=
  name <$> sections_blocks cu.

(** Modelled from the spec: [has_section] of the Document Model. *)
Definition has_section (n : string) (cu : ConfigUpdater) : bool :=
  bool_decide (n ∈ sections cu).

Definition is_section (n : string) (b : Block) : bool :=
  bool_decide (name <$> block_section b = Some n).

Definition section_idx (n : string) (cu : ConfigUpdater) : result nat :=
  match find_idx (is_section n) cu with
  | Some i => Ok i
  | None => Raise (KeyError n)
  end.

(** Modelled from the spec: [get_section] of the Document Model, the
    package's [config_updater[name]]. *)
Definition get_section (n : string) (cu : ConfigUpdater) : result Sect :=
  match List.find (λ s, bool_decide (name s = n)) (sections_blocks cu) with
  | Some s => Ok s
  | None => Raise (KeyError n)
  end.

(** Modelled from the spec: [config_updater[name] = section] of the
    package.  An existing section is replaced where it stands;
    otherwise the section takes the name and goes last. *)
Definition set_section (n : string) (s : Sect) (cu : ConfigUpdater)
    : ConfigUpdater :=
  match find_idx (is_section n) cu with
  | Some i => <[i := BSection s]> cu
  | None => cu ++ [BSection (mkSect n ("[" +:+ n +:+ "]" +:+ Text.nl) (structure s))]
  end.

Record Builder := mkBuilder { b_container : ConfigUpdater; b_idx : nat }.

(** Modelled from the spec: [add_section_after] of the Document
    Model, in the package [config_updater[name].add_after] followed by
    [space()] and [section(s)]: a builder placed right behind the anchor
    section. *)
Definition section_add_after (n : string) (cu : ConfigUpdater)
    : result Builder :=
  i ← section_idx n cu; Ok (mkBuilder cu (S i)).

(** Modelled from the spec: [builder.space()] of the package, one
    blank line at the builder's place. *)
Definition add_space (b : Builder) : Builder :=
  mkBuilder (insert_at (b_idx b) (BSpace [Text.nl]) (b_container b))
    (S (b_idx b)).

(** Modelled from the spec: [builder.section(section)] of the
    package, the section at the builder's place; a name the document
    already has is refused. *)
Definition add_section (s : Sect) (b : Builder) : result Builder :=
  if has_section (name s) (b_container b)
  then Raise (DuplicateSectionError (name s))
  else Ok (mkBuilder (insert_at (b_idx b) (BSection s) (b_container b))
             (S (b_idx b))).

(** Modelled from the spec: [config_updater.to_dict()] of the
    package, the sections with their entries as nested dictionaries. *)
Definition to_dict (cu : ConfigUpdater) : Box :=
  (λ s, (name s, Mapping (sect_to_dict s))) <$> sections_blocks cu.

(** *** Writing a document out *)

(** Modelled from the spec: [serialize] of the Document Model.  An
    entry that was not touched is written as it was read; one whose
    value was set, or that was added, is written as key, delimiter and
    value. *)
Definition str_opt (o : Opt) : string :=
  if updated o
  then key o +:+ " " +:+ delimiter o +:+ " " +:+ str (val o) +:+ Text.nl
  else line o.

(** The text of an entry, piece by piece: an option is one piece. *)
Definition entry_lines (e : Entry) : list string :=
  match e with
  | EOpt o => [str_opt o]
  | EComment ls => ls
  | ESpace ls => ls
  end.

Definition sect_lines (s : Sect) : list string :=
  header s :: concat (entry_lines <$> structure s).

Definition block_lines (b : Block) : list string :=
  match b with
  | BSection s => sect_lines s
  | BComment ls => ls
  | BSpace ls => ls
  end.

Definition to_lines (cu : ConfigUpdater) : list string :=
  concat (block_lines <$> cu).

(** Modelled from the spec: [serialize] of the Document Model, the
    package's [str(config_updater)]. *)
Definition to_string (cu : ConfigUpdater) : string :=
  Text.concat (to_lines cu).

(** *** Reading a document

    Modelled from the spec: [parse] of the Document Model.  A line is
    blank, a comment starting with [#] or [;], a section header in
    brackets, or an entry [key: value] / [key = value]; an entry before
    any header, a repeated section and a repeated key are errors.
    Continuation lines, inline comments and the folding of keys to
    lower case that the package also knows are left out. *)

Inductive line_kind :=
  | LBlank
  | LComment
  | LHeader (n : string)
  | LOption (k d v : string)
  | LBad.

Definition is_delim (c : ascii) : bool :=
  bool_decide (c = "="%char) || bool_decide (c = ":"%char).

Definition parse_option (t : string) : line_kind :=
  match Text.partition is_delim t with
  | Some (k, d, v) =>
      match Text.rstrip Text.whitespace k with
      | EmptyString => LBad
      | k' => LOption k' (String d EmptyString) (Text.lstrip Text.whitespace v)
      end
  | None => LBad
  end.

Definition classify (l : string) : line_kind :=
  let t := Text.strip Text.whitespace l in
  match t with
  | EmptyString => LBlank
  | String c r =>
      if bool_decide (c = "#"%char) || bool_decide (c = ";"%char)
      then LComment
      else if bool_decide (c = "["%char)
      then match Text.partition (λ c, bool_decide (c = "]"%char)) r with
           | Some (String a h, _, _) => LHeader (String a h)
           | _ => parse_option t
           end
      else parse_option t
  end.

(** While reading, the document and the entries of each section are
    kept last-first, so that the block being filled is at the head. *)
Definition push_space (l : string) (es : list Entry) : list Entry :=
  match es with
  | ESpace ls :: es => ESpace (ls ++ [l]) :: es
  | _ => ESpace [l] :: es
  end.

Definition push_comment (l : string) (es : list Entry) : list Entry :=
  match es with
  | EComment ls :: es => EComment (ls ++ [l]) :: es
  | _ => EComment [l] :: es
  end.

Definition with_structure (s : Sect) (es : list Entry) : Sect :=
  mkSect (name s) (header s) es.

(** The reader's state: the blocks so far and the first line, if any,
    that is neither of the four kinds (reported when the whole text
    has been read). *)
Definition read_line (st : list Block * option string) (l : string)
    : result (list Block * option string) :=
  let '(rcu, bad) := st in
  match classify l with
  | LBlank =>
      Ok (match rcu with
          | BSection s :: r =>
              BSection (with_structure s (push_space l (structure s))) :: r
          | BSpace ls :: r => BSpace (ls ++ [l]) :: r
          | _ => BSpace [l] :: rcu
          end, bad)
  | LComment =>
      Ok (match rcu with
          | BSection s :: r =>
              BSection (with_structure s (push_comment l (structure s))) :: r
          | BComment ls :: r => BComment (ls ++ [l]) :: r
          | _ => BComment [l] :: rcu
          end, bad)
  | LHeader n =>
      if has_section n rcu then Raise (DuplicateSectionError n)
      else Ok (BSection (mkSect n l []) :: rcu, bad)
  | LOption k d v =>
      match rcu with
      | BSection s :: r =>
          if contains k s then Raise (DuplicateOptionError (name s) k)
          else Ok (BSection (with_structure s
                               (EOpt (mkOpt k (SStr v) d l false) :: structure s))
                     :: r, bad)
      | _ => Raise (MissingSectionHeaderError l)
      end
  | LBad =>
      match rcu with
      | BSection _ :: _ => Ok (rcu, Some (default l bad))
      | _ => Raise (MissingSectionHeaderError l)
      end
  end.

Definition finish_block (b : Block) : Block :=
  match b with
  | BSection s => BSection (with_structure s (rev (structure s)))
  | _ => b
  end.

(** Modelled from the spec: [parse] of the Document Model, the
    package's [config_updater.read_string(text)] on a new document. *)
Definition read_string (text : string) : result ConfigUpdater :=
  st ← foldR read_line (Text.readlines text) ([], None);
  match st.2 with
  | Some l => Raise (ParsingError l)
  | None => Ok (finish_block <$> rev st.1)
  end.

(** Modelled from the spec: [config_updater.read_file(fh)] of the
    package. *)
Definition read_file (text : string) : M ConfigUpdater :=
  lift (read_string text).

(** Modelled from the spec: [config_updater.read(filename)] of the
    package, which opens the file and reads it. *)
Definition read (p : path) : M ConfigUpdater :=
  text ← os.read_text p; lift (read_string text).

(** Modelled from the spec: [config_updater.write(fh)] of the
    package. *)
Definition write (cu : ConfigUpdater) (fh : os.fd) : M unit :=
  os.write fh (to_string cu);; mret tt.

End configupdater.

(** ** [awattprice/config.py] *)

Import configupdater.

(** [l[-1]] *)
Definition last_item {A} (l : list A) : result A :=
  match last l with
  | Some x => Ok x
  | None => Raise IndexError
  end.

(** [write_config_updater(path, config)].  The copy of line 85 is a
    document equal to [config]; documents are passed by value here. *)
Definition write_config_updater (path : path) (config : ConfigUpdater)
    : M unit :=
  let to_write_config := config in
  fh ← os.open path [os.O_WRONLY; os.O_CREAT] 384;
  configupdater.write to_write_config fh.

(** The text a new section is read from (lines 68 to 70). *)
Definition section_txt (section : string) (items : list (string * scalar))
    : string :=
  "[" +:+ section +:+ "]" +:+ Text.nl
    +:+ Text.join Text.nl ((λ it, it.1 +:+ ": " +:+ str it.2) <$> items).

(** The body of the inner loop (lines 60 to 64), on the section and the
    current [last_option]. *)
Definition update_option (st : Sect * string) (item : string * scalar)
    : result (Sect * string) :=
  let '(config_updater_section, last_option) := st in
  let '(option, value) := item in
  if contains option config_updater_section then
    i ← getitem option config_updater_section;
    Ok (set_value i value config_updater_section, last_option)
  else
    i ← getitem last_option config_updater_section;
    b ← add_option option value (add_after i config_updater_section);
    Ok (sb_container b, option).

(** Lines 67 to 72: a section absent from the document is read from its
    text by a document of its own and taken out of it. *)
Definition new_section (section : string) (items : list (string * scalar))
    : result Sect :=
  let tmp_updater := configupdater.empty in
  tmp_updater ← read_string (section_txt section items);
  get_section section tmp_updater.

(** The body of the outer loop (lines 56 to 72), on [config_updater] and
    [to_add]. *)
Definition merge_section (config config_updater_data : loc)
    (st : ConfigUpdater * list Sect) (section : string)
    : M (ConfigUpdater * list Sect) :=
  let '(config_updater, to_add) := st in
  if has_section section config_updater then
    config_updater_section ← lift (get_section section config_updater);
    last_option ← lift (last_item (options config_updater_section));
    v ← box.getitem config section;
    its ← box.items v;
    r ← lift (foldR update_option its (config_updater_section, last_option));
    mret (set_section section r.1 config_updater, to_add)
  else
    v ← box.getitem config_updater_data section;
    its ← box.items v;
    s ← lift (new_section section its);
    mret (config_updater, to_add ++ [s]).

(** The body of the last loop (lines 77 and 78), on [config_updater]
    and [last_section]. *)
Definition append_section (st : ConfigUpdater * Sect) (section : Sect)
    : result (ConfigUpdater * Sect) :=
  let '(config_updater, last_section) := st in
  b ← section_add_after (name last_section) config_updater;
  b ← add_section section (add_space b);
  Ok (b_container b, section).

(** Lines 73 to 78. *)
Definition append_sections (config_updater : ConfigUpdater)
    (to_add : list Sect) : result ConfigUpdater :=
  match to_add with
  | [] => Ok config_updater
  | _ =>
      n ← last_item (sections config_updater);
      last_section ← get_section n config_updater;
      r ← foldR append_section to_add (config_updater, last_section);
      Ok r.1
  end.

(** [config_updater_factory(config)]; [config] is the caller's [Box]. *)
Definition config_updater_factory (config : loc) : M (path * ConfigUpdater) :=
  config_updater_data ← box.deepcopy config;
  has ← box.contains config_updater_data "config_file_path";
  path ← (if has : bool
          then v ← box.pop config_updater_data "config_file_path";
               lift (Path v)
          else raise AttributeError);
  let config_updater := configupdater.empty in
  let to_add := [] in
  text ← os.read_text path;
  config_updater ← configupdater.read_file text;
  keys ← box.keys config_updater_data;
  st ← foldM (merge_section config config_updater_data) keys
         (config_updater, to_add);
  config_updater ← lift (append_sections st.1 st.2);
  mret (path, config_updater).

(** Attribute access on a [Box] and its nested section:
    [config.section.key]. *)
Definition get_field (section key : string) (config : Box) : result scalar :=
  match Dict.get section config with
  | Some (Mapping its) =>
      match Dict.get key its with
      | Some x => Ok x
      | None => Raise (KeyError key)
      end
  | Some (Scalar _) => Raise AttributeError
  | None => Raise (KeyError section)
  end.

(** [config.section.key = x] *)
Definition set_field (section key : string) (x : scalar) (config : Box)
    : result Box :=
  match Dict.get section config with
  | Some (Mapping its) =>
      Ok (Dict.set section (Mapping (Dict.set key x its)) config)
  | Some (Scalar _) => Raise AttributeError
  | None => Raise (KeyError section)
  end.

(** The [str] methods exist on text only. *)
Definition str_strip (chars : list ascii) (x : scalar) : result string :=
  match x with
  | SStr s => Ok (Text.strip chars s)
  | _ => Raise AttributeError
  end.

Definition str_lower (x : scalar) : result string :=
  match x with
  | SStr s => Ok (Text.lower s)
  | _ => Raise AttributeError
  end.

(** [config.section.key = config.section.key.strip(quotes)] *)
Definition strip_quotes (section key : string) (config : Box) : result Box :=
  x ← get_field section key config;
  s ← str_strip Text.quotes x;
  set_field section key (SStr s) config.

(** Lines 133 to 143: the value of [run_on_sandbox]; the message of
    line 139 goes through [log.error]. *)
Definition run_on_sandbox (config : Box) : M bool :=
  x ← lift (get_field "notifications" "use_sandbox" config);
  s ← lift (str_lower x);
  if bool_decide (s = "true") then mret true
  else
    x ← lift (get_field "notifications" "use_sandbox" config);
    s ← lift (str_lower x);
    if bool_decide (s = "false") then mret false
    else log.error InvalidBool;; mret false.

Section config.

(** What the module takes from its surroundings: the home directory
    ([os.path.expanduser] of the tilde), the default template of
    [awattprice.defaults] and the permission check of
    [awattprice.utils], a predicate on the file system. *)
Variable home : path.
Variable DEFAULT_CONFIG : string.
Variable verify_file_permissions : gmap path node → path → bool.

Definition user_config : path :=
  home // ".config" // "awattprice" // "config.ini".

Definition system_config : path :=
  ["etc"] // "awattprice" // "config.ini".

(** [bootstrap_config(path)] *)
Definition bootstrap_config (path : option path) : M ConfigUpdater :=
  let path := default user_config path in
  d ← os.is_dir (parent path);
  (if negb d then os.makedirs (parent path) else mret tt);;
  let config_updater := configupdater.empty in
  config_updater ← lift (read_string DEFAULT_CONFIG);
  write_config_updater path config_updater;;
  mret config_updater.

(** The [for] loop of lines 101 to 104: the first location that
    exists, if the loop is left by [break]. *)
Fixpoint first_existing (locations : list path) : M (option path) :=
  match locations with
  | [] => mret None
  | p :: locations =>
      e ← os.exists_ p;
      if e : bool then mret (Some p) else first_existing locations
  end.

Definition config_path_locations (given : option path) : list path :=
  match given with
  | Some p => [p]
  | None => [system_config; user_config]
  end.

(** Lines 93 to 108: the path that is used, whether it was found, and
    the document if one was bootstrapped.  The variable [config_updater]
    is bound by the [else] of the loop or by the read of line 120;
    [None] stands for not yet bound, which is the case exactly when
    [found_config_file] holds. *)
Definition locate (given : option path)
    : M (path * bool * option ConfigUpdater) :=
  let locations := config_path_locations given in
  found ← first_existing locations;
  match found with
  | Some p => mret (p, true, None)
  | None =>
      log.info (NoConfigFileFound (parent (List.last locations [])));;
      let path := user_config in
      config_updater ← bootstrap_config (Some path);
      mret (path, false, Some config_updater)
  end.

(** Lines 109 to 111. *)
Definition check_parent (path : path) : M unit :=
  e ← os.exists_ (parent path);
  d ← os.is_dir (parent path);
  if e && negb d
  then log.error (ExpectedDirectory (parent path));; sys.exit 1
  else mret tt.

(** Lines 113 to 115. *)
Definition check_permissions (path : path) : M unit :=
  ok ← (λ w, (Ok (verify_file_permissions (fs w) path), w));
  if negb ok
  then log.error (InsecurePermissions path);; sys.exit 1
  else mret tt.

(** Lines 117 to 123. *)
Definition load (path : path) (bootstrapped : option ConfigUpdater)
    : M ConfigUpdater :=
  match bootstrapped with
  | None =>
      try_except (configupdater.read path)
        (λ e, log.error (CouldNotRead path e);; sys.exit 1)
  | Some config_updater => mret config_updater
  end.

(** Lines 125 to 150. *)
Definition resolve (path : path) (config_updater : ConfigUpdater) : M Box :=
  let config : Box := to_dict config_updater in
  let config := Dict.set "config_file_path" (Scalar (SPath path)) config in
  config ← lift (strip_quotes "file_location" "data_dir" config);
  config ← lift (strip_quotes "file_location" "log_dir" config);
  config ← lift (strip_quotes "file_location" "apns_dir" config);
  run_on_sandbox ← run_on_sandbox config;
  config ← lift (set_field "notifications" "use_sandbox"
                   (SBool run_on_sandbox) config);
  config ← lift (strip_quotes "notifications" "dev_team_id" config);
  config ← lift (strip_quotes "notifications" "apns_encryption_key_id" config);
  config ← lift (strip_quotes "notifications" "apns_encryption_key" config);
  mret config.

(** [read_config(path)] *)
Definition read_config (given : option path) : M Box :=
  st ← locate given;
  let '(path, found_config_file, bootstrapped) := st in
  check_parent path;;
  check_permissions path;;
  config_updater ← load path bootstrapped;
  resolve path config_updater.

End config.

(** * Specifications

    Definitions that the statements below are phrased with. *)

(** ** The merge, without the store

    After line 47 nothing writes to the store any more, so the loops of
    [config_updater_factory] compute a function of the two boxes: the
    caller's [b] and the copy [b'] without the reserved key. *)

Definition items_of (o : option value) (k : string)
    : result (list (string * scalar)) :=
  match o with
  | Some (Mapping its) => Ok its
  | Some (Scalar _) => Raise AttributeError
  | None => Raise (KeyError k)
  end.

Definition merge_step (b b' : Box) (st : ConfigUpdater * list Sect)
    (section : string) : result (ConfigUpdater * list Sect) :=
  if has_section section st.1 then
    s ← get_section section st.1;
    last_option ← last_item (options s);
    its ← items_of (Dict.get section b) section;
    r ← foldR update_option its (s, last_option);
    Ok (set_section section r.1 st.1, st.2)
  else
    its ← items_of (Dict.get section b') section;
    s ← new_section section its;
    Ok (st.1, st.2 ++ [s]).

Definition merge (b b' : Box) (cu : ConfigUpdater) : result ConfigUpdater :=
  st ← foldR (merge_step b b') (Dict.keys b') (cu, []);
  append_sections st.1 st.2.

(** What [config_updater_factory] does to a world whose store holds
    the box [b] at [config]. *)
Definition factory_outcome (b : Box) (w : world)
    : result (path * ConfigUpdater) * world :=
  match Dict.get "config_file_path" b with
  | None => (Raise AttributeError, set_heap (heap w ++ [b]) w)
  | Some v =>
      let b' := Dict.remove "config_file_path" b in
      let w2 := set_heap (heap w ++ [b']) w in
      match Path v with
      | Raise e => (Raise e, w2)
      | Ok p =>
          match os.stat (fs w) p with
          | Some (File text _) =>
              let w3 := emit (EvOpenRead p) w2 in
              match read_string text with
              | Raise e => (Raise e, w3)
              | Ok cu =>
                  match merge b b' cu with
                  | Ok cu' => (Ok (p, cu'), w3)
                  | Raise e => (Raise e, w3)
                  end
              end
          | Some Dir => (Raise (IsADirectoryError p), w2)
          | None => (Raise (FileNotFoundError p), w2)
          end
      end
  end.

(** The option a merge adds (line 63). *)
Definition new_option (it : string * scalar) : Entry :=
  EOpt (mkOpt it.1 it.2 "=" EmptyString true).

(** The last key after the items [its] have been appended. *)
Definition last_key (k : string) (its : list (string * scalar)) : string :=
  default k (last its.*1).

(** The option after [option.value = v]. *)
Definition with_value (v : scalar) (o : Opt) : Opt :=
  mkOpt (key o) v (delimiter o) (line o) true.

Definition entries_lines (es : list Entry) : list string :=
  concat (entry_lines <$> es).

(** What lines 73 to 78 put behind the last section: each staged
    section, behind one blank line. *)
Definition chain (news : list Sect) : ConfigUpdater :=
  news ≫= λ s, [BSpace [Text.nl]; BSection s].



Definition unlines (ls : list string) : string :=
  Text.concat ((λ l, l +:+ Text.nl) <$> ls).

(** The fields [read_config] strips quotes from. *)
Definition string_fields : list (string * string) :=
  [("file_location", "data_dir"); ("file_location", "log_dir");
   ("file_location", "apns_dir"); ("notifications", "dev_team_id");
   ("notifications", "apns_encryption_key_id");
   ("notifications", "apns_encryption_key")].

Definition is_text (config : Box) (f : string * string) : bool :=
  match get_field f.1 f.2 config with
  | Ok (SStr _) => true
  | _ => false
  end.

(** A configuration that has all of them, as text. *)
Definition complete (config : Box) : bool :=
  forallb (is_text config) string_fields.

(** What the log gains from the coercion of [use_sandbox]. *)
Definition sandbox_log (v : string) : list event :=
  if bool_decide (Text.lower v = "true") || bool_decide (Text.lower v = "false")
  then [] else [EvLog ERROR InvalidBool].

(** ** Documents that were read *)

(** Each section name once, and each key once in its section. *)
Definition well_formed (cu : ConfigUpdater) : Prop :=
  NoDup (sections cu) ∧ Forall (λ s, NoDup (options s)) (sections_blocks cu).

(** The pieces of text of the document read so far. *)
Definition rlines (rcu : list Block) : list string :=
  to_lines (finish_block <$> rev rcu).

(** ** What a computation leaves alone *)

(** [keeps R m]: in every world [m] ends, whether it returns or raises,
    in a world that [R] relates to the one it started in. *)
Definition keeps {A} (R : relation world) (m : M A) : Prop :=
  ∀ w, R w (m w).2.

(** The same file system and the same store. *)
Definition same_store : relation world :=
  λ w w', fs w' = fs w ∧ heap w' = heap w.

(** A computation that only logs: its result is the same in every
    world, and all it does to the world is add [evs] to the trace. *)
Definition logs_only {A} (m : M A) (r : result A) (evs : list event) : Prop :=
  ∀ w, m w = (r, World (heap w) (fs w) (trace w ++ evs)).

(** [SystemExit] is what [sys.exit] raises. *)
Definition exits (e : exn) : bool :=
  match e with SystemExit _ => true | _ => false end.

Definition no_exit {A} (r : result A) : Prop :=
  ∀ e, r = Raise e → exits e = false.

Definition never_exits {A} (m : M A) : Prop :=
  ∀ w e w', m w = (Raise e, w') → exits e = false.

(** The field [read_config] coerces to a boolean. *)
Definition sandbox_field : string * string := ("notifications", "use_sandbox").

(** ** Directories on the way to a path *)

(** The paths between [base] and [base ++ rest], the latter included,
    from the top down. *)
Definition below (base : path) (rest : list string) : list path :=
  (λ k, base ++ take k rest) <$> seq 1 (length rest).

Definition all_absent (f : gmap path node) (qs : list path) : bool :=
  forallb (λ q, negb (os.present f q)) qs.

(** The file system with a directory at each of [qs]. *)
Definition with_dirs (qs : list path) (f : gmap path node) : gmap path node :=
  foldl (λ f q, <[q := Dir]> f) f qs.

(** What [os.makedirs] leaves in the trace when it is called for the
    directories [dirs] below [base]. *)
Definition made (base : path) (dirs : list string) : list event :=
  match dirs with
  | [] => []
  | _ => [EvMkdir (base ++ dirs)]
  end.

(** ** What a merge can take *)

(** Whether the merge can take the overlay entry [kv] into [doc]: its
    value is a nested [Box], and either the document has the section
    and the section has a key, or the text of the new section parses. *)
Definition mergeable (doc : ConfigUpdater) (kv : string * value) : bool :=
  match kv.2 with
  | Mapping its =>
      match get_section kv.1 doc with
      | Ok s => negb (bool_decide (options s = []))
      | Raise _ =>
          match new_section kv.1 its with Ok _ => true | Raise _ => false end
      end
  | Scalar _ => false
  end.

(** The keys and values of a list of entries. *)
Definition entries_dict (es : list Entry) : Dict.t scalar :=
  sect_to_dict (mkSect EmptyString EmptyString es).

(** The value the overlay [b] assigns to the key [k] of section [n]. *)
Definition assigned (b : Box) (n k : string) : option scalar :=
  match Dict.get n b with
  | Some (Mapping its) => Dict.get k its
  | _ => None
  end.

(** A configuration as [read_config] builds it: each key once, and
    below every key but the reserved one a nested [Box] that has each
    of its keys once. *)
Definition tidy (config : Box) : Prop :=
  NoDup (Dict.keys config)
  ∧ ∀ n v, Dict.get n config = Some v →
      n = "config_file_path" ∨ ∃ its, v = Mapping its ∧ NoDup its.*1.

(** The file system after a first start: the directories below the
    home directory and the default file in them. *)
Definition bootstrapped (home : path) (DEFAULT_CONFIG : string)
    (f : gmap path node) : gmap path node :=
  <[user_config home := File DEFAULT_CONFIG 384]>
    (with_dirs (below home [".config"; "awattprice"]) f).

(** ** Sample data

    A configuration file, documents and overlays on which the
    statements below are instantiated. *)

Definition line_of (s : string) : string := s +:+ Text.nl.

Definition ex_dir : path := ["etc"; "awattprice"].
Definition ex_path : path := ex_dir // "config.ini".

(** A document with a leading comment and the sections [a] and [b]. *)
Definition ex_text : string :=
  unlines ["# prices"; "[a]"; "k1: 1"; "k2 = 2"; EmptyString; "[b]"; "y: 2"].

Definition ex_k1 : Opt := mkOpt "k1" (SStr "1") ":" (line_of "k1: 1") false.
Definition ex_k2 : Opt := mkOpt "k2" (SStr "2") "=" (line_of "k2 = 2") false.
Definition ex_y : Opt := mkOpt "y" (SStr "2") ":" (line_of "y: 2") false.

Definition ex_a : Sect :=
  mkSect "a" (line_of "[a]") [EOpt ex_k1; EOpt ex_k2; ESpace [Text.nl]].
Definition ex_b : Sect := mkSect "b" (line_of "[b]") [EOpt ex_y].
Definition ex_pre : ConfigUpdater := [BComment [line_of "# prices"]].

(** A file system holding [contents] at [ex_path], with [mode]. *)
Definition fs_with (contents : string) (mode : Z) : gmap path node :=
  {[ ["etc"] := Dir; ex_dir := Dir; ex_path := File contents mode ]}.

Definition ex_fs : gmap path node := fs_with ex_text 384.

Definition the_path : string * value :=
  ("config_file_path", Scalar (SPath ex_path)).

(** Overlays: one without the reserved key, one adding keys to [a] (and
    a section besides), one changing a value of [a], one naming two
    sections the document does not have. *)
Definition overlay_no_path : Box := [("a", Mapping [("k1", SStr "2")])].

Definition overlay_keys : Box :=
  [the_path; ("a", Mapping [("k3", SStr "x"); ("k4", SStr "y")]);
   ("c", Mapping [("k", SStr "v")])].

Definition overlay_update : Box := [the_path; ("a", Mapping [("k1", SStr "2")])].

Definition overlay_sections : Box :=
  [the_path; ("c", Mapping [("k", SStr "v")]); ("d", Mapping [("m", SStr "n")])].


(** A document whose section [e] has a comment but no entry. *)
Definition ex_text_empty : string :=
  unlines ["[e]"; "# nothing yet"; "[a]"; "k1: 1"].

Definition ex_e : Sect :=
  mkSect "e" (line_of "[e]") [EComment [line_of "# nothing yet"]].

Definition overlay_empty : Box := [the_path; ("e", Mapping [("x", SStr "1")])].

(** A file whose value is longer than the one the overlay assigns. *)
Definition ex_text_long : string := unlines ["[a]"; "k = 100"].

Definition overlay_shorter : Box := [the_path; ("a", Mapping [("k", SStr "1")])].

(** The surroundings of [read_config]: a home directory, a default
    template and a permission check. *)
Definition ex_home : path := ["home"; "awatt"].

Definition config_text (use_sandbox : string) : string :=
  unlines ["[file_location]"; "data_dir = '~/awattprice/data/'";
           "log_dir = ~/awattprice/log/"; "apns_dir = ~/awattprice/apns/";
           EmptyString; "[notifications]"; "use_sandbox: " +:+ use_sandbox;
           "dev_team_id = 'TEAM'"; "apns_encryption_key_id = KEYID";
           "apns_encryption_key = KEY"].

(** Modelled from the spec: the permission verifier of the external
    interfaces, which tells whether the permission bits of the file are
    owner-only (no bit for group or others). *)
Definition owner_only (f : gmap path node) (p : path) : bool :=
  match os.stat f p with
  | Some (File _ mode) => Z.land mode 63 =? 0
  | _ => false
  end.


(** The document of [config_text "TRUE"]. *)
Definition ex_config : ConfigUpdater :=
  Eval vm_compute in
    match read_string (config_text "TRUE") with
    | Ok cu => cu
    | Raise _ => []
    end.

(** File systems: only the home directory; a file reported without its
    parent directory; a file whose parent path is a file. *)
Definition fs_home : gmap path node := {[ ["home"] := Dir; ex_home := Dir ]}.



(** The document [ex_text] with the value of [k1] set to [2]. *)
Definition ex_updated : ConfigUpdater :=
  ex_pre ++ [BSection (mkSect "a" (line_of "[a]")
                         [EOpt (with_value (SStr "2") ex_k1); EOpt ex_k2;
                          ESpace [Text.nl]]);
             BSection ex_b].

Definition w_shorter : world :=
  World [overlay_shorter] (fs_with ex_text_long 384) [].

(** The text of the document the merge of [overlay] gives, for an
    overlay that is the only object of the store. *)
Definition merged_text (overlay : Box) (f : gmap path node) : result string :=
  match (config_updater_factory 0%nat (World [overlay] f [])).1 with
  | Ok (_, cu) => Ok (to_string cu)
  | Raise e => Raise e
  end.

(** What [read_config] makes of a file whose [use_sandbox] is [v], and
    what it leaves in the trace. *)
Definition sandbox_of (v : string) : result scalar * list event :=
  let r := read_config ex_home (config_text "True") owner_only (Some ex_path)
             (World [] (fs_with (config_text v) 384) []) in
  (config ← r.1; get_field "notifications" "use_sandbox" config, trace r.2).

(** More sample data, for the further properties. *)

(** A file that starts with an entry, outside any section, and one
    that holds a comment and no section. *)
Definition ex_text_bad : string := unlines ["k = 1"; "[a]"].

Definition ex_text_comment : string := unlines ["# nothing here"].


Definition fs_file_in_way : gmap path node :=
  {[ ["etc"] := Dir; ex_dir := File EmptyString 384 ]}.

Definition fs_config_dir : gmap path node :=
  {[ ["home"] := Dir; ex_home := Dir;
     ex_home // ".config" := Dir;
     ex_home // ".config" // "awattprice" := Dir ]}.

Definition ex_mine : string := config_text "False" +:+ "# mine".

Definition fs_settled : gmap path node :=
  <[user_config ex_home := File ex_mine 420]> fs_config_dir.

(** What a first call of [read_config] returns and the world it
    leaves, below a home directory that holds nothing. *)
Definition w_started : world :=
  Eval vm_compute in
    (read_config ex_home (config_text "TRUE") owner_only None
       (World [] fs_home [])).2.

Definition config_started : Box :=
  Eval vm_compute in
    match (read_config ex_home (config_text "TRUE") owner_only None
             (World [] fs_home [])).1 with
    | Ok config => config
    | Raise _ => []
    end.

(** What the merge of [overlay_keys] makes of [ex_text]. *)
Definition ex_merged : ConfigUpdater :=
  Eval vm_compute in
    match (config_updater_factory 0%nat (World [overlay_keys] ex_fs [])).1 with
    | Ok (_, cu) => cu
    | Raise _ => []
    end.


(** * Facts *)

Set Warnings "-clear-no-such-hyp".

(** ** Running computations *)

Lemma bind_ok {A B} (m : M A) (f : A → M B) w a w' :
  m w = (Ok a, w') → (m ≫= f) w = f a w'.
Proof. intros H. unfold mbind, M_bind. by rewrite H. Qed.

Lemma bind_raise {A B} (m : M A) (f : A → M B) w e w' :
  m w = (Raise e, w') → (m ≫= f) w = (Raise e, w').
Proof. intros H. unfold mbind, M_bind. by rewrite H. Qed.

Lemma bind_lift {A B} (r : result A) (f : A → M B) w :
  (lift r ≫= f) w = match r with Ok a => f a w | Raise e => (Raise e, w) end.
Proof. by destruct r. Qed.

Lemma bind_ret {A B} (a : A) (f : A → M B) w : (mret a ≫= f) w = f a w.
Proof. done. Qed.

(** ** Dictionaries *)

Section dict_facts.
Context {V : Type}.
Implicit Types (d : Dict.t V) (k : string).

Lemma get_None k d : Dict.get k d = None ↔ k ∉ Dict.keys d.
Proof.
  induction d as [|[k' v] d IH]; simpl.
  - split; [intros _; apply not_elem_of_nil | done].
  - case_bool_decide as Hk; subst.
    + split; [done | intros []; left].
    + rewrite IH, not_elem_of_cons.
      split; [split; [congruence | done] | by intros [_ ?]].
Qed.

Lemma get_Some_elem k d v : Dict.get k d = Some v → (k, v) ∈ d.
Proof.
  induction d as [|[k' v'] d IH]; simpl; [done|].
  case_bool_decide as Hk.
  - intros [= ->]. subst. left.
  - intros Hg. right. auto.
Qed.

Lemma contains_get k d : Dict.contains k d = bool_decide (is_Some (Dict.get k d)).
Proof.
  unfold Dict.contains. apply bool_decide_ext.
  rewrite <-not_eq_None_Some, get_None. split; [auto | apply dec_stable].
Qed.

Lemma keys_remove k d : Dict.keys (Dict.remove k d) = filter (λ x, x ≠ k) (Dict.keys d).
Proof.
  induction d as [|[k' v] d IH]; simpl; [done|].
  rewrite filter_cons. simpl. case_bool_decide; case_decide; try done; simpl.
  by f_equal.
Qed.

Lemma get_remove_ne k k' d : k ≠ k' → Dict.get k' (Dict.remove k d) = Dict.get k' d.
Proof.
  intros Hne. induction d as [|[k0 v] d IH]; simpl; [done|].
  repeat (case_bool_decide; simpl; simplify_eq); auto.
Qed.

Lemma remove_absent k d : k ∉ Dict.keys d → Dict.remove k d = d.
Proof.
  induction d as [|[k0 v] d IH]; simpl; [done|].
  rewrite not_elem_of_cons. intros [? ?]. case_bool_decide; [congruence|].
  f_equal; auto.
Qed.
End dict_facts.

(** ** The merge, without the store *)

Ltac munfold :=
  repeat progress
    (unfold mbind, M_bind, result_bind, rbind, mret, M_ret, result_ret, lift,
       raise, box.getitem, box.items, box.load, box.keys, box.contains;
     cbn beta).

Lemma merge_section_run config data b b' st section w :
  heap w !! config = Some b →
  heap w !! data = Some b' →
  merge_section config data st section w = (merge_step b b' st section, w).
Proof.
  intros Hb Hb'. destruct st as [cu to_add].
  unfold merge_section, merge_step, items_of. simpl.
  destruct (has_section section cu); munfold.
  - rewrite Hb. repeat case_match; simplify_eq; congruence.
  - rewrite Hb'. repeat case_match; simplify_eq; congruence.
Qed.

Lemma foldM_merge_run config data b b' keys st w :
  heap w !! config = Some b →
  heap w !! data = Some b' →
  foldM (merge_section config data) keys st w
  = (foldR (merge_step b b') keys st, w).
Proof.
  intros Hb Hb'. revert st. induction keys as [|k keys IH]; intros st; [done|].
  simpl. unfold mbind at 1, M_bind. rewrite (merge_section_run _ _ b b') by done.
  unfold mbind at 1, result_bind, rbind.
  destruct (merge_step b b' st k); [apply IH | done].
Qed.

Lemma insert_last {A} (l : list A) (x y : A) :
  <[length l := y]> (l ++ [x]) = l ++ [y].
Proof.
  rewrite insert_app_r_alt by lia. by rewrite Nat.sub_diag.
Qed.

Lemma factory_run config b w :
  heap w !! config = Some b →
  config_updater_factory config w = factory_outcome b w.
Proof.
  intros Hb. pose proof (lookup_lt_Some _ _ _ Hb) as Hlt.
  unfold config_updater_factory, factory_outcome, box.deepcopy, box.new,
    box.pop, box.store, os.read_text, read_file, Path.
  munfold. rewrite Hb. simpl.
  rewrite list_lookup_middle by done. rewrite contains_get.
  destruct (Dict.get "config_file_path" b) as [v|] eqn:Hv; simpl; [|done].
  rewrite list_lookup_middle by done. rewrite Hv. simpl.
  rewrite insert_last.
  set (b' := Dict.remove "config_file_path" b).
  set (w2 := set_heap (heap w ++ [b']) w).
  assert (Hh : ∀ p, heap (emit (EvOpenRead p) w2) !! config = Some b).
  { intros p. simpl. by rewrite lookup_app_l. }
  assert (Hh' : ∀ p, heap (emit (EvOpenRead p) w2) !! length (heap w) = Some b').
  { intros p. simpl. by rewrite list_lookup_middle. }
  destruct v as [[s|bb|p]|its]; simpl; try done.
  all: destruct (os.stat (fs w) _) as [[text m|]|] eqn:Hst; try done.
  all: destruct (read_string text) as [cu|e]; try done.
  all: rewrite Hh'; unfold merge.
  all: erewrite foldM_merge_run by (apply Hh || apply Hh').
  all: munfold; repeat case_match; simplify_eq; first [congruence | reflexivity].
Qed.

(** ** Positions in a list *)

Lemma find_idx_app {A} (p : A → bool) (l1 l2 : list A) (y : A) :
  Forall (λ x, p x = false) l1 → p y = true →
  find_idx p (l1 ++ y :: l2) = Some (length l1).
Proof.
  intros Hl Hy. induction Hl as [|x l1 Hx _ IH]; simpl.
  - by rewrite Hy.
  - by rewrite Hx, IH.
Qed.

Lemma find_idx_None {A} (p : A → bool) (l : list A) :
  Forall (λ x, p x = false) l → find_idx p l = None.
Proof.
  induction 1 as [|x l Hx _ IH]; simpl; [done|]. by rewrite Hx, IH.
Qed.

Lemma find_idx_Some {A} (p : A → bool) (l : list A) i :
  find_idx p l = Some i →
  ∃ l1 y l2, l = l1 ++ y :: l2 ∧ length l1 = i ∧ p y = true
             ∧ Forall (λ x, p x = false) l1.
Proof.
  revert i. induction l as [|x l IH]; intros i; simpl; [done|].
  destruct (p x) eqn:Hx.
  - intros [= <-]. by exists [], x, l.
  - destruct (find_idx p l) as [j|] eqn:Hj; simpl; [|done].
    intros [= <-]. destruct (IH j eq_refl) as (l1 & y & l2 & -> & <- & Hy & Hl).
    exists (x :: l1), y, l2. repeat split; auto.
Qed.

Lemma insert_at_app {A} (l1 l2 : list A) (x : A) :
  insert_at (length l1) x (l1 ++ l2) = l1 ++ x :: l2.
Proof.
  unfold insert_at. rewrite take_app_length.
  by rewrite drop_app_length.
Qed.

(** ** Sections *)

Lemma options_app_cons name0 hd es1 o es2 :
  options (mkSect name0 hd (es1 ++ EOpt o :: es2))
  = omap entry_key es1 ++ key o :: omap entry_key es2.
Proof. unfold options. simpl. by rewrite omap_app. Qed.

Lemma has_key_false k es :
  k ∉ omap entry_key es → Forall (λ e, has_key k e = false) es.
Proof.
  induction es as [|e es IH]; simpl; [constructor|].
  intros Hk. constructor.
  - unfold has_key. apply bool_decide_eq_false. intros He.
    rewrite He in Hk. apply Hk. left.
  - apply IH. destruct (entry_key e); [|done].
    by apply not_elem_of_cons in Hk as [_ ?].
Qed.

Lemma getitem_at s es1 o es2 :
  structure s = es1 ++ EOpt o :: es2 →
  key o ∉ omap entry_key es1 →
  getitem (key o) s = Ok (length es1).
Proof.
  intros Hs Hk. unfold getitem. rewrite Hs.
  rewrite find_idx_app; [done | by apply has_key_false |].
  unfold has_key. by apply bool_decide_eq_true.
Qed.

Lemma contains_true k s : k ∈ options s → contains k s = true.
Proof. intros. by apply bool_decide_eq_true. Qed.

Lemma contains_false k s : k ∉ options s → contains k s = false.
Proof. intros. by apply bool_decide_eq_false. Qed.

Lemma last_item_snoc {A} (l : list A) (x : A) : last_item (l ++ [x]) = Ok x.
Proof. unfold last_item. by rewrite last_snoc. Qed.

Lemma update_option_new s es1 o es2 k v :
  structure s = es1 ++ EOpt o :: es2 →
  key o ∉ omap entry_key es1 →
  k ∉ options s →
  update_option (s, key o) (k, v)
  = Ok (mkSect (name s) (header s)
          ((es1 ++ [EOpt o]) ++ new_option (k, v) :: es2), k).
Proof.
  intros Hs Ho Hk. unfold update_option.
  rewrite contains_false by done.
  rewrite (getitem_at s es1 o es2) by done. simpl.
  unfold add_option, add_after. simpl.
  rewrite contains_false by done. simpl.
  rewrite Hs. do 3 f_equal.
  replace (S (length es1)) with (length (es1 ++ [EOpt o]))
    by (rewrite length_app; simpl; lia).
  replace (es1 ++ EOpt o :: es2) with ((es1 ++ [EOpt o]) ++ es2)
    by (by rewrite <-app_assoc).
  by rewrite (insert_at_app (es1 ++ [EOpt o]) es2).
Qed.

Lemma update_options_new its : ∀ s es1 o es2,
  structure s = es1 ++ EOpt o :: es2 →
  key o ∉ omap entry_key es1 →
  NoDup its.*1 →
  Forall (λ k, k ∉ options s) its.*1 →
  foldR update_option its (s, key o)
  = Ok (mkSect (name s) (header s)
          (es1 ++ EOpt o :: (new_option <$> its) ++ es2),
        last_key (key o) its).
Proof.
  induction its as [|[k v] its IH]; intros s es1 o es2 Hs Ho Hnd Hfresh.
  - simpl. destruct s; simpl in *. by rewrite Hs.
  - simpl in Hnd, Hfresh. apply NoDup_cons in Hnd as [Hk Hnd].
    apply Forall_cons in Hfresh as [Hks Hfresh].
    change (foldR update_option ((k, v) :: its) (s, key o))
      with (update_option (s, key o) (k, v) ≫= foldR update_option its).
    rewrite (update_option_new s es1 o es2) by done.
    unfold mbind, result_bind, rbind.
    set (s' := mkSect _ _ _).
    assert (Hopts : options s = omap entry_key es1 ++ key o :: omap entry_key es2).
    { unfold options. by rewrite Hs, omap_app. }
    assert (H1 : k ∉ omap entry_key (es1 ++ [EOpt o])).
    { rewrite omap_app. simpl. intros Hin. apply Hks. rewrite Hopts.
      apply elem_of_app in Hin as [?|Hin]; apply elem_of_app; [by left|].
      right. apply list_elem_of_singleton in Hin as ->. left. }
    assert (H2 : Forall (λ k0, k0 ∉ options s') its.*1).
    { apply Forall_forall. intros k' Hk'.
      rewrite Forall_forall in Hfresh. specialize (Hfresh k' Hk').
      unfold options, s'. simpl. rewrite Hopts in Hfresh.
      rewrite !omap_app. simpl.
      intros Hin. apply elem_of_app in Hin as [Hin|Hin].
      - apply Hfresh. apply elem_of_app in Hin as [?|Hin];
          apply elem_of_app; [by left|].
        right. apply list_elem_of_singleton in Hin as ->. left.
      - apply elem_of_cons in Hin as [->|Hin]; [done|].
        apply Hfresh. apply elem_of_app. right. by right. }
    etrans;
      [exact (IH s' (es1 ++ [EOpt o]) (mkOpt k v "=" EmptyString true) es2
                eq_refl H1 Hnd H2)|].
    simpl. do 2 f_equal.
    + by rewrite <-app_assoc.
    + unfold last_key. rewrite fmap_cons, last_cons. simpl.
      by destruct (last its.*1).
Qed.

(** ** Documents *)

Lemma sections_app cu1 cu2 : sections (cu1 ++ cu2) = sections cu1 ++ sections cu2.
Proof. unfold sections, sections_blocks. by rewrite omap_app, fmap_app. Qed.

Lemma sections_cons_section s cu : sections (BSection s :: cu) = name s :: sections cu.
Proof. done. Qed.

Lemma is_section_false n cu :
  n ∉ sections cu → Forall (λ b, is_section n b = false) cu.
Proof.
  induction cu as [|b cu IH]; [constructor|].
  intros Hn. constructor.
  - unfold is_section. apply bool_decide_eq_false.
    destruct b as [s| |]; simpl; try done.
    intros [= <-]. apply Hn. left.
  - apply IH. destruct b; try done.
    rewrite sections_cons_section in Hn.
    by apply not_elem_of_cons in Hn as [_ ?].
Qed.

Lemma is_section_true s : is_section (name s) (BSection s) = true.
Proof. unfold is_section. by apply bool_decide_eq_true. Qed.

Lemma section_idx_at pre s post :
  name s ∉ sections pre →
  find_idx (is_section (name s)) (pre ++ BSection s :: post) = Some (length pre).
Proof.
  intros. apply find_idx_app; [by apply is_section_false | apply is_section_true].
Qed.

Lemma get_section_at pre s post :
  name s ∉ sections pre →
  get_section (name s) (pre ++ BSection s :: post) = Ok s.
Proof.
  intros Hn. unfold get_section.
  induction pre as [|b pre IH]; simpl.
  - by rewrite bool_decide_eq_true_2.
  - destruct b as [t| |]; simpl; try (by apply IH).
    rewrite sections_cons_section in Hn.
    apply not_elem_of_cons in Hn as [Hne Hn].
    rewrite bool_decide_eq_false_2 by done. by apply IH.
Qed.

Lemma has_section_true n cu : n ∈ sections cu → has_section n cu = true.
Proof. intros. by apply bool_decide_eq_true. Qed.

Lemma has_section_false n cu : n ∉ sections cu → has_section n cu = false.
Proof. intros. by apply bool_decide_eq_false. Qed.

Lemma has_section_at pre s post :
  has_section (name s) (pre ++ BSection s :: post) = true.
Proof.
  apply has_section_true. rewrite sections_app, sections_cons_section.
  apply elem_of_app. right. left.
Qed.

Lemma set_section_at pre s s' post :
  name s ∉ sections pre →
  set_section (name s) s' (pre ++ BSection s :: post)
  = pre ++ BSection s' :: post.
Proof.
  intros Hn. unfold set_section. rewrite section_idx_at by done.
  cbv beta iota. rewrite insert_app_r_alt by lia. by rewrite Nat.sub_diag.
Qed.

Lemma get_section_name n cu s : get_section n cu = Ok s → name s = n.
Proof.
  unfold get_section. destruct (List.find _ _) as [t|] eqn:Hf; [|done].
  intros [= ->]. apply List.find_some in Hf as [_ Hf].
  by apply bool_decide_eq_true in Hf.
Qed.

Lemma get_section_split n cu s :
  get_section n cu = Ok s →
  ∃ pre post, cu = pre ++ BSection s :: post ∧ n ∉ sections pre.
Proof.
  unfold get_section. induction cu as [|b cu IH]; simpl; [done|].
  destruct b as [t| |]; simpl.
  - case_bool_decide as Ht.
    + intros [= ->]. exists [], cu. split; [done | apply not_elem_of_nil].
    + intros Hs. destruct (IH Hs) as (pre & post & -> & Hn).
      exists (BSection t :: pre), post. split; [done|].
      rewrite sections_cons_section. by apply not_elem_of_cons.
  - intros Hs. destruct (IH Hs) as (pre & post & -> & Hn).
    by exists (BComment lines :: pre), post.
  - intros Hs. destruct (IH Hs) as (pre & post & -> & Hn).
    by exists (BSpace lines :: pre), post.
Qed.

Lemma has_section_get n cu :
  has_section n cu = true → ∃ s, get_section n cu = Ok s.
Proof.
  intros Hn%bool_decide_eq_true. unfold get_section.
  induction cu as [|b cu IH]; simpl; [by apply elem_of_nil in Hn|].
  destruct b as [t| |]; simpl; try (by apply IH).
  rewrite sections_cons_section in Hn.
  case_bool_decide; [by eexists|].
  apply IH. by apply elem_of_cons in Hn as [?|?].
Qed.

Lemma alter_middle {A} (f : A → A) (l1 l2 : list A) (x : A) :
  alter f (length l1) (l1 ++ x :: l2) = l1 ++ f x :: l2.
Proof. rewrite alter_app_r_alt by lia. by rewrite Nat.sub_diag. Qed.

Lemma insert_middle {A} (l1 l2 : list A) (x y : A) :
  <[length l1 := y]> (l1 ++ x :: l2) = l1 ++ y :: l2.
Proof. rewrite insert_app_r_alt by lia. by rewrite Nat.sub_diag. Qed.

Lemma update_option_existing s last es1 o es2 v :
  structure s = es1 ++ EOpt o :: es2 →
  key o ∉ omap entry_key es1 →
  update_option (s, last) (key o, v)
  = Ok (mkSect (name s) (header s) (es1 ++ EOpt (with_value v o) :: es2), last).
Proof.
  intros Hs Ho. unfold update_option.
  rewrite contains_true.
  2:{ unfold options. rewrite Hs, omap_app. apply elem_of_app. right. left. }
  rewrite (getitem_at s es1 o es2) by done. simpl.
  unfold set_value. rewrite Hs. by rewrite alter_middle.
Qed.

(** ** The text of a document *)

Lemma to_lines_app cu1 cu2 : to_lines (cu1 ++ cu2) = to_lines cu1 ++ to_lines cu2.
Proof. unfold to_lines. by rewrite fmap_app, concat_app. Qed.

Lemma to_lines_cons b cu : to_lines (b :: cu) = block_lines b ++ to_lines cu.
Proof. done. Qed.

Lemma sect_lines_middle n hd es1 e es2 :
  sect_lines (mkSect n hd (es1 ++ e :: es2))
  = (hd :: entries_lines es1) ++ entry_lines e ++ entries_lines es2.
Proof.
  unfold sect_lines, entries_lines. simpl.
  by rewrite fmap_app, concat_app.
Qed.

Lemma append_cons c s t : String c s +:+ t = String c (s +:+ t).
Proof. done. Qed.

Lemma append_nil_l s : EmptyString +:+ s = s.
Proof. done. Qed.

Lemma append_nil_r s : s +:+ EmptyString = s.
Proof. induction s as [|c s IH]; [done|]. by rewrite append_cons, IH. Qed.

Lemma append_assoc s t u : (s +:+ t) +:+ u = s +:+ t +:+ u.
Proof. induction s as [|c s IH]; [done|]. by rewrite !append_cons, IH. Qed.

Lemma length_append s t :
  String.length (s +:+ t) = (String.length s + String.length t)%nat.
Proof. induction s as [|c s IH]; [done|]. rewrite append_cons. simpl. by rewrite IH. Qed.

Lemma text_concat_app l1 l2 :
  Text.concat (l1 ++ l2) = Text.concat l1 +:+ Text.concat l2.
Proof.
  induction l1 as [|x l1 IH]; simpl; [done|].
  by rewrite IH, append_assoc.
Qed.

(** ** Appending the staged sections *)

Lemma sections_cons_space ls cu : sections (BSpace ls :: cu) = sections cu.
Proof. done. Qed.

Lemma sections_cons_comment ls cu : sections (BComment ls :: cu) = sections cu.
Proof. done. Qed.

Lemma sections_nil : sections [] = [].
Proof. done. Qed.

Ltac sections_norm :=
  rewrite ?sections_app, ?sections_cons_section, ?sections_cons_space,
    ?sections_cons_comment, ?sections_nil in *.

Lemma append_section_at pre a post s :
  name a ∉ sections pre →
  name s ∉ sections (pre ++ BSection a :: post) →
  append_section (pre ++ BSection a :: post, a) s
  = Ok ((pre ++ [BSection a; BSpace [Text.nl]]) ++ BSection s :: post, s).
Proof.
  intros Ha Hs. unfold append_section, section_add_after, section_idx.
  rewrite section_idx_at by done. simpl.
  unfold add_space, add_section. simpl.
  replace (pre ++ BSection a :: post) with ((pre ++ [BSection a]) ++ post)
    by (by rewrite <-app_assoc).
  replace (S (length pre)) with (length (pre ++ [BSection a]))
    by (rewrite length_app; simpl; lia).
  rewrite insert_at_app.
  rewrite has_section_false by (sections_norm; set_solver).
  simpl. do 2 f_equal.
  replace ((pre ++ [BSection a]) ++ BSpace [Text.nl] :: post)
    with ((pre ++ [BSection a; BSpace [Text.nl]]) ++ post)
    by (by rewrite <-!app_assoc).
  replace (S (length (pre ++ [BSection a])))
    with (length (pre ++ [BSection a; BSpace [Text.nl]]))
    by (rewrite !length_app; simpl; lia).
  by rewrite insert_at_app.
Qed.

Lemma append_sections_fold news : ∀ pre a post,
  name a ∉ sections pre →
  NoDup (name <$> news) →
  Forall (λ s, name s ∉ sections (pre ++ BSection a :: post)) news →
  foldR append_section news (pre ++ BSection a :: post, a)
  = Ok (pre ++ BSection a :: chain news ++ post, default a (last news)).
Proof.
  induction news as [|s news IH]; intros pre a post Ha Hnd Hnew; [done|].
  simpl in Hnd. apply NoDup_cons in Hnd as [Hs Hnd].
  apply Forall_cons in Hnew as [Hsn Hnew].
  change (foldR append_section (s :: news) (pre ++ BSection a :: post, a))
    with (append_section (pre ++ BSection a :: post, a) s
            ≫= foldR append_section news).
  rewrite append_section_at by done.
  unfold mbind, result_bind, rbind.
  rewrite IH; try done.
  - f_equal. f_equal.
    + by rewrite <-app_assoc.
    + rewrite last_cons. by destruct (last news).
  - sections_norm. set_solver.
  - apply Forall_forall. intros t Ht.
    rewrite Forall_forall in Hnew. specialize (Hnew t Ht).
    assert (name t ≠ name s).
    { intros Heq. apply Hs. rewrite <-Heq. by apply list_elem_of_fmap_2. }
    sections_norm. set_solver.
Qed.

(** ** The loop over the overlay *)

Lemma foldR_app {A B} (f : A → B → result A) l1 l2 a :
  foldR f (l1 ++ l2) a = foldR f l1 a ≫= foldR f l2.
Proof.
  revert a. induction l1 as [|x l1 IH]; intros a; simpl; [done|].
  unfold mbind, result_bind, rbind. destruct (f a x); [apply IH | done].
Qed.

Lemma get_NoDup {V} (d : Dict.t V) k v :
  NoDup (Dict.keys d) → (k, v) ∈ d → Dict.get k d = Some v.
Proof.
  induction d as [|[k' v'] d IH]; simpl; intros Hnd Hin.
  - by apply elem_of_nil in Hin.
  - apply NoDup_cons in Hnd as [Hk Hnd].
    apply elem_of_cons in Hin as [[= <- <-]|Hin].
    + by rewrite bool_decide_eq_true_2.
    + rewrite bool_decide_eq_false_2; [by apply IH|].
      intros ->. apply Hk. by apply (list_elem_of_fmap_2 fst _ (k, v)).
Qed.




(** ** What the merge leaves alone *)

Lemma get_section_skip n l1 b l2 :
  name <$> block_section b ≠ Some n →
  get_section n (l1 ++ b :: l2) = get_section n (l1 ++ l2).
Proof.
  intros Hb. unfold get_section.
  induction l1 as [|x l1 IH]; simpl.
  - destruct b as [t| |]; simpl; try done.
    rewrite bool_decide_eq_false_2; [done|]. intros Ht. apply Hb. simpl. by f_equal.
  - destruct x as [t| |]; simpl; try done.
    case_bool_decide; [done|]. apply IH.
Qed.

Lemma get_section_insert_at n i b cu :
  name <$> block_section b ≠ Some n →
  get_section n (insert_at i b cu) = get_section n cu.
Proof.
  intros Hb. unfold insert_at. rewrite get_section_skip by done.
  by rewrite take_drop.
Qed.

Lemma get_section_set_other n k t cu :
  has_section k cu = true → name t = k → k ≠ n →
  get_section n (set_section k t cu) = get_section n cu.
Proof.
  intros Hk Ht Hne. unfold set_section.
  destruct (find_idx (is_section k) cu) as [i|] eqn:Hi.
  - apply find_idx_Some in Hi as (l1 & y & l2 & -> & <- & Hy & _).
    rewrite insert_middle. rewrite !get_section_skip; [done| |].
    + unfold is_section in Hy. apply bool_decide_eq_true in Hy.
      rewrite Hy. congruence.
    + simpl. congruence.
  - apply bool_decide_eq_true in Hk.
    assert (Forall (λ b, is_section k b = false) cu) as Hall.
    { clear Hk. induction cu as [|x cu IH]; [constructor|].
      simpl in Hi. destruct (is_section k x) eqn:Hx; [done|].
      constructor; [done|]. apply IH. by destruct (find_idx _ cu). }
    exfalso. clear Hi. induction Hall as [|x cu Hx _ IH]; [by apply elem_of_nil in Hk|].
    destruct x as [u| |]; try (by apply IH).
    rewrite sections_cons_section in Hk. apply elem_of_cons in Hk as [->|Hk]; [|by apply IH].
    by rewrite is_section_true in Hx.
Qed.

Lemma update_option_name st it st' :
  update_option st it = Ok st' → name st'.1 = name st.1.
Proof.
  destruct st as [s lo], it as [k v]. unfold update_option, add_option, add_after.
  unfold mbind, result_bind, rbind. simpl.
  repeat case_match; intros; simplify_eq; done.
Qed.

Lemma update_options_name its : ∀ st st',
  foldR update_option its st = Ok st' → name st'.1 = name st.1.
Proof.
  induction its as [|it its IH]; intros st st'; simpl.
  - by intros [= ->].
  - unfold mbind, result_bind, rbind.
    destruct (update_option st it) as [st1|] eqn:H1; [|done].
    intros H2. rewrite (IH _ _ H2). by eapply update_option_name.
Qed.

Lemma merge_step_frame b b' st k st' n :
  k ≠ n →
  merge_step b b' st k = Ok st' →
  get_section n st'.1 = get_section n st.1.
Proof.
  intros Hne. unfold merge_step.
  destruct (has_section k st.1) eqn:Hk.
  - unfold mbind, result_bind, rbind.
    destruct (get_section k st.1) as [s|] eqn:Hs; [|done].
    destruct (last_item _); [|done].
    destruct (items_of _ _); [|done].
    destruct (foldR update_option _ _) as [r|] eqn:Hr; [|done].
    intros [= <-]. simpl. apply get_section_set_other; [done| |done].
    apply update_options_name in Hr. simpl in Hr.
    rewrite Hr. by eapply get_section_name.
  - unfold mbind, result_bind, rbind.
    destruct (items_of _ _); [|done].
    destruct (new_section _ _); [|done].
    by intros [= <-].
Qed.

Lemma merge_steps_frame b b' n keys : ∀ st st',
  n ∉ keys →
  foldR (merge_step b b') keys st = Ok st' →
  get_section n st'.1 = get_section n st.1.
Proof.
  induction keys as [|k keys IH]; intros st st' Hn; simpl.
  - by intros [= ->].
  - apply not_elem_of_cons in Hn as [Hne Hn].
    unfold mbind, result_bind, rbind.
    destruct (merge_step b b' st k) as [st1|] eqn:H1; [|done].
    intros H2. rewrite (IH _ _ Hn H2).
    eapply merge_step_frame; [|done]. congruence.
Qed.

Lemma get_section_elem n cu s : get_section n cu = Ok s → n ∈ sections cu.
Proof.
  intros H. pose proof (get_section_name _ _ _ H) as <-.
  apply get_section_split in H as (pre & post & -> & _).
  sections_norm. set_solver.
Qed.

Lemma append_section_frame n s st t st' :
  get_section n st.1 = Ok s →
  append_section st t = Ok st' →
  get_section n st'.1 = Ok s.
Proof.
  destruct st as [cu a]. simpl. intros Hn.
  unfold append_section, section_add_after, add_space, add_section.
  unfold mbind, result_bind, rbind.
  destruct (section_idx (name a) cu) as [i|]; [|done]. simpl.
  destruct (has_section (name t) _) eqn:Ht; [done|].
  intros [= <-]. simpl.
  assert (Hn' : get_section n (insert_at (S i) (BSpace [Text.nl]) cu) = Ok s).
  { by rewrite get_section_insert_at. }
  rewrite get_section_insert_at; [done|]. simpl. intros [= Heq].
  apply bool_decide_eq_false in Ht. apply Ht. rewrite Heq.
  by eapply get_section_elem.
Qed.

Lemma append_sections_frame n s to_add cu cu' :
  get_section n cu = Ok s →
  append_sections cu to_add = Ok cu' →
  get_section n cu' = Ok s.
Proof.
  intros Hn. unfold append_sections. destruct to_add as [|t0 to_add0]; [by intros [= <-]|].
  set (to_add := t0 :: to_add0). clearbody to_add.
  unfold mbind, result_bind, rbind.
  destruct (last_item _); [|done]. destruct (get_section a cu) as [anchor|]; [|done].
  destruct (foldR append_section to_add (cu, anchor)) as [r|] eqn:Hr; [|done].
  intros [= <-]. revert Hr.
  change cu with ((cu, anchor).1) in Hn. generalize dependent (cu, anchor).
  clear. induction to_add as [|t to_add IH]; intros st Hn; simpl.
  - by intros [= <-].
  - unfold mbind, result_bind, rbind.
    destruct (append_section st t) as [st1|] eqn:H1; [|done].
    apply IH. by eapply append_section_frame.
Qed.

(** A section whose last key is [o]. *)
Lemma last_option_at s es1 o es2 :
  structure s = es1 ++ EOpt o :: es2 →
  omap entry_key es2 = [] →
  options s = omap entry_key es1 ++ [key o]
  ∧ last_item (options s) = Ok (key o).
Proof.
  intros Hs He. unfold options. rewrite Hs, omap_app.
  change (omap entry_key (EOpt o :: es2)) with (key o :: omap entry_key es2).
  rewrite He. split; [done | apply last_item_snoc].
Qed.

Lemma NoDup_snoc_notin {A} (l : list A) (x : A) : NoDup (l ++ [x]) → x ∉ l.
Proof.
  intros (_ & H & _)%NoDup_app Hx. apply (H x Hx). left.
Qed.

(** The step of the outer loop for a section that is there and gets
    new keys only. *)
Lemma merge_step_new_keys b b' cu to_add s es1 o es2 its :
  get_section (name s) cu = Ok s →
  Dict.get (name s) b = Some (Mapping its) →
  structure s = es1 ++ EOpt o :: es2 →
  omap entry_key es2 = [] →
  NoDup (options s) →
  NoDup its.*1 →
  Forall (λ k, k ∉ options s) its.*1 →
  merge_step b b' (cu, to_add) (name s)
  = Ok (set_section (name s)
          (mkSect (name s) (header s)
             (es1 ++ EOpt o :: (new_option <$> its) ++ es2)) cu, to_add).
Proof.
  intros Hg Hb Hs He Hnd Hits Hfresh.
  destruct (last_option_at s es1 o es2 Hs He) as [Hopts Hlast].
  unfold merge_step. simpl.
  rewrite has_section_true by (by eapply get_section_elem).
  rewrite Hg. unfold mbind, result_bind, rbind. rewrite Hlast, Hb. simpl.
  rewrite (update_options_new its s es1 o es2); try done.
  rewrite Hopts in Hnd. by apply NoDup_snoc_notin.
Qed.

(** ** The whole merge *)

Lemma factory_ok_inv config b w p doc' w' :
  heap w !! config = Some b →
  config_updater_factory config w = (Ok (p, doc'), w') →
  ∃ v text m doc,
    Dict.get "config_file_path" b = Some v ∧ Path v = Ok p
    ∧ os.stat (fs w) p = Some (File text m) ∧ read_string text = Ok doc
    ∧ merge b (Dict.remove "config_file_path" b) doc = Ok doc'
    ∧ w' = emit (EvOpenRead p)
             (set_heap (heap w ++ [Dict.remove "config_file_path" b]) w).
Proof.
  intros Hb. rewrite (factory_run config b w Hb). unfold factory_outcome.
  destruct (Dict.get _ b) as [v|]; [|done].
  destruct (Path v) as [p0|] eqn:Hp; [|done].
  destruct (os.stat (fs w) p0) as [[text m|]|] eqn:Hst; try done.
  destruct (read_string text) as [doc|] eqn:Hdoc; [|done].
  destruct (merge _ _ doc) as [d|] eqn:Hm; [|done].
  intros [= <- <- <-]. by exists v, text, m, doc.
Qed.

Lemma factory_ok_intro config b w v p text m doc doc' :
  heap w !! config = Some b →
  Dict.get "config_file_path" b = Some v → Path v = Ok p →
  os.stat (fs w) p = Some (File text m) → read_string text = Ok doc →
  merge b (Dict.remove "config_file_path" b) doc = Ok doc' →
  config_updater_factory config w
  = (Ok (p, doc'),
     emit (EvOpenRead p)
       (set_heap (heap w ++ [Dict.remove "config_file_path" b]) w)).
Proof.
  intros Hb Hv Hp Hst Hdoc Hm. rewrite (factory_run config b w Hb).
  unfold factory_outcome. by rewrite Hv, Hp, Hst, Hdoc, Hm.
Qed.

Lemma factory_raise_intro config b w v p text m doc e :
  heap w !! config = Some b →
  Dict.get "config_file_path" b = Some v → Path v = Ok p →
  os.stat (fs w) p = Some (File text m) → read_string text = Ok doc →
  merge b (Dict.remove "config_file_path" b) doc = Raise e →
  config_updater_factory config w
  = (Raise e,
     emit (EvOpenRead p)
       (set_heap (heap w ++ [Dict.remove "config_file_path" b]) w)).
Proof.
  intros Hb Hv Hp Hst Hdoc Hm. rewrite (factory_run config b w Hb).
  unfold factory_outcome. by rewrite Hv, Hp, Hst, Hdoc, Hm.
Qed.

Lemma keys_remove_NoDup {V} k (d : Dict.t V) :
  NoDup (Dict.keys d) → NoDup (Dict.keys (Dict.remove k d)).
Proof. rewrite keys_remove. apply NoDup_filter. Qed.

(** Where a key of the overlay stands among the sections a merge
    visits. *)
Lemma overlay_split (b : Box) n v :
  NoDup (Dict.keys b) →
  n ≠ "config_file_path" →
  Dict.get n b = Some v →
  ∃ l1 l2, Dict.keys (Dict.remove "config_file_path" b) = l1 ++ n :: l2
           ∧ (n ∉ l1) ∧ (n ∉ l2).
Proof.
  intros Hnd Hne Hv.
  assert (Hin : n ∈ Dict.keys (Dict.remove "config_file_path" b)).
  { rewrite keys_remove. apply list_elem_of_filter. split; [done|].
    apply dec_stable. rewrite <-get_None. congruence. }
  apply list_elem_of_split in Hin as (l1 & l2 & Heq).
  exists l1, l2. split; [done|].
  apply (keys_remove_NoDup "config_file_path") in Hnd. rewrite Heq in Hnd.
  apply NoDup_app in Hnd as (_ & H1 & H2%NoDup_cons).
  split; [|tauto]. intros Hl1. apply (H1 n Hl1). left.
Qed.

Lemma merge_inv b b' doc doc' l1 n l2 :
  Dict.keys b' = l1 ++ n :: l2 →
  merge b b' doc = Ok doc' →
  ∃ st1 st2 st3,
    foldR (merge_step b b') l1 (doc, []) = Ok st1
    ∧ merge_step b b' st1 n = Ok st2
    ∧ foldR (merge_step b b') l2 st2 = Ok st3
    ∧ append_sections st3.1 st3.2 = Ok doc'.
Proof.
  intros Hk. unfold merge. rewrite Hk, foldR_app. simpl.
  unfold mbind, result_bind, rbind.
  destruct (foldR _ l1 _) as [st1|] eqn:H1; [|done].
  destruct (merge_step b b' st1 n) as [st2|] eqn:H2; [|done].
  destruct (foldR _ l2 st2) as [st3|] eqn:H3; [|done].
  intros H. by exists st1, st2, st3.
Qed.

Lemma merge_new_keys b b' doc doc' s es1 o es2 its :
  NoDup (Dict.keys b) →
  b' = Dict.remove "config_file_path" b →
  name s ≠ "config_file_path" →
  Dict.get (name s) b = Some (Mapping its) →
  get_section (name s) doc = Ok s →
  structure s = es1 ++ EOpt o :: es2 →
  omap entry_key es2 = [] →
  NoDup (options s) →
  NoDup its.*1 →
  Forall (λ k, k ∉ options s) its.*1 →
  merge b b' doc = Ok doc' →
  get_section (name s) doc'
  = Ok (mkSect (name s) (header s)
          (es1 ++ EOpt o :: (new_option <$> its) ++ es2)).
Proof.
  intros Hnd -> Hne Hb Hg Hs He Hopts Hits Hfresh Hm.
  destruct (overlay_split b (name s) _ Hnd Hne Hb) as (l1 & l2 & Hk & Hl1 & Hl2).
  destruct (merge_inv _ _ _ _ _ _ _ Hk Hm) as (st1 & st2 & st3 & H1 & H2 & H3 & H4).
  pose proof (merge_steps_frame _ _ (name s) _ _ _ Hl1 H1) as Hf1. simpl in Hf1.
  rewrite Hg in Hf1. destruct st1 as [cu1 ta1]. simpl in Hf1.
  rewrite (merge_step_new_keys _ _ cu1 ta1 s es1 o es2 its) in H2 by done.
  injection H2 as <-.
  pose proof (merge_steps_frame _ _ (name s) _ _ _ Hl2 H3) as Hf3. simpl in Hf3.
  eapply append_sections_frame; [|exact H4]. rewrite Hf3.
  apply get_section_split in Hf1 as (pre & post & -> & Hpre).
  rewrite set_section_at by done.
  set (s' := mkSect _ _ _). change (name s) with (name s'). by apply get_section_at.
Qed.

Lemma remove_singleton {V} k (d : Dict.t V) n v :
  Dict.remove k d = [(n, v)] → n ≠ k ∧ Dict.get n d = Some v.
Proof.
  intros Hr.
  assert (Hin : n ∈ Dict.keys (Dict.remove k d)) by (rewrite Hr; left).
  rewrite keys_remove in Hin. apply list_elem_of_filter in Hin as [Hne _].
  split; [done|]. rewrite <-(get_remove_ne k n d) by done.
  rewrite Hr. simpl. by rewrite bool_decide_eq_true_2.
Qed.



Lemma length_lookup_middle {A} (l1 l2 : list A) x :
  (l1 ++ x :: l2) !! length l1 = Some x.
Proof. by apply list_lookup_middle. Qed.


Lemma sections_chain news : sections (chain news) = name <$> news.
Proof.
  induction news as [|s news IH]; [done|].
  change (chain (s :: news))
    with (BSpace [Text.nl] :: BSection s :: chain news).
  by rewrite sections_cons_space, sections_cons_section, IH.
Qed.

Lemma append_sections_cons cu t to_add :
  append_sections cu (t :: to_add)
  = (n ← last_item (sections cu);
     last_section ← get_section n cu;
     r ← foldR append_section (t :: to_add) (cu, last_section);
     Ok r.1).
Proof. done. Qed.

Lemma merge_step_empty_section b b' st n s :
  get_section n st.1 = Ok s →
  options s = [] →
  merge_step b b' st n = Raise IndexError.
Proof.
  intros Hg Ho. unfold merge_step.
  rewrite has_section_true by (by eapply get_section_elem).
  rewrite Hg. unfold mbind, result_bind, rbind. by rewrite Ho.
Qed.

Lemma merge_empty_section b b' doc n s l1 l2 :
  Dict.keys b' = l1 ++ n :: l2 →
  n ∉ l1 →
  get_section n doc = Ok s →
  options s = [] →
  ∃ e, merge b b' doc = Raise e ∧ (l1 = [] → e = IndexError).
Proof.
  intros Hk Hl1 Hg Ho. unfold merge. rewrite Hk, foldR_app.
  unfold mbind at 2, result_bind, rbind.
  destruct (foldR _ l1 _) as [st1|e] eqn:H1.
  - cbn [foldR]. unfold mbind, result_bind, rbind.
    rewrite (merge_step_empty_section b b' st1 n s); [by eexists| |done].
    rewrite (merge_steps_frame _ _ n _ _ _ Hl1 H1). done.
  - exists e. split; [done|]. intros ->. done.
Qed.

(** ** Writing a file *)

Lemma overwrite_start data old :
  os.overwrite 0 data old = data +:+ Text.drop (String.length data) old.
Proof. unfold os.overwrite. simpl. by destruct old. Qed.

Lemma write_existing p cu w old m :
  os.stat (fs w) p = Some (File old m) →
  p ≠ [] →
  write_config_updater p cu w
  = (Ok tt,
     World (heap w)
       (<[p := File (to_string cu +:+ Text.drop (String.length (to_string cu)) old) m]>
          (fs w))
       (trace w ++ [EvOpenWrite p])).
Proof.
  intros Hst Hp. unfold write_config_updater, os.open, write, os.write.
  unfold mbind, M_bind. rewrite Hst. simpl.
  assert (Hl : fs w !! p = Some (File old m)) by (by destruct p).
  rewrite Hl. simpl. by rewrite overwrite_start.
Qed.

Lemma write_fresh p cu w :
  os.stat (fs w) p = None →
  os.stat (fs w) (parent p) = Some Dir →
  write_config_updater p cu w
  = (Ok tt,
     World (heap w) (<[p := File (to_string cu) 384]> (fs w))
       (trace w ++ [EvOpenWrite p])).
Proof.
  intros Hst Hpar. unfold write_config_updater, os.open, write, os.write.
  unfold mbind, M_bind. rewrite Hst. simpl. rewrite Hpar. simpl.
  rewrite lookup_insert_eq. simpl. rewrite insert_insert_eq.
  rewrite overwrite_start. simpl.
  replace (Text.drop (String.length (to_string cu)) EmptyString) with EmptyString
    by (by destruct (String.length _)).
  by rewrite append_nil_r.
Qed.

(** ** Boxes *)

Section dict_set.
Context {V : Type}.
Implicit Types (d : Dict.t V) (k : string).

Lemma get_set_eq k v d : Dict.get k (Dict.set k v d) = Some v.
Proof.
  induction d as [|[k' v'] d IH]; simpl.
  - by rewrite bool_decide_eq_true_2.
  - case_bool_decide as Hk; simpl.
    + by rewrite bool_decide_eq_true_2.
    + by rewrite bool_decide_eq_false_2.
Qed.

Lemma get_set_ne k k' v d : k ≠ k' → Dict.get k' (Dict.set k v d) = Dict.get k' d.
Proof.
  intros Hne. induction d as [|[k0 v0] d IH]; simpl.
  - by rewrite bool_decide_eq_false_2.
  - case_bool_decide as Hk; simpl.
    + subst. by rewrite !bool_decide_eq_false_2.
    + by rewrite IH.
Qed.
End dict_set.

Lemma get_field_set_field section key x config config' section' key' :
  set_field section key x config = Ok config' →
  get_field section' key' config'
  = if bool_decide (section' = section ∧ key' = key) then Ok x
    else get_field section' key' config.
Proof.
  unfold set_field, get_field.
  destruct (Dict.get section config) as [[y|its]|] eqn:Hs; try done.
  intros [= <-].
  destruct (decide (section' = section)) as [->|Hsec].
  - rewrite get_set_eq, Hs.
    destruct (decide (key' = key)) as [->|Hkey].
    + rewrite get_set_eq. by rewrite bool_decide_eq_true_2.
    + rewrite get_set_ne by done. rewrite bool_decide_eq_false_2; [done|tauto].
  - rewrite get_set_ne by done. rewrite bool_decide_eq_false_2; [done|tauto].
Qed.

Lemma strip_quotes_ok section key config s :
  get_field section key config = Ok (SStr s) →
  ∃ config',
    strip_quotes section key config = Ok config'
    ∧ ∀ section' key',
        get_field section' key' config'
        = if bool_decide (section' = section ∧ key' = key)
          then Ok (SStr (Text.strip Text.quotes s))
          else get_field section' key' config.
Proof.
  intros Hg. unfold strip_quotes. rewrite Hg.
  unfold mbind, result_bind, rbind. simpl.
  destruct (set_field section key (SStr (Text.strip Text.quotes s)) config)
    as [config'|e] eqn:Hset.
  - exists config'. split; [done|]. intros. by eapply get_field_set_field.
  - unfold set_field, get_field in *.
    destruct (Dict.get section config) as [[y|its]|]; done.
Qed.

Lemma set_field_ok section key x y config :
  get_field section key config = Ok y →
  ∃ config', set_field section key x config = Ok config'.
Proof.
  unfold set_field, get_field.
  destruct (Dict.get section config) as [[?|its]|]; try done. by eexists.
Qed.

Lemma get_field_set_key k v section key config :
  k ≠ section →
  get_field section key (Dict.set k v config) = get_field section key config.
Proof. intros Hne. unfold get_field. by rewrite get_set_ne. Qed.

(** ** Running [read_config] *)

Lemma bind_lift_ok {A B} (r : result A) (f : A → M B) a w :
  r = Ok a → (lift r ≫= f) w = f a w.
Proof. by intros ->. Qed.

Lemma first_existing_run l w :
  first_existing l w = (Ok (List.find (os.present (fs w)) l), w).
Proof.
  induction l as [|p l IH]; [done|]. simpl.
  unfold mbind, M_bind, os.exists_. simpl.
  destruct (os.present (fs w) p); [done | apply IH].
Qed.

Lemma check_parent_run p w :
  check_parent p w
  = if os.present (fs w) (parent p) && negb (os.directory (fs w) (parent p))
    then (Raise (SystemExit 1), emit (EvLog ERROR (ExpectedDirectory (parent p))) w)
    else (Ok tt, w).
Proof.
  unfold check_parent, mbind, M_bind, os.exists_, os.is_dir. simpl.
  by destruct (_ && _).
Qed.

Lemma load_found_run p w text m cu :
  os.stat (fs w) p = Some (File text m) →
  read_string text = Ok cu →
  load p None w = (Ok cu, emit (EvOpenRead p) w).
Proof.
  intros Hst Hcu. unfold load, try_except, read, os.read_text, mbind, M_bind.
  by rewrite Hst, Hcu.
Qed.

Lemma is_text_get config f :
  is_text config f = true → ∃ s, get_field f.1 f.2 config = Ok (SStr s).
Proof.
  unfold is_text. destruct (get_field _ _ _) as [[s| |]|]; try done. by exists s.
Qed.

Lemma run_on_sandbox_run config v w :
  get_field "notifications" "use_sandbox" config = Ok (SStr v) →
  run_on_sandbox config w
  = (Ok (bool_decide (Text.lower v = "true")),
     World (heap w) (fs w) (trace w ++ sandbox_log v)).
Proof.
  intros Hv. unfold run_on_sandbox, sandbox_log.
  rewrite (bind_lift_ok _ _ _ _ Hv). simpl.
  unfold mbind at 1, M_bind at 1. simpl.
  destruct (bool_decide (Text.lower v = "true")) eqn:Ht; simpl.
  { rewrite app_nil_r. by destruct w. }
  rewrite (bind_lift_ok _ _ _ _ Hv). simpl.
  unfold mbind at 1, M_bind at 1. simpl.
  destruct (bool_decide (Text.lower v = "false")) eqn:Hf; simpl.
  { rewrite app_nil_r. by destruct w. }
  done.
Qed.

Lemma resolve_run p cu v w :
  complete (to_dict cu) = true →
  get_field "notifications" "use_sandbox" (to_dict cu) = Ok (SStr v) →
  ∃ config,
    resolve p cu w
    = (Ok config, World (heap w) (fs w) (trace w ++ sandbox_log v))
    ∧ get_field "notifications" "use_sandbox" config
      = Ok (SBool (bool_decide (Text.lower v = "true"))).
Proof.
  intros Hc Hv. unfold complete, string_fields in Hc. cbn [forallb] in Hc.
  apply andb_prop in Hc as [[x1 F1]%is_text_get Hc].
  apply andb_prop in Hc as [[x2 F2]%is_text_get Hc].
  apply andb_prop in Hc as [[x3 F3]%is_text_get Hc].
  apply andb_prop in Hc as [[x4 F4]%is_text_get Hc].
  apply andb_prop in Hc as [[x5 F5]%is_text_get Hc].
  apply andb_prop in Hc as [[x6 F6]%is_text_get _].
  cbn [fst snd] in *.
  set (config0 := Dict.set "config_file_path" (Scalar (SPath p)) (to_dict cu)).
  assert (Hc0 : ∀ section key, section ≠ "config_file_path" →
             get_field section key config0 = get_field section key (to_dict cu)).
  { intros. by apply get_field_set_key. }
  unfold resolve. fold config0.
  destruct (strip_quotes_ok "file_location" "data_dir" config0 x1) as (c1 & Hs1 & Hc1).
  { by rewrite Hc0. }
  rewrite (bind_lift_ok _ _ _ _ Hs1).
  destruct (strip_quotes_ok "file_location" "log_dir" c1 x2) as (c2 & Hs2 & Hc2).
  { rewrite Hc1. simpl. by rewrite Hc0. }
  rewrite (bind_lift_ok _ _ _ _ Hs2).
  destruct (strip_quotes_ok "file_location" "apns_dir" c2 x3) as (c3 & Hs3 & Hc3).
  { rewrite Hc2, Hc1. simpl. by rewrite Hc0. }
  rewrite (bind_lift_ok _ _ _ _ Hs3).
  assert (Hv3 : get_field "notifications" "use_sandbox" c3 = Ok (SStr v)).
  { rewrite Hc3, Hc2, Hc1. simpl. by rewrite Hc0. }
  rewrite (bind_ok _ _ _ _ _ (run_on_sandbox_run c3 v w Hv3)).
  set (r := bool_decide (Text.lower v = "true")).
  destruct (set_field_ok "notifications" "use_sandbox" (SBool r) _ c3 Hv3)
    as (c4 & Hs4).
  pose proof (λ s' k', get_field_set_field _ _ _ _ _ s' k' Hs4) as Hc4.
  rewrite (bind_lift_ok _ _ _ _ Hs4).
  destruct (strip_quotes_ok "notifications" "dev_team_id" c4 x4) as (c5 & Hs5 & Hc5).
  { rewrite Hc4, Hc3, Hc2, Hc1. simpl. by rewrite Hc0. }
  rewrite (bind_lift_ok _ _ _ _ Hs5).
  destruct (strip_quotes_ok "notifications" "apns_encryption_key_id" c5 x5)
    as (c6 & Hs6 & Hc6).
  { rewrite Hc5, Hc4, Hc3, Hc2, Hc1. simpl. by rewrite Hc0. }
  rewrite (bind_lift_ok _ _ _ _ Hs6).
  destruct (strip_quotes_ok "notifications" "apns_encryption_key" c6 x6)
    as (c7 & Hs7 & Hc7).
  { rewrite Hc6, Hc5, Hc4, Hc3, Hc2, Hc1. simpl. by rewrite Hc0. }
  rewrite (bind_lift_ok _ _ _ _ Hs7).
  exists c7. split; [done|].
  rewrite Hc7, Hc6, Hc5, Hc4. done.
Qed.

Section read_config_facts.

Variable home : path.
Variable DEFAULT_CONFIG : string.
Variable verify_file_permissions : gmap path node → path → bool.

Lemma locate_found given w p :
  List.find (os.present (fs w)) (config_path_locations home given) = Some p →
  locate home DEFAULT_CONFIG given w = (Ok (p, true, None), w).
Proof.
  intros Hfound. unfold locate, mbind, M_bind.
  by rewrite first_existing_run, Hfound.
Qed.

Lemma check_permissions_run p w :
  check_permissions verify_file_permissions p w
  = if verify_file_permissions (fs w) p then (Ok tt, w)
    else (Raise (SystemExit 1), emit (EvLog ERROR (InsecurePermissions p)) w).
Proof.
  unfold check_permissions, mbind, M_bind. simpl.
  by destruct (verify_file_permissions _ _).
Qed.

Lemma read_config_found given w p :
  List.find (os.present (fs w)) (config_path_locations home given) = Some p →
  read_config home DEFAULT_CONFIG verify_file_permissions given w
  = if os.present (fs w) (parent p) && negb (os.directory (fs w) (parent p))
    then (Raise (SystemExit 1),
          emit (EvLog ERROR (ExpectedDirectory (parent p))) w)
    else if verify_file_permissions (fs w) p
    then (load p None ≫= resolve p) w
    else (Raise (SystemExit 1), emit (EvLog ERROR (InsecurePermissions p)) w).
Proof.
  intros Hfound. unfold read_config.
  rewrite (bind_ok _ _ _ _ _ (locate_found _ _ _ Hfound)).
  unfold mbind at 1, M_bind at 1. rewrite check_parent_run.
  destruct (_ && _); [done|].
  unfold mbind at 1, M_bind at 1. rewrite check_permissions_run.
  by destruct (verify_file_permissions _ _).
Qed.

End read_config_facts.

(** ** Reading a document *)

Lemma concat_readlines s : Text.concat (Text.readlines s) = s.
Proof.
  induction s as [|c s IH]; [done|]. simpl.
  case_bool_decide as Hc.
  - subst. simpl. by rewrite IH.
  - destruct (Text.readlines s) as [|l ls]; simpl in *.
    + by rewrite <-IH.
    + rewrite append_cons. by rewrite IH.
Qed.

Lemma options_push_space l es :
  omap entry_key (push_space l es) = omap entry_key es.
Proof. by destruct es as [|[]]. Qed.

Lemma options_push_comment l es :
  omap entry_key (push_comment l es) = omap entry_key es.
Proof. by destruct es as [|[]]. Qed.

Lemma well_formed_cons_section s cu :
  well_formed (BSection s :: cu)
  ↔ (name s ∉ sections cu) ∧ NoDup (options s) ∧ well_formed cu.
Proof.
  unfold well_formed. simpl. rewrite sections_cons_section.
  rewrite NoDup_cons, Forall_cons. tauto.
Qed.

Lemma well_formed_cons_other b cu :
  block_section b = None → well_formed (b :: cu) ↔ well_formed cu.
Proof.
  intros Hb. unfold well_formed, sections, sections_blocks. simpl.
  by rewrite Hb.
Qed.

Lemma well_formed_push b cu :
  block_section b = None → well_formed cu → well_formed (b :: cu).
Proof. intros Hb. by apply well_formed_cons_other. Qed.

Lemma well_formed_pop b cu :
  block_section b = None → well_formed (b :: cu) → well_formed cu.
Proof. intros Hb. by apply well_formed_cons_other. Qed.

Lemma read_line_well_formed st l st' :
  well_formed st.1 → read_line st l = Ok st' → well_formed st'.1.
Proof.
  destruct st as [rcu bad]. simpl. intros Hwf.
  destruct (classify l) as [| |n|k d v|].
  - intros [= <-]. simpl. destruct rcu as [|[s|ls|ls] r].
    + by apply well_formed_push.
    + apply well_formed_cons_section in Hwf as (? & ? & ?).
      apply well_formed_cons_section. split; [|split]; [done| |done].
      unfold options. simpl. by rewrite options_push_space.
    + by apply well_formed_push.
    + apply well_formed_push; [done|]. by apply well_formed_pop in Hwf.
  - intros [= <-]. simpl. destruct rcu as [|[s|ls|ls] r].
    + by apply well_formed_push.
    + apply well_formed_cons_section in Hwf as (? & ? & ?).
      apply well_formed_cons_section. split; [|split]; [done| |done].
      unfold options. simpl. by rewrite options_push_comment.
    + apply well_formed_push; [done|]. by apply well_formed_pop in Hwf.
    + by apply well_formed_push.
  - destruct (has_section n rcu) eqn:Hn; [done|]. intros [= <-]. simpl.
    apply well_formed_cons_section. split; [|split]; [| |done].
    + by apply bool_decide_eq_false in Hn.
    + apply NoDup_nil_2.
  - destruct rcu as [|[s|ls|ls] r]; try done.
    destruct (contains k s) eqn:Hk; [done|]. intros [= <-]. simpl.
    apply well_formed_cons_section in Hwf as (? & ? & ?).
    apply well_formed_cons_section. split; [|split]; [done| |done].
    unfold options. simpl. apply NoDup_cons. split; [|done].
    by apply bool_decide_eq_false in Hk.
  - destruct rcu as [|[s|ls|ls] r]; try done. by intros [= <-].
Qed.

Lemma read_lines_well_formed ls : ∀ st st',
  well_formed st.1 → foldR read_line ls st = Ok st' → well_formed st'.1.
Proof.
  induction ls as [|l ls IH]; intros st st' Hwf; simpl.
  - by intros [= <-].
  - unfold mbind, result_bind, rbind.
    destruct (read_line st l) as [st1|] eqn:H1; [|done].
    apply IH. by eapply read_line_well_formed.
Qed.

Lemma sections_blocks_finish rcu :
  sections_blocks (finish_block <$> rev rcu)
  = (λ s, with_structure s (rev (structure s))) <$> rev (sections_blocks rcu).
Proof.
  unfold sections_blocks. induction rcu as [|b rcu IH]; [done|].
  simpl. rewrite fmap_app, omap_app, IH. simpl.
  destruct b as [s| |]; simpl.
  - by rewrite fmap_app.
  - by rewrite app_nil_r.
  - by rewrite app_nil_r.
Qed.

Lemma options_finish s :
  options (with_structure s (rev (structure s))) = rev (options s).
Proof.
  unfold options. simpl. induction (structure s) as [|e es IH]; [done|].
  destruct e; simpl; rewrite omap_app, IH; simpl; by rewrite ?app_nil_r.
Qed.

Lemma NoDup_rev_2 {A} (l : list A) : NoDup l → NoDup (rev l).
Proof. intros H. by rewrite <-Permutation_rev. Qed.

Lemma finish_well_formed rcu :
  well_formed rcu → well_formed (finish_block <$> rev rcu).
Proof.
  intros [Hs Ho]. unfold well_formed, sections.
  rewrite sections_blocks_finish. split.
  - rewrite <-list_fmap_compose. simpl.
    change (λ s : Sect, name s) with name in *.
    replace (name ∘ _ <$> rev (sections_blocks rcu))
      with (rev (sections rcu)).
    + by apply NoDup_rev_2.
    + unfold sections. by rewrite List.map_rev.
  - apply Forall_fmap, List.Forall_rev. eapply Forall_impl; [exact Ho|].
    intros s Hnd. simpl. rewrite options_finish. by apply NoDup_rev_2.
Qed.

(** A document that was read has each section name once, and each key
    once in its section. *)
Lemma read_string_well_formed text cu :
  read_string text = Ok cu → well_formed cu.
Proof.
  unfold read_string. unfold mbind, result_bind, rbind.
  destruct (foldR read_line _ _) as [st|] eqn:Hst; [|done].
  destruct (st.2); [done|]. intros [= <-].
  apply finish_well_formed.
  eapply (read_lines_well_formed _ ([], None)); [|exact Hst].
  split; [apply NoDup_nil_2 | apply Forall_nil_2].
Qed.

Lemma well_formed_split pre s post :
  well_formed (pre ++ BSection s :: post) →
  (name s ∉ sections pre) ∧ (name s ∉ sections post) ∧ NoDup (options s).
Proof.
  intros [Hs Ho]. rewrite sections_app, sections_cons_section in Hs.
  apply NoDup_app in Hs as (_ & H1 & H2%NoDup_cons).
  split; [|split].
  - intros Hin. apply (H1 _ Hin). left.
  - tauto.
  - unfold sections_blocks in Ho. rewrite omap_app in Ho. simpl in Ho.
    apply Forall_app in Ho as [_ Ho]. by apply Forall_cons in Ho as [? _].
Qed.

Lemma rlines_cons b rcu :
  rlines (b :: rcu) = rlines rcu ++ block_lines (finish_block b).
Proof.
  unfold rlines. simpl. rewrite fmap_app, to_lines_app. simpl.
  by rewrite to_lines_cons, app_nil_r.
Qed.

Lemma sect_lines_snoc s es e :
  sect_lines (with_structure s (es ++ [e]))
  = sect_lines (with_structure s es) ++ entry_lines e.
Proof.
  unfold sect_lines. simpl. rewrite fmap_app, concat_app. simpl.
  by rewrite app_nil_r.
Qed.

Lemma push_space_lines s l :
  sect_lines (with_structure s (rev (push_space l (structure s))))
  = sect_lines (with_structure s (rev (structure s))) ++ [l].
Proof.
  destruct (structure s) as [|[o|ls|ls] es]; cbn [push_space rev];
    rewrite ?sect_lines_snoc; cbn [entry_lines];
    rewrite <-?app_assoc; done.
Qed.

Lemma push_comment_lines s l :
  sect_lines (with_structure s (rev (push_comment l (structure s))))
  = sect_lines (with_structure s (rev (structure s))) ++ [l].
Proof.
  destruct (structure s) as [|[o|ls|ls] es]; cbn [push_comment rev];
    rewrite ?sect_lines_snoc; cbn [entry_lines];
    rewrite <-?app_assoc; done.
Qed.

Lemma finish_lines s :
  block_lines (finish_block (BSection s))
  = sect_lines (with_structure s (rev (structure s))).
Proof. done. Qed.

Lemma finish_lines_with s es :
  block_lines (finish_block (BSection (with_structure s es)))
  = sect_lines (with_structure s (rev es)).
Proof. done. Qed.

Lemma read_line_lines rcu bad l rcu' :
  read_line (rcu, bad) l = Ok (rcu', None) →
  bad = None ∧ rlines rcu' = rlines rcu ++ [l].
Proof.
  unfold read_line. destruct (classify l) as [| |n|k d v|].
  - intros [= <- ->]. split; [done|].
    destruct rcu as [|[s|ls|ls] r]; rewrite ?rlines_cons; try done.
    + by rewrite finish_lines_with, finish_lines, push_space_lines, app_assoc.
    + simpl. by rewrite app_assoc.
  - intros [= <- ->]. split; [done|].
    destruct rcu as [|[s|ls|ls] r]; rewrite ?rlines_cons; try done.
    + by rewrite finish_lines_with, finish_lines, push_comment_lines, app_assoc.
    + simpl. by rewrite app_assoc.
  - destruct (has_section n rcu); [done|]. intros [= <- ->]. split; [done|].
    by rewrite rlines_cons.
  - destruct rcu as [|[s|ls|ls] r]; try done.
    destruct (contains k s); [done|]. intros [= <- ->]. split; [done|].
    rewrite !rlines_cons, finish_lines_with, finish_lines.
    cbn [rev]. rewrite sect_lines_snoc. by rewrite app_assoc.
  - destruct rcu as [|[s|ls|ls] r]; try done.
Qed.

Lemma read_lines_lines ls : ∀ rcu bad rcu',
  foldR read_line ls (rcu, bad) = Ok (rcu', None) →
  bad = None ∧ rlines rcu' = rlines rcu ++ ls.
Proof.
  induction ls as [|l ls IH]; intros rcu bad rcu'; cbn [foldR].
  - intros [= <- ->]. split; [done | by rewrite app_nil_r].
  - unfold mbind, result_bind, rbind.
    destruct (read_line (rcu, bad) l) as [[rcu1 bad1]|] eqn:H1; [|done].
    intros H2. destruct (IH _ _ _ H2) as [-> Hl].
    destruct (read_line_lines _ _ _ _ H1) as [-> Hl1].
    split; [done|]. by rewrite Hl, Hl1, <-app_assoc.
Qed.

(** Reading a text and writing the document out gives the text back. *)
Lemma read_string_to_string text cu :
  read_string text = Ok cu → to_string cu = text.
Proof.
  unfold read_string. unfold mbind, result_bind, rbind.
  destruct (foldR read_line _ _) as [[rcu bad]|] eqn:Hst; [|done].
  simpl. destruct bad; [done|]. intros [= <-].
  destruct (read_lines_lines _ _ _ _ Hst) as [_ Hl].
  unfold to_string. fold (rlines rcu). rewrite Hl. simpl.
  apply concat_readlines.
Qed.

(** ** What a computation leaves alone *)

Global Instance same_store_preorder : PreOrder same_store.
Proof.
  split; [done|]. unfold same_store. intros w1 w2 w3 [? ?] [? ?].
  split; congruence.
Qed.

Section keeps.
Context (R : relation world) `{!PreOrder R}.

Lemma keeps_ret {A} (a : A) : keeps R (mret a).
Proof. intros w. reflexivity. Qed.

Lemma keeps_lift {A} (r : result A) : keeps R (lift r).
Proof. intros w. reflexivity. Qed.

Lemma keeps_raise {A} e : keeps R (raise (A:=A) e).
Proof. intros w. reflexivity. Qed.

Lemma keeps_bind {A B} (m : M A) (f : A → M B) :
  keeps R m → (∀ a, keeps R (f a)) → keeps R (m ≫= f).
Proof.
  intros Hm Hf w. unfold mbind, M_bind. specialize (Hm w).
  destruct (m w) as [[a|e] w1]; simpl in *; [|done].
  etrans; [exact Hm | apply Hf].
Qed.

Lemma keeps_try {A} (body : M A) (handler : exn → M A) :
  keeps R body → (∀ e, keeps R (handler e)) → keeps R (try_except body handler).
Proof.
  intros Hb Hh w. unfold try_except. specialize (Hb w).
  destruct (body w) as [[a|e] w1]; simpl in *; [done|].
  destruct e; try (etrans; [exact Hb | apply Hh]). done.
Qed.

End keeps.

Lemma keeps_log_error m : keeps same_store (log.error m).
Proof. intros w. done. Qed.

Lemma keeps_check_parent p : keeps same_store (check_parent p).
Proof.
  intros w. rewrite check_parent_run. by destruct (_ && _).
Qed.

Lemma keeps_read_text p : keeps same_store (os.read_text p).
Proof.
  intros w. unfold os.read_text. by destruct (os.stat _ _) as [[]|].
Qed.

Lemma keeps_load p o : keeps same_store (load p o).
Proof.
  destruct o as [cu|]; simpl; [apply keeps_ret; apply _|].
  apply keeps_try; [apply _| |].
  - unfold read. apply keeps_bind; [apply _|apply keeps_read_text|].
    intros a. apply keeps_lift. apply _.
  - intros e. apply keeps_bind; [apply _|apply keeps_log_error|].
    intros _. apply keeps_raise. apply _.
Qed.

Lemma keeps_run_on_sandbox config : keeps same_store (run_on_sandbox config).
Proof.
  unfold run_on_sandbox.
  apply keeps_bind; [apply _|apply keeps_lift; apply _|]. intros x.
  apply keeps_bind; [apply _|apply keeps_lift; apply _|]. intros s.
  case_bool_decide; [apply keeps_ret; apply _|].
  apply keeps_bind; [apply _|apply keeps_lift; apply _|]. intros x'.
  apply keeps_bind; [apply _|apply keeps_lift; apply _|]. intros s'.
  case_bool_decide; [apply keeps_ret; apply _|].
  apply keeps_bind; [apply _|apply keeps_log_error|].
  intros _. apply keeps_ret. apply _.
Qed.

Lemma keeps_resolve p cu : keeps same_store (resolve p cu).
Proof.
  unfold resolve.
  repeat (apply keeps_bind;
          [apply _
          |first [apply keeps_lift; apply _ | apply keeps_run_on_sandbox]
          |intros ?]).
  apply keeps_ret. apply _.
Qed.

Section read_config_keeps.
Variable home : path.
Variable DEFAULT_CONFIG : string.
Variable verify_file_permissions : gmap path node → path → bool.

Lemma keeps_check_permissions p :
  keeps same_store (check_permissions verify_file_permissions p).
Proof.
  intros w. rewrite check_permissions_run. by destruct (verify_file_permissions _ _).
Qed.

(** What follows the search for the file keeps the file system and the
    store. *)
Lemma keeps_after_locate p o :
  keeps same_store
    (check_parent p;; check_permissions verify_file_permissions p;;
     config_updater ← load p o; resolve p config_updater).
Proof.
  apply keeps_bind; [apply _|apply keeps_check_parent|]. intros _.
  apply keeps_bind; [apply _|apply keeps_check_permissions|]. intros _.
  apply keeps_bind; [apply _|apply keeps_load|]. intros cu.
  apply keeps_resolve.
Qed.

Lemma read_config_after_locate given w st w1 :
  locate home DEFAULT_CONFIG given w = (Ok st, w1) →
  read_config home DEFAULT_CONFIG verify_file_permissions given w
  = (check_parent st.1.1;; check_permissions verify_file_permissions st.1.1;;
     config_updater ← load st.1.1 st.2; resolve st.1.1 config_updater) w1.
Proof.
  intros Hl. unfold read_config. rewrite (bind_ok _ _ _ _ _ Hl).
  by destruct st as [[p f] o].
Qed.

End read_config_keeps.

(** ** The fields of a configuration *)

Lemma set_field_get_other section key x config config' n :
  set_field section key x config = Ok config' →
  n ≠ section →
  Dict.get n config' = Dict.get n config.
Proof.
  unfold set_field.
  destruct (Dict.get section config) as [[y|its]|]; try done.
  intros [= <-] Hne. by rewrite get_set_ne.
Qed.

Lemma strip_quotes_inv section key config config' :
  strip_quotes section key config = Ok config' →
  ∃ s, get_field section key config = Ok (SStr s)
       ∧ set_field section key (SStr (Text.strip Text.quotes s)) config
         = Ok config'.
Proof.
  unfold strip_quotes, mbind, result_bind, rbind.
  destruct (get_field section key config) as [[s|b|p]|e]; try done.
  simpl. intros H. by exists s.
Qed.

Lemma strip_quotes_get_other section key config config' n :
  strip_quotes section key config = Ok config' →
  n ≠ section →
  Dict.get n config' = Dict.get n config.
Proof.
  intros (s & _ & Hset)%strip_quotes_inv. by eapply set_field_get_other.
Qed.

Lemma strip_quotes_get_field section key config config' section' key' :
  strip_quotes section key config = Ok config' →
  get_field section' key' config'
  = if bool_decide (section' = section ∧ key' = key)
    then x ← get_field section key config;
         s ← str_strip Text.quotes x; Ok (SStr s)
    else get_field section' key' config.
Proof.
  intros (s & Hg & Hset)%strip_quotes_inv.
  rewrite (get_field_set_field _ _ _ _ _ _ _ Hset). by rewrite Hg.
Qed.

Lemma run_on_sandbox_inv config w r w' :
  run_on_sandbox config w = (Ok r, w') →
  ∃ v, get_field "notifications" "use_sandbox" config = Ok (SStr v).
Proof.
  unfold run_on_sandbox. rewrite bind_lift.
  destruct (get_field _ _ _) as [[v|b|p]|e]; [by exists v|..]; try done.
  all: by rewrite bind_lift.
Qed.

Lemma is_text_intro config f s :
  get_field f.1 f.2 config = Ok (SStr s) → is_text config f = true.
Proof. unfold is_text. by intros ->. Qed.

Ltac back H F := rewrite H in F; simpl in F.

(** The fields of the configuration [resolve] returns, and what it
    takes for [resolve] to return. *)
Lemma resolve_ok_inv p cu w config w' :
  resolve p cu w = (Ok config, w') →
  complete (to_dict cu) = true
  ∧ is_text (to_dict cu) sandbox_field = true.
Proof.
  unfold resolve.
  set (config0 := Dict.set "config_file_path" (Scalar (SPath p)) (to_dict cu)).
  assert (Hc0 : ∀ section key, section ≠ "config_file_path" →
             get_field section key config0 = get_field section key (to_dict cu)).
  { intros. by apply get_field_set_key. }
  rewrite bind_lift.
  destruct (strip_quotes _ _ config0) as [c1|] eqn:Hs1; [|done].
  rewrite bind_lift.
  destruct (strip_quotes _ _ c1) as [c2|] eqn:Hs2; [|done].
  rewrite bind_lift.
  destruct (strip_quotes _ _ c2) as [c3|] eqn:Hs3; [|done].
  unfold mbind at 1, M_bind at 1.
  destruct (run_on_sandbox c3 w) as [[r|] w1] eqn:Hr; [|done].
  rewrite bind_lift.
  destruct (set_field _ _ _ c3) as [c4|] eqn:Hs4; [|done].
  rewrite bind_lift.
  destruct (strip_quotes _ _ c4) as [c5|] eqn:Hs5; [|done].
  rewrite bind_lift.
  destruct (strip_quotes _ _ c5) as [c6|] eqn:Hs6; [|done].
  rewrite bind_lift.
  destruct (strip_quotes _ _ c6) as [c7|] eqn:Hs7; [|done].
  intros _.
  pose proof (λ s k, strip_quotes_get_field _ _ _ _ s k Hs1) as Hc1.
  pose proof (λ s k, strip_quotes_get_field _ _ _ _ s k Hs2) as Hc2.
  pose proof (λ s k, strip_quotes_get_field _ _ _ _ s k Hs3) as Hc3.
  pose proof (λ s k, get_field_set_field _ _ _ _ _ s k Hs4) as Hc4.
  pose proof (λ s k, strip_quotes_get_field _ _ _ _ s k Hs5) as Hc5.
  pose proof (λ s k, strip_quotes_get_field _ _ _ _ s k Hs6) as Hc6.
  apply strip_quotes_inv in Hs1 as (x1 & F1 & _).
  apply strip_quotes_inv in Hs2 as (x2 & F2 & _).
  apply strip_quotes_inv in Hs3 as (x3 & F3 & _).
  apply run_on_sandbox_inv in Hr as (v & Fv).
  apply strip_quotes_inv in Hs5 as (x5 & F5 & _).
  apply strip_quotes_inv in Hs6 as (x6 & F6 & _).
  apply strip_quotes_inv in Hs7 as (x7 & F7 & _).
  rewrite Hc0 in F1 by done.
  back Hc1 F2. rewrite Hc0 in F2 by done.
  back Hc2 F3. back Hc1 F3. rewrite Hc0 in F3 by done.
  back Hc3 Fv. back Hc2 Fv. back Hc1 Fv. rewrite Hc0 in Fv by done.
  back Hc4 F5. back Hc3 F5. back Hc2 F5. back Hc1 F5. rewrite Hc0 in F5 by done.
  back Hc5 F6. back Hc4 F6. back Hc3 F6. back Hc2 F6. back Hc1 F6.
  rewrite Hc0 in F6 by done.
  back Hc6 F7. back Hc5 F7. back Hc4 F7. back Hc3 F7. back Hc2 F7. back Hc1 F7.
  rewrite Hc0 in F7 by done.
  split.
  - unfold complete, string_fields. cbn [forallb].
    rewrite (is_text_intro _ ("file_location", "data_dir") x1 F1).
    rewrite (is_text_intro _ ("file_location", "log_dir") x2 F2).
    rewrite (is_text_intro _ ("file_location", "apns_dir") x3 F3).
    rewrite (is_text_intro _ ("notifications", "dev_team_id") x5 F5).
    rewrite (is_text_intro _ ("notifications", "apns_encryption_key_id") x6 F6).
    by rewrite (is_text_intro _ ("notifications", "apns_encryption_key") x7 F7).
  - by apply (is_text_intro _ sandbox_field v).
Qed.

(** *** No exit from attribute access *)

Lemma no_exit_bind {A B} (r : result A) (f : A → result B) :
  no_exit r → (∀ a, no_exit (f a)) → no_exit (r ≫= f).
Proof.
  intros Hr Hf e. unfold mbind, result_bind, rbind.
  destruct r as [a|e']; [apply Hf|]. intros [= <-]. by apply Hr.
Qed.

Lemma no_exit_get_field section key config :
  no_exit (get_field section key config).
Proof.
  intros e. unfold get_field. repeat case_match; by intros [= <-].
Qed.

Lemma no_exit_set_field section key x config :
  no_exit (set_field section key x config).
Proof.
  intros e. unfold set_field. repeat case_match; by intros [= <-].
Qed.

Lemma no_exit_strip_quotes section key config :
  no_exit (strip_quotes section key config).
Proof.
  unfold strip_quotes.
  apply no_exit_bind; [apply no_exit_get_field|]. intros x.
  apply no_exit_bind; [by destruct x; intros e [= <-]|]. intros s.
  apply no_exit_set_field.
Qed.

Lemma never_exits_bind {A B} (m : M A) (f : A → M B) :
  never_exits m → (∀ a, never_exits (f a)) → never_exits (m ≫= f).
Proof.
  intros Hm Hf w e w'. unfold mbind, M_bind.
  destruct (m w) as [[a|e'] w1] eqn:Hmw.
  - apply Hf.
  - intros [= <- <-]. by eapply Hm.
Qed.

Lemma never_exits_lift {A} (r : result A) : no_exit r → never_exits (lift r).
Proof. intros Hr w e w' [= -> _]. by apply Hr. Qed.

Lemma never_exits_ret {A} (a : A) : never_exits (mret a).
Proof. by intros w e w'. Qed.

Lemma no_exit_str_lower x : no_exit (str_lower x).
Proof. by destruct x; intros e [= <-]. Qed.

Lemma never_exits_run_on_sandbox config : never_exits (run_on_sandbox config).
Proof.
  unfold run_on_sandbox.
  apply never_exits_bind; [apply never_exits_lift, no_exit_get_field|]. intros x.
  apply never_exits_bind; [apply never_exits_lift, no_exit_str_lower|]. intros s.
  case_bool_decide; [apply never_exits_ret|].
  apply never_exits_bind; [apply never_exits_lift, no_exit_get_field|]. intros x'.
  apply never_exits_bind; [apply never_exits_lift, no_exit_str_lower|]. intros s'.
  case_bool_decide; [apply never_exits_ret|].
  apply never_exits_bind; [by intros w e w'|]. intros _. apply never_exits_ret.
Qed.

Lemma never_exits_resolve p cu : never_exits (resolve p cu).
Proof.
  unfold resolve.
  repeat (apply never_exits_bind;
          [first [apply never_exits_lift;
                  first [apply no_exit_strip_quotes | apply no_exit_set_field]
                 |apply never_exits_run_on_sandbox]
          |intros ?]).
  apply never_exits_ret.
Qed.

(** What [resolve] returns, field by field. *)
Lemma resolve_ok_fields p cu w config w' :
  resolve p cu w = (Ok config, w') →
  Dict.get "config_file_path" config = Some (Scalar (SPath p))
  ∧ (∀ f s, f ∈ string_fields →
       get_field f.1 f.2 (to_dict cu) = Ok (SStr s) →
       get_field f.1 f.2 config = Ok (SStr (Text.strip Text.quotes s)))
  ∧ (∀ section key,
       section ≠ "config_file_path" →
       (section, key) ∉ string_fields →
       (section, key) ≠ sandbox_field →
       get_field section key config = get_field section key (to_dict cu)).
Proof.
  unfold resolve.
  set (config0 := Dict.set "config_file_path" (Scalar (SPath p)) (to_dict cu)).
  assert (Hc0 : ∀ section key, section ≠ "config_file_path" →
             get_field section key config0 = get_field section key (to_dict cu)).
  { intros. by apply get_field_set_key. }
  rewrite bind_lift.
  destruct (strip_quotes _ _ config0) as [c1|] eqn:Hs1; [|done].
  rewrite bind_lift.
  destruct (strip_quotes _ _ c1) as [c2|] eqn:Hs2; [|done].
  rewrite bind_lift.
  destruct (strip_quotes _ _ c2) as [c3|] eqn:Hs3; [|done].
  unfold mbind at 1, M_bind at 1.
  destruct (run_on_sandbox c3 w) as [[r|] w1] eqn:Hr; [|done].
  rewrite bind_lift.
  destruct (set_field _ _ _ c3) as [c4|] eqn:Hs4; [|done].
  rewrite bind_lift.
  destruct (strip_quotes _ _ c4) as [c5|] eqn:Hs5; [|done].
  rewrite bind_lift.
  destruct (strip_quotes _ _ c5) as [c6|] eqn:Hs6; [|done].
  rewrite bind_lift.
  destruct (strip_quotes _ _ c6) as [c7|] eqn:Hs7; [|done].
  intros [= <- _].
  pose proof (λ s k, strip_quotes_get_field _ _ _ _ s k Hs1) as Hc1.
  pose proof (λ s k, strip_quotes_get_field _ _ _ _ s k Hs2) as Hc2.
  pose proof (λ s k, strip_quotes_get_field _ _ _ _ s k Hs3) as Hc3.
  pose proof (λ s k, get_field_set_field _ _ _ _ _ s k Hs4) as Hc4.
  pose proof (λ s k, strip_quotes_get_field _ _ _ _ s k Hs5) as Hc5.
  pose proof (λ s k, strip_quotes_get_field _ _ _ _ s k Hs6) as Hc6.
  pose proof (λ s k, strip_quotes_get_field _ _ _ _ s k Hs7) as Hc7.
  split; [|split].
  - rewrite (strip_quotes_get_other _ _ _ _ _ Hs7) by done.
    rewrite (strip_quotes_get_other _ _ _ _ _ Hs6) by done.
    rewrite (strip_quotes_get_other _ _ _ _ _ Hs5) by done.
    rewrite (set_field_get_other _ _ _ _ _ _ Hs4) by done.
    rewrite (strip_quotes_get_other _ _ _ _ _ Hs3) by done.
    rewrite (strip_quotes_get_other _ _ _ _ _ Hs2) by done.
    rewrite (strip_quotes_get_other _ _ _ _ _ Hs1) by done.
    apply get_set_eq.
  - intros f s Hf Hg. unfold string_fields in Hf.
    rewrite !elem_of_cons, elem_of_nil in Hf.
    destruct Hf as [->|[->|[->|[->|[->|[->|[]]]]]]]; cbn [fst snd] in *.
    all: rewrite ?Hc7; simpl; rewrite ?Hc6; simpl; rewrite ?Hc5; simpl;
      rewrite ?Hc4; simpl; rewrite ?Hc3; simpl; rewrite ?Hc2; simpl;
      rewrite ?Hc1; simpl; rewrite ?Hc0 by done; by rewrite Hg.
  - intros section key Hsec Hnf Hns.
    assert (Hn : ∀ a b, (a, b) ∈ string_fields ∨ (a, b) = sandbox_field →
                        ¬ (section = a ∧ key = b)).
    { intros a b Hab [-> ->]. by destruct Hab. }
    rewrite Hc7, bool_decide_eq_false_2
      by (apply Hn; left; unfold string_fields; set_solver).
    rewrite Hc6, bool_decide_eq_false_2
      by (apply Hn; left; unfold string_fields; set_solver).
    rewrite Hc5, bool_decide_eq_false_2
      by (apply Hn; left; unfold string_fields; set_solver).
    rewrite Hc4, bool_decide_eq_false_2 by (apply Hn; by right).
    rewrite Hc3, bool_decide_eq_false_2
      by (apply Hn; left; unfold string_fields; set_solver).
    rewrite Hc2, bool_decide_eq_false_2
      by (apply Hn; left; unfold string_fields; set_solver).
    rewrite Hc1, bool_decide_eq_false_2
      by (apply Hn; left; unfold string_fields; set_solver).
    by apply Hc0.
Qed.

Lemma read_string_no_exit text : no_exit (read_string text).
Proof.
  assert (Hline : ∀ st l, no_exit (read_line st l)).
  { intros [rcu bad] l e. unfold read_line.
    repeat case_match; by intros [= <-]. }
  assert (Hfold : ∀ ls st, no_exit (foldR read_line ls st)).
  { induction ls as [|l ls IH]; intros st; simpl; [done|].
    apply no_exit_bind; [apply Hline | apply IH]. }
  unfold read_string. apply no_exit_bind; [apply Hfold|].
  intros st e. destruct st.2; [|done]. by intros [= <-].
Qed.

Lemma load_raise_run p w e w1 :
  read p w = (Raise e, w1) →
  exits e = false →
  load p None w
  = (Raise (SystemExit 1), emit (EvLog ERROR (CouldNotRead p e)) w1).
Proof.
  intros Hr He. unfold load, try_except. rewrite Hr. by destruct e.
Qed.

Lemma read_no_exit p : never_exits (read p).
Proof.
  unfold read. apply never_exits_bind.
  - intros w e w'. unfold os.read_text.
    destruct (os.stat _ _) as [[]|]; by intros [= <- _].
  - intros text. apply never_exits_lift, read_string_no_exit.
Qed.

(** ** Making directories *)

Lemma stat_lookup f p : p ≠ [] → os.stat f p = f !! p.
Proof. by destruct p. Qed.

Lemma parent_snoc (p : path) c : parent (p ++ [c]) = p.
Proof. unfold parent. apply removelast_last. Qed.

Lemma below_snoc base rest c :
  below base (rest ++ [c]) = below base rest ++ [base ++ rest ++ [c]].
Proof.
  unfold below. rewrite length_app. simpl.
  rewrite Nat.add_1_r, seq_S, fmap_app. simpl. f_equal.
  - apply list_fmap_ext. intros i k Hk. f_equal.
    apply lookup_seq in Hk as [-> Hi]. by rewrite take_app_le by lia.
  - do 2 f_equal. rewrite take_ge; [done|]. rewrite length_app. simpl. lia.
Qed.

Lemma below_nonempty base rest q : q ∈ below base rest → q ≠ [].
Proof.
  unfold below. intros (k & -> & Hk)%list_elem_of_fmap.
  apply elem_of_seq in Hk. destruct rest as [|c rest]; simpl in *; [lia|].
  destruct k; [lia|]. simpl. intros H. by apply app_eq_nil in H as [_ ?].
Qed.

Lemma below_length base rest q :
  q ∈ below base rest → (length base < length q ≤ length base + length rest)%nat.
Proof.
  unfold below. intros (k & -> & Hk)%list_elem_of_fmap.
  apply elem_of_seq in Hk. rewrite length_app, length_take. lia.
Qed.

Lemma with_dirs_snoc qs q f :
  with_dirs (qs ++ [q]) f = <[q := Dir]> (with_dirs qs f).
Proof. unfold with_dirs. by rewrite foldl_app. Qed.

Lemma with_dirs_lookup qs f q :
  with_dirs qs f !! q = if bool_decide (q ∈ qs) then Some Dir else f !! q.
Proof.
  induction qs as [|q' qs IH] using rev_ind.
  - rewrite bool_decide_eq_false_2 by apply not_elem_of_nil. done.
  - rewrite with_dirs_snoc. destruct (decide (q = q')) as [->|Hne].
    + rewrite lookup_insert_eq. rewrite bool_decide_eq_true_2; [done|].
      apply elem_of_app. right. left.
    + rewrite lookup_insert_ne by done. rewrite IH.
      apply (f_equal (λ b : bool, if b then Some Dir else f !! q)).
      apply bool_decide_ext. rewrite elem_of_app, list_elem_of_singleton. tauto.
Qed.

Lemma all_absent_stat f qs q :
  all_absent f qs = true → q ∈ qs → os.stat f q = None.
Proof.
  unfold all_absent. rewrite forallb_forall. intros H Hq.
  apply list_elem_of_In in Hq. specialize (H _ Hq).
  unfold os.present in H. by destruct (os.stat f q).
Qed.

Lemma all_absent_app f qs1 qs2 :
  all_absent f (qs1 ++ qs2) = all_absent f qs1 && all_absent f qs2.
Proof. apply forallb_app. Qed.

Lemma directory_present f p : os.directory f p = true → os.present f p = true.
Proof. unfold os.directory, os.present. by destruct (os.stat f p). Qed.

Lemma directory_stat f p : os.directory f p = true ↔ os.stat f p = Some Dir.
Proof.
  unfold os.directory. destruct (os.stat f p) as [[]|]; split; done.
Qed.

Lemma mkdir_ok p f :
  os.stat f p = None → os.stat f (parent p) = Some Dir →
  os.mkdir p f = Ok (<[p := Dir]> f).
Proof. intros H1 H2. unfold os.mkdir. by rewrite H1, H2. Qed.

(** [os.makedirs] makes every directory that is missing, from the
    top down. *)
Lemma makedirs_rev_creates base rest f :
  os.directory f base = true →
  rest ≠ [] →
  all_absent f (below base rest) = true →
  os.makedirs_rev (rev (base ++ rest)) f = Ok (with_dirs (below base rest) f).
Proof.
  intros Hbase. induction rest as [|c rest IH] using rev_ind; [done|].
  intros _ Habs. rewrite below_snoc in *.
  rewrite all_absent_app in Habs. apply andb_prop in Habs as [Habs Hc].
  rewrite app_assoc, rev_app_distr. simpl.
  rewrite rev_involutive.
  assert (Hnew : os.stat f ((base ++ rest) ++ [c]) = None).
  { apply (all_absent_stat f [base ++ rest ++ [c]]); [done|].
    rewrite <-app_assoc. left. }
  assert (Hq : (base ++ rest) ++ [c] ≠ []).
  { intros H. by apply app_eq_nil in H as [_ ?]. }
  destruct rest as [|d rest'] using rev_ind.
  - rewrite app_nil_r in *. rewrite (directory_present _ _ Hbase).
    unfold mbind, result_bind, rbind.
    rewrite mkdir_ok; [by rewrite with_dirs_snoc| done |].
    rewrite parent_snoc. by apply directory_stat.
  - clear IHrest'.
    assert (Hlast : base ++ rest' ++ [d] ∈ below base (rest' ++ [d])).
    { rewrite below_snoc. apply elem_of_app. right. left. }
    pose proof (all_absent_stat _ _ _ Habs Hlast) as Hst.
    unfold os.present at 1. rewrite Hst.
    rewrite IH; [|by intros [_ ?]%app_eq_nil|done].
    unfold mbind, result_bind, rbind.
    rewrite mkdir_ok.
    + by rewrite with_dirs_snoc.
    + rewrite stat_lookup by done. rewrite with_dirs_lookup.
      rewrite bool_decide_eq_false_2; [by rewrite <-stat_lookup|].
      intros Hin%below_length. rewrite !length_app in Hin. simpl in Hin. lia.
    + rewrite parent_snoc.
      rewrite stat_lookup by (by intros [_ [_ ?]%app_eq_nil]%app_eq_nil).
      rewrite with_dirs_lookup. by rewrite bool_decide_eq_true_2.
Qed.

Lemma mkdir_inv p f f' : os.mkdir p f = Ok f' → f' = <[p := Dir]> f.
Proof.
  unfold os.mkdir. destruct (os.stat f p); [done|].
  destruct (os.stat f (parent p)) as [[]|]; try done. by intros [= <-].
Qed.

(** [os.makedirs] changes nothing at a path longer than the one it is
    called for, and leaves a directory at that one. *)
Lemma makedirs_rev_longer rp : ∀ f f' q,
  os.makedirs_rev rp f = Ok f' → (length rp < length q)%nat →
  f' !! q = f !! q.
Proof.
  induction rp as [|c rp IH]; intros f f' q; simpl.
  - by unfold os.mkdir.
  - unfold mbind, result_bind, rbind.
    destruct (if os.present f (rev rp) then Ok f else _) as [f1|] eqn:H1; [|done].
    intros ->%mkdir_inv Hlen.
    rewrite lookup_insert_ne.
    2:{ intros <-. rewrite length_app, length_rev in Hlen. simpl in Hlen. lia. }
    destruct (os.present f (rev rp)); [by injection H1 as <-|].
    destruct (os.makedirs_rev rp f) as [f2|e] eqn:H2.
    + injection H1 as <-. apply (IH _ _ _ H2). lia.
    + destruct e; try done. by injection H1 as <-.
Qed.

Lemma makedirs_rev_dir rp f f' :
  os.makedirs_rev rp f = Ok f' → os.stat f' (rev rp) = Some Dir.
Proof.
  destruct rp as [|c rp]; simpl; [by unfold os.mkdir|].
  unfold mbind, result_bind, rbind.
  destruct (if os.present f (rev rp) then Ok f else _) as [f1|]; [|done].
  intros ->%mkdir_inv. rewrite stat_lookup.
  - apply lookup_insert_eq.
  - by intros [_ ?]%app_eq_nil.
Qed.

Lemma drop_all s n : (String.length s ≤ n)%nat → Text.drop n s = EmptyString.
Proof.
  revert n. induction s as [|c s IH]; intros n Hn; [by destruct n|].
  destruct n; simpl in *; [lia|]. apply IH. lia.
Qed.

Lemma parent_length (p : path) : p ≠ [] → length p = S (length (parent p)).
Proof.
  destruct p as [|c p] using rev_ind; [done|]. intros _.
  rewrite parent_snoc, length_app. simpl. lia.
Qed.

(** ** Opening and writing *)

Lemma open_raise_world p flags mode w e w' :
  os.open p flags mode w = (Raise e, w') → w' = w.
Proof.
  unfold os.open. repeat case_match; by intros [= _ <-].
Qed.


Lemma write_other p cu w q :
  q ≠ p → fs (write_config_updater p cu w).2 !! q = fs w !! q.
Proof.
  intros Hne. unfold write_config_updater, mbind, M_bind.
  destruct (os.open _ _ _ w) as [[h|e0] w1] eqn:Hopen.
  - unfold os.open in Hopen. unfold write, os.write, mbind, M_bind.
    destruct (os.stat (fs w) p) as [[c m|]|] eqn:Hst; [|done|].
    + injection Hopen as <- <-. simpl.
      assert (Hl : fs w !! p = Some (File c m)) by (by destruct p).
      rewrite Hl. simpl. by rewrite lookup_insert_ne.
    + simpl in Hopen.
      destruct (os.stat (fs w) (parent p)) as [[]|]; try done.
      injection Hopen as <- <-. simpl. rewrite lookup_insert_eq. simpl.
      by rewrite !lookup_insert_ne.
  - apply open_raise_world in Hopen as ->. done.
Qed.

Lemma write_heap p cu w : heap (write_config_updater p cu w).2 = heap w.
Proof.
  unfold write_config_updater, mbind, M_bind.
  destruct (os.open _ _ _ w) as [[h|e0] w1] eqn:Hopen.
  - unfold os.open in Hopen. unfold write, os.write, mbind, M_bind.
    repeat case_match; simplify_eq; done.
  - by apply open_raise_world in Hopen as ->.
Qed.

(** ** Running [bootstrap_config] *)

Section bootstrap_facts.

Variable home : path.
Variable DEFAULT_CONFIG : string.

Lemma bootstrap_dir_run p w :
  os.directory (fs w) (parent p) = true →
  bootstrap_config home DEFAULT_CONFIG (Some p) w
  = match read_string DEFAULT_CONFIG with
    | Ok cu =>
        match write_config_updater p cu w with
        | (Ok _, w') => (Ok cu, w')
        | (Raise e, w') => (Raise e, w')
        end
    | Raise e => (Raise e, w)
    end.
Proof.
  intros Hd. unfold bootstrap_config, os.is_dir. simpl.
  unfold mbind at 1, M_bind at 1. rewrite Hd. simpl.
  unfold mbind at 1, M_bind at 1. simpl. rewrite bind_lift.
  destruct (read_string DEFAULT_CONFIG) as [cu|e]; [|done].
  unfold mbind, M_bind. by destruct (write_config_updater p cu w) as [[[]|] ?].
Qed.

Lemma bootstrap_makedirs_run p w :
  os.directory (fs w) (parent p) = false →
  bootstrap_config home DEFAULT_CONFIG (Some p) w
  = match os.makedirs_rev (rev (parent p)) (fs w) with
    | Ok f =>
        let w1 := emit (EvMkdir (parent p)) (set_fs f w) in
        match read_string DEFAULT_CONFIG with
        | Ok cu =>
            match write_config_updater p cu w1 with
            | (Ok _, w') => (Ok cu, w')
            | (Raise e, w') => (Raise e, w')
            end
        | Raise e => (Raise e, w1)
        end
    | Raise e => (Raise e, w)
    end.
Proof.
  intros Hd. unfold bootstrap_config, os.is_dir. simpl.
  unfold mbind at 1, M_bind at 1. rewrite Hd. simpl.
  unfold mbind at 1, M_bind at 1. unfold os.makedirs.
  destruct (os.makedirs_rev _ _) as [f|e]; [|done].
  rewrite bind_lift.
  destruct (read_string DEFAULT_CONFIG) as [cu|e]; [|done].
  unfold mbind, M_bind. by destruct (write_config_updater p cu _) as [[[]|] ?].
Qed.

Lemma bootstrap_fresh_run base dirs file w cu :
  os.directory (fs w) base = true →
  all_absent (fs w) (below base (dirs ++ [file])) = true →
  read_string DEFAULT_CONFIG = Ok cu →
  bootstrap_config home DEFAULT_CONFIG (Some (base ++ dirs ++ [file])) w
  = (Ok cu,
     World (heap w)
       (<[base ++ dirs ++ [file] := File DEFAULT_CONFIG 384]>
          (with_dirs (below base dirs) (fs w)))
       (trace w ++ made base dirs ++ [EvOpenWrite (base ++ dirs ++ [file])])).
Proof.
  intros Hbase Habs Hcu.
  pose proof (read_string_to_string _ _ Hcu) as Htext.
  rewrite below_snoc, all_absent_app in Habs.
  apply andb_prop in Habs as [Hdirs Hfile].
  assert (Hp : os.stat (fs w) (base ++ dirs ++ [file]) = None).
  { apply (all_absent_stat _ _ _ Hfile). left. }
  assert (Hpar : parent (base ++ dirs ++ [file]) = base ++ dirs).
  { by rewrite app_assoc, parent_snoc. }
  destruct dirs as [|d dirs'] using rev_ind.
  - rewrite app_nil_r in Hpar. simpl in *.
    rewrite bootstrap_dir_run by (by rewrite Hpar). rewrite Hcu.
    rewrite write_fresh; [|done|rewrite Hpar; by apply directory_stat].
    by rewrite Htext.
  - clear IHdirs'.
    assert (Hin : base ++ dirs' ++ [d] ∈ below base (dirs' ++ [d])).
    { rewrite below_snoc. apply elem_of_app. right. left. }
    pose proof (all_absent_stat _ _ _ Hdirs Hin) as Hst.
    rewrite bootstrap_makedirs_run.
    2:{ rewrite Hpar. unfold os.directory. by rewrite Hst. }
    rewrite Hpar, makedirs_rev_creates; [|done|by intros [_ ?]%app_eq_nil|done].
    simpl. rewrite Hcu.
    assert (Hne : base ++ (dirs' ++ [d]) ++ [file] ≠ []).
    { by intros [_ [_ ?]%app_eq_nil]%app_eq_nil. }
    rewrite write_fresh; simpl.
    + rewrite Htext. unfold made. rewrite <-!app_assoc.
      by destruct (dirs' ++ [d]) eqn:E; [apply app_eq_nil in E as [_ ?]|].
    + rewrite stat_lookup by done. rewrite with_dirs_lookup.
      rewrite bool_decide_eq_false_2; [by rewrite <-stat_lookup|].
      intros Hl%below_length. rewrite !length_app in Hl. simpl in Hl. lia.
    + rewrite Hpar.
      rewrite stat_lookup by (by intros [_ [_ ?]%app_eq_nil]%app_eq_nil).
      rewrite with_dirs_lookup. by rewrite bool_decide_eq_true_2.
Qed.

Lemma bootstrap_existing_run p w old m cu :
  os.stat (fs w) p = Some (File old m) →
  os.directory (fs w) (parent p) = true →
  read_string DEFAULT_CONFIG = Ok cu →
  bootstrap_config home DEFAULT_CONFIG (Some p) w
  = (Ok cu,
     World (heap w)
       (<[p := File (DEFAULT_CONFIG
                       +:+ Text.drop (String.length DEFAULT_CONFIG) old) m]>
          (fs w))
       (trace w ++ [EvOpenWrite p])).
Proof.
  intros Hst Hd Hcu. rewrite bootstrap_dir_run by done. rewrite Hcu.
  assert (Hp : p ≠ []).
  { intros ->. done. }
  rewrite (write_existing _ _ _ _ _ Hst Hp).
  by rewrite (read_string_to_string _ _ Hcu).
Qed.

(** When [bootstrap_config] returns for a path that held nothing, the
    path holds the default text, in a directory. *)
Lemma bootstrap_ok_inv p w cu w1 :
  bootstrap_config home DEFAULT_CONFIG (Some p) w = (Ok cu, w1) →
  os.stat (fs w) p = None →
  read_string DEFAULT_CONFIG = Ok cu
  ∧ os.stat (fs w1) p = Some (File DEFAULT_CONFIG 384)
  ∧ os.stat (fs w1) (parent p) = Some Dir
  ∧ heap w1 = heap w.
Proof.
  intros Hrun Hst.
  assert (Hp : p ≠ []) by (by intros ->).
  assert (Hfresh : ∀ w0 cu0,
    os.stat (fs w0) p = None → os.stat (fs w0) (parent p) = Some Dir →
    read_string DEFAULT_CONFIG = Ok cu0 →
    match write_config_updater p cu0 w0 with
    | (Ok _, w') => (Ok cu0, w')
    | (Raise e, w') => (Raise e, w')
    end = (Ok cu, w1) →
    read_string DEFAULT_CONFIG = Ok cu
    ∧ os.stat (fs w1) p = Some (File DEFAULT_CONFIG 384)
    ∧ os.stat (fs w1) (parent p) = Some Dir
    ∧ heap w1 = heap w0).
  { intros w0 cu0 H0 Hpar Hcu0. rewrite write_fresh by done.
    intros [= <- <-]. simpl. split; [done|].
    rewrite (read_string_to_string _ _ Hcu0).
    split; [by rewrite stat_lookup, lookup_insert_eq|]. split; [|done].
    destruct (decide (parent p = [])) as [->|Hpp]; [done|].
    rewrite stat_lookup in * by done. rewrite lookup_insert_ne; [done|].
    intros Heq. apply (f_equal length) in Heq.
    rewrite (parent_length p) in Heq by done. lia. }
  destruct (os.directory (fs w) (parent p)) eqn:Hd.
  - rewrite bootstrap_dir_run in Hrun by done.
    destruct (read_string DEFAULT_CONFIG) as [cu0|] eqn:Hcu0; [|done].
    apply (Hfresh w cu0); [done|by apply directory_stat|done|done].
  - rewrite bootstrap_makedirs_run in Hrun by done.
    destruct (os.makedirs_rev _ _) as [f|] eqn:Hmk; [|done].
    destruct (read_string DEFAULT_CONFIG) as [cu0|] eqn:Hcu0; [|done].
    simpl in Hrun.
    apply (Hfresh _ cu0) in Hrun; [done| | |done]; simpl.
    + rewrite stat_lookup in * by done.
      rewrite (makedirs_rev_longer _ _ _ _ Hmk); [done|].
      rewrite length_rev, (parent_length p) by done. lia.
    + apply makedirs_rev_dir in Hmk. by rewrite rev_involutive in Hmk.
Qed.

End bootstrap_facts.

(** ** Computations that only log *)

Lemma logs_only_lift {A} (r : result A) : logs_only (lift r) r [].
Proof. intros [h f t]. unfold lift. simpl. by rewrite app_nil_r. Qed.

Lemma logs_only_ret {A} (a : A) : logs_only (mret a) (Ok a) [].
Proof. apply (logs_only_lift (Ok a)). Qed.

Lemma logs_only_bind_ok {A B} (m : M A) (f : A → M B) a evs r evs' :
  logs_only m (Ok a) evs → logs_only (f a) r evs' →
  logs_only (m ≫= f) r (evs ++ evs').
Proof.
  intros Hm Hf w. unfold mbind, M_bind. rewrite Hm, Hf. simpl.
  by rewrite app_assoc.
Qed.

Lemma logs_only_bind_raise {A B} (m : M A) (f : A → M B) e evs :
  logs_only m (Raise e) evs → logs_only (m ≫= f) (Raise e) evs.
Proof. intros Hm w. unfold mbind, M_bind. by rewrite Hm. Qed.

Lemma logs_only_bind {A B} (m : M A) (f : A → M B) r evs :
  logs_only m r evs →
  (∀ a, ∃ r' evs', logs_only (f a) r' evs') →
  ∃ r' evs', logs_only (m ≫= f) r' evs'.
Proof.
  intros Hm Hf. destruct r as [a|e].
  - destruct (Hf a) as (r' & evs' & Hfa).
    exists r', (evs ++ evs'). by eapply logs_only_bind_ok.
  - exists (Raise e), evs. by apply logs_only_bind_raise.
Qed.

Lemma logs_only_lift_bind {A B} (r : result A) (f : A → M B) :
  (∀ a, ∃ r' evs', logs_only (f a) r' evs') →
  ∃ r' evs', logs_only (lift r ≫= f) r' evs'.
Proof. intros Hf. eapply logs_only_bind; [apply logs_only_lift | exact Hf]. Qed.

Lemma logs_only_run_on_sandbox config :
  ∃ r evs, logs_only (run_on_sandbox config) r evs.
Proof.
  unfold run_on_sandbox.
  apply logs_only_lift_bind. intros x.
  apply logs_only_lift_bind. intros s.
  case_bool_decide; [by eexists _, _; apply logs_only_ret|].
  apply logs_only_lift_bind. intros x'.
  apply logs_only_lift_bind. intros s'.
  case_bool_decide; [by eexists _, _; apply logs_only_ret|].
  eapply (logs_only_bind _ _ (Ok tt) [EvLog ERROR InvalidBool]); [by intros w|].
  intros _. eexists _, _. apply logs_only_ret.
Qed.

(** [resolve] computes the configuration from the path and the
    document alone. *)
Lemma logs_only_resolve p cu : ∃ r evs, logs_only (resolve p cu) r evs.
Proof.
  unfold resolve.
  do 3 (apply logs_only_lift_bind; intros ?).
  destruct (logs_only_run_on_sandbox a1) as (r & evs & Hr).
  eapply logs_only_bind; [exact Hr|]. intros b.
  do 4 (apply logs_only_lift_bind; intros ?).
  eexists _, _. apply logs_only_ret.
Qed.

Section locate_facts.

Variable home : path.
Variable DEFAULT_CONFIG : string.
Variable verify_file_permissions : gmap path node → path → bool.

Lemma locate_missing given w :
  List.find (os.present (fs w)) (config_path_locations home given) = None →
  locate home DEFAULT_CONFIG given w
  = match bootstrap_config home DEFAULT_CONFIG (Some (user_config home))
            (emit (EvLog INFO
                     (NoConfigFileFound
                        (parent (List.last (config_path_locations home given) []))))
               w) with
    | (Ok cu, w') => (Ok (user_config home, false, Some cu), w')
    | (Raise e, w') => (Raise e, w')
    end.
Proof.
  intros Hnone. unfold locate.
  unfold mbind at 1, M_bind at 1. rewrite first_existing_run, Hnone.
  unfold mbind at 1, M_bind at 1. unfold log.info.
  unfold mbind, M_bind. by destruct (bootstrap_config _ _ _ _) as [[cu|e] w'].
Qed.

Lemma read_config_missing given w :
  List.find (os.present (fs w)) (config_path_locations home given) = None →
  read_config home DEFAULT_CONFIG verify_file_permissions given w
  = match bootstrap_config home DEFAULT_CONFIG (Some (user_config home))
            (emit (EvLog INFO
                     (NoConfigFileFound
                        (parent (List.last (config_path_locations home given) []))))
               w) with
    | (Ok cu, w') =>
        (check_parent (user_config home);;
         check_permissions verify_file_permissions (user_config home);;
         resolve (user_config home) cu) w'
    | (Raise e, w') => (Raise e, w')
    end.
Proof.
  intros Hnone. unfold read_config.
  unfold mbind at 1, M_bind at 1. rewrite (locate_missing _ _ Hnone).
  by destruct (bootstrap_config _ _ _ _) as [[cu|e] w'].
Qed.

End locate_facts.

(** ** Entries and their values *)

Lemma get_app {V} k (d1 d2 : Dict.t V) :
  Dict.get k (d1 ++ d2)
  = match Dict.get k d1 with Some v => Some v | None => Dict.get k d2 end.
Proof.
  induction d1 as [|[k' v'] d1 IH]; simpl; [done|]. by case_bool_decide.
Qed.

Lemma sect_to_dict_entries s : sect_to_dict s = entries_dict (structure s).
Proof. done. Qed.

Lemma entries_dict_app es1 es2 :
  entries_dict (es1 ++ es2) = entries_dict es1 ++ entries_dict es2.
Proof. unfold entries_dict, sect_to_dict. simpl. apply omap_app. Qed.

Lemma entries_dict_cons o es :
  entries_dict (EOpt o :: es) = (key o, val o) :: entries_dict es.
Proof. done. Qed.

Lemma entries_dict_keys es : Dict.keys (entries_dict es) = omap entry_key es.
Proof.
  unfold Dict.keys, entries_dict, sect_to_dict. simpl.
  induction es as [|[o| |] es IH]; simpl; [done| |done|done]. by f_equal.
Qed.

Lemma sect_to_dict_keys s : Dict.keys (sect_to_dict s) = options s.
Proof. apply entries_dict_keys. Qed.

Lemma entries_get_None k es :
  k ∉ omap entry_key es → Dict.get k (entries_dict es) = None.
Proof. intros H. apply get_None. by rewrite entries_dict_keys. Qed.

Lemma entries_split k es :
  k ∈ omap entry_key es →
  ∃ es1 o es2,
    es = es1 ++ EOpt o :: es2 ∧ key o = k ∧ k ∉ omap entry_key es1.
Proof.
  induction es as [|e es IH]; simpl; [by intros ?%elem_of_nil|].
  destruct e as [o|ls|ls]; simpl.
  - destruct (decide (key o = k)) as [Heq|Hne].
    + intros _. exists [], o, es. split; [done|]. split; [done|].
      apply not_elem_of_nil.
    + intros [?|Hin]%elem_of_cons; [congruence|].
      destruct (IH Hin) as (es1 & o' & es2 & -> & Hk & Hn).
      exists (EOpt o :: es1), o', es2. split; [done|]. split; [done|].
      simpl. apply not_elem_of_cons. split; [congruence | done].
  - intros Hin. destruct (IH Hin) as (es1 & o' & es2 & -> & Hk & Hn).
    by exists (EComment ls :: es1), o', es2.
  - intros Hin. destruct (IH Hin) as (es1 & o' & es2 & -> & Hk & Hn).
    by exists (ESpace ls :: es1), o', es2.
Qed.

(** ** One item of the overlay, in a section that has a last key *)

Lemma update_option_spec s lo k v :
  lo ∈ options s →
  ∃ s' lo',
    update_option (s, lo) (k, v) = Ok (s', lo')
    ∧ lo' ∈ options s'
    ∧ name s' = name s
    ∧ options s `sublist_of` options s'
    ∧ Dict.get k (sect_to_dict s') = Some v
    ∧ ∀ k', k' ≠ k →
        Dict.get k' (sect_to_dict s') = Dict.get k' (sect_to_dict s).
Proof.
  intros Hlo. destruct (decide (k ∈ options s)) as [Hk|Hk].
  - destruct (entries_split k _ Hk) as (es1 & o & es2 & Hs & <- & Hn).
    rewrite (update_option_existing s lo es1 o es2 v Hs Hn).
    eexists _, _. split; [done|].
    assert (Ho : options (mkSect (name s) (header s)
                            (es1 ++ EOpt (with_value v o) :: es2))
                 = options s).
    { unfold options. simpl. by rewrite Hs, !omap_app. }
    rewrite Ho. split; [done|]. split; [done|]. split; [reflexivity|].
    rewrite !sect_to_dict_entries, Hs. simpl.
    rewrite !entries_dict_app, !entries_dict_cons, !get_app.
    rewrite (entries_get_None _ _ Hn). simpl.
    split; [by rewrite bool_decide_eq_true_2|].
    intros k' Hne. rewrite !get_app. simpl.
    destruct (Dict.get k' (entries_dict es1)); [done|].
    by rewrite !bool_decide_eq_false_2 by congruence.
  - destruct (entries_split lo _ Hlo) as (es1 & o & es2 & Hs & <- & Hn).
    rewrite (update_option_new s es1 o es2 k v Hs Hn Hk).
    eexists _, _. split; [done|].
    assert (Ho : options s = omap entry_key es1 ++ key o :: omap entry_key es2).
    { unfold options. by rewrite Hs, omap_app. }
    assert (Ho' : options (mkSect (name s) (header s)
                             ((es1 ++ [EOpt o]) ++ new_option (k, v) :: es2))
                  = (omap entry_key es1 ++ [key o]) ++ k :: omap entry_key es2).
    { unfold options. simpl. by rewrite !omap_app. }
    rewrite Ho'. split; [set_solver|]. split; [done|]. split.
    { rewrite Ho, <-app_assoc. simpl. apply sublist_app; [done|].
      apply sublist_skip. by apply sublist_cons. }
    rewrite !sect_to_dict_entries, Hs. simpl.
    rewrite <-app_assoc. simpl.
    rewrite !entries_dict_app, !entries_dict_cons, !get_app.
    unfold new_option. rewrite entries_dict_cons. simpl.
    rewrite Ho in Hk. apply not_elem_of_app in Hk as [Hk1 Hk2].
    apply not_elem_of_cons in Hk2 as [Hk2 Hk3].
    split.
    + rewrite (entries_get_None _ _ Hk1).
      rewrite bool_decide_eq_false_2 by congruence.
      by rewrite bool_decide_eq_true_2.
    + intros k' Hne. rewrite !get_app. simpl.
      destruct (Dict.get k' (entries_dict es1)); [done|].
      case_bool_decide; [done|]. by rewrite bool_decide_eq_false_2 by congruence.
Qed.

(** ** All items of the overlay for one section *)

Lemma update_options_spec its : ∀ s lo,
  lo ∈ options s →
  ∃ s' lo',
    foldR update_option its (s, lo) = Ok (s', lo')
    ∧ lo' ∈ options s'
    ∧ name s' = name s
    ∧ options s `sublist_of` options s'
    ∧ (NoDup its.*1 →
       ∀ k v, (k, v) ∈ its → Dict.get k (sect_to_dict s') = Some v)
    ∧ ∀ k', k' ∉ its.*1 →
        Dict.get k' (sect_to_dict s') = Dict.get k' (sect_to_dict s).
Proof.
  induction its as [|[k v] its IH]; intros s lo Hlo.
  - exists s, lo. repeat split; try done. intros _ k v Hin.
    by apply elem_of_nil in Hin.
  - destruct (update_option_spec s lo k v Hlo)
      as (s1 & lo1 & Hrun & Hlo1 & Hname & Hsub & Hget & Hother).
    destruct (IH s1 lo1 Hlo1)
      as (s' & lo' & Hrun' & Hlo' & Hname' & Hsub' & Hget' & Hother').
    exists s', lo'. cbn [foldR]. rewrite Hrun.
    unfold mbind, result_bind, rbind. split; [done|]. split; [done|].
    split; [congruence|]. split; [by etrans|]. split.
    + intros Hnd k0 v0 Hin. rewrite fmap_cons in Hnd.
      apply NoDup_cons in Hnd as [Hk Hnd].
      apply elem_of_cons in Hin as [[= -> ->]|Hin].
      * rewrite Hother' by done. done.
      * by apply Hget'.
    + intros k' Hk'. rewrite fmap_cons in Hk'.
      apply not_elem_of_cons in Hk' as [Hne Hk'].
      rewrite Hother' by done. by apply Hother.
Qed.

(** ** Replacing a section *)

Lemma get_section_set_same n t cu :
  has_section n cu = true → name t = n →
  get_section n (set_section n t cu) = Ok t.
Proof.
  intros Hn Ht. destruct (has_section_get _ _ Hn) as (s & Hs).
  pose proof (get_section_name _ _ _ Hs) as Hname.
  apply get_section_split in Hs as (pre & post & -> & Hpre).
  rewrite <-Hname in *. rewrite set_section_at by done.
  rewrite <-Ht in *. by apply get_section_at.
Qed.

Lemma sections_set_section n t cu :
  has_section n cu = true → name t = n →
  sections (set_section n t cu) = sections cu.
Proof.
  intros Hn Ht. destruct (has_section_get _ _ Hn) as (s & Hs).
  pose proof (get_section_name _ _ _ Hs) as Hname.
  apply get_section_split in Hs as (pre & post & -> & Hpre).
  rewrite <-Hname in *. rewrite set_section_at by done.
  rewrite !sections_app, !sections_cons_section. congruence.
Qed.

Lemma get_section_absent n cu :
  n ∉ sections cu → get_section n cu = Raise (KeyError n).
Proof.
  intros Hn. destruct (get_section n cu) as [s|e] eqn:Hs.
  - by apply get_section_elem in Hs.
  - unfold get_section in Hs. by destruct (List.find _ _); simplify_eq.
Qed.

Lemma last_item_ok {A} (l : list A) :
  l ≠ [] → ∃ x, last_item l = Ok x ∧ x ∈ l.
Proof.
  destruct l as [|y l _] using rev_ind; [done|]. intros _.
  exists y. rewrite last_item_snoc. split; [done|]. set_solver.
Qed.

Lemma last_item_inv {A} (l : list A) x : last_item l = Ok x → l ≠ [].
Proof. by destruct l. Qed.

(** ** One section of the overlay *)

Lemma merge_step_sections b b' st k st' :
  merge_step b b' st k = Ok st' → sections st'.1 = sections st.1.
Proof.
  unfold merge_step. destruct (has_section k st.1) eqn:Hk.
  - unfold mbind, result_bind, rbind.
    destruct (get_section k st.1) as [s|] eqn:Hs; [|done].
    destruct (last_item _); [|done].
    destruct (items_of _ _); [|done].
    destruct (foldR update_option _ _) as [r|] eqn:Hr; [|done].
    intros [= <-]. simpl. apply sections_set_section; [done|].
    apply update_options_name in Hr. simpl in Hr.
    rewrite Hr. by eapply get_section_name.
  - unfold mbind, result_bind, rbind.
    destruct (items_of _ _); [|done].
    destruct (new_section _ _); [|done].
    by intros [= <-].
Qed.

Lemma merge_steps_sections b b' keys : ∀ st st',
  foldR (merge_step b b') keys st = Ok st' → sections st'.1 = sections st.1.
Proof.
  induction keys as [|k keys IH]; intros st st'; simpl.
  - by intros [= ->].
  - unfold mbind, result_bind, rbind.
    destruct (merge_step b b' st k) as [st1|] eqn:H1; [|done].
    intros H2. rewrite (IH _ _ H2). by eapply merge_step_sections.
Qed.

(** The step for a section the document has. *)
Lemma merge_step_existing b b' st n s its :
  get_section n st.1 = Ok s →
  options s ≠ [] →
  Dict.get n b = Some (Mapping its) →
  ∃ s',
    merge_step b b' st n = Ok (set_section n s' st.1, st.2)
    ∧ name s' = n
    ∧ options s `sublist_of` options s'
    ∧ (NoDup its.*1 →
       ∀ k v, (k, v) ∈ its → Dict.get k (sect_to_dict s') = Some v)
    ∧ ∀ k', k' ∉ its.*1 →
        Dict.get k' (sect_to_dict s') = Dict.get k' (sect_to_dict s).
Proof.
  intros Hs Ho Hb. destruct (last_item_ok _ Ho) as (lo & Hlast & Hlo).
  destruct (update_options_spec its s lo Hlo)
    as (s' & lo' & Hrun & _ & Hname & Hsub & Hget & Hother).
  exists s'. unfold merge_step.
  rewrite has_section_true by (by eapply get_section_elem).
  rewrite Hs. unfold mbind, result_bind, rbind. rewrite Hlast, Hb. simpl.
  rewrite Hrun. split; [done|]. split; [|done].
  rewrite Hname. by eapply get_section_name.
Qed.

(** What a successful step tells about the entry of the overlay. *)
Lemma merge_step_ok_inv b b' st n st' :
  merge_step b b' st n = Ok st' →
  (∃ s its, get_section n st.1 = Ok s ∧ options s ≠ []
            ∧ Dict.get n b = Some (Mapping its))
  ∨ (∃ s its, (n ∉ sections st.1) ∧ Dict.get n b' = Some (Mapping its)
              ∧ new_section n its = Ok s ∧ st' = (st.1, st.2 ++ [s])).
Proof.
  unfold merge_step. destruct (has_section n st.1) eqn:Hn.
  - unfold mbind, result_bind, rbind.
    destruct (get_section n st.1) as [s|] eqn:Hs; [|done].
    destruct (last_item _) as [lo|] eqn:Hlo; [|done].
    destruct (Dict.get n b) as [[x|its]|] eqn:Hb; try done.
    intros _. left. exists s, its. split; [done|]. split; [|done].
    by eapply last_item_inv.
  - unfold mbind, result_bind, rbind.
    destruct (Dict.get n b') as [[x|its]|] eqn:Hb; try done. simpl.
    destruct (new_section n its) as [s|] eqn:Hs; [|done].
    intros [= <-]. right. exists s, its. split; [|done].
    by apply bool_decide_eq_false in Hn.
Qed.

(** ** The loop over the overlay, as a whole *)

Lemma mergeable_existing doc n v s :
  mergeable doc (n, v) = true → get_section n doc = Ok s →
  ∃ its, v = Mapping its ∧ options s ≠ [].
Proof.
  unfold mergeable. simpl. destruct v as [x|its]; [done|].
  intros Hm Hs. rewrite Hs in Hm. exists its. split; [done|].
  apply negb_true_iff, bool_decide_eq_false in Hm. done.
Qed.

Lemma mergeable_new doc n v :
  mergeable doc (n, v) = true → n ∉ sections doc →
  ∃ its s, v = Mapping its ∧ new_section n its = Ok s.
Proof.
  unfold mergeable. simpl. destruct v as [x|its]; [done|].
  intros Hm Hn. rewrite get_section_absent in Hm by done.
  destruct (new_section n its) as [s|] eqn:Hs; [|done]. by exists its, s.
Qed.

Lemma new_section_name n its s : new_section n its = Ok s → name s = n.
Proof.
  unfold new_section, mbind, result_bind, rbind.
  destruct (read_string _); [|done]. apply get_section_name.
Qed.

(** With every entry mergeable, the loop of lines 55 to 72 runs
    through: the sections stay, and the new ones are staged in the
    order of the overlay. *)
Lemma merge_steps_total b b' doc ks : ∀ st,
  NoDup ks →
  sections st.1 = sections doc →
  (∀ n, n ∈ ks → get_section n st.1 = get_section n doc) →
  (∀ n, n ∈ ks → ∃ v, Dict.get n b = Some v ∧ Dict.get n b' = Some v
                      ∧ mergeable doc (n, v) = true) →
  ∃ st',
    foldR (merge_step b b') ks st = Ok st'
    ∧ sections st'.1 = sections doc
    ∧ name <$> st'.2
      = (name <$> st.2) ++ filter (λ n, n ∉ sections doc) ks.
Proof.
  induction ks as [|n ks IH]; intros st Hnd Hsec Hget Hm.
  - exists st. split; [done|]. split; [done|]. by rewrite app_nil_r.
  - apply NoDup_cons in Hnd as [Hn Hnd].
    destruct (Hm n) as (v & Hb & Hb' & Hv); [left|].
    assert (Hstep : ∃ st1,
      merge_step b b' st n = Ok st1
      ∧ sections st1.1 = sections doc
      ∧ (∀ n', n' ∈ ks → get_section n' st1.1 = get_section n' doc)
      ∧ name <$> st1.2
        = (name <$> st.2) ++ filter (λ n, n ∉ sections doc) [n]).
    { destruct (decide (n ∈ sections doc)) as [Hin|Hin].
      - assert (Hhas : has_section n st.1 = true).
        { apply has_section_true. by rewrite Hsec. }
        destruct (has_section_get _ _ Hhas) as (s & Hs).
        assert (Hs' : get_section n doc = Ok s).
        { rewrite <-Hget; [done|left]. }
        destruct (mergeable_existing _ _ _ _ Hv Hs') as (its & -> & Ho).
        destruct (merge_step_existing b b' st n s its Hs Ho Hb)
          as (s' & Hrun & Hname & _).
        eexists. split; [exact Hrun|]. simpl. split; [|split].
        + by rewrite sections_set_section.
        + intros n' Hn'. rewrite get_section_set_other; [|done|done|].
          * apply Hget. by right.
          * intros ->. done.
        + rewrite filter_cons_False by (by intros ?). by rewrite app_nil_r.
      - destruct (mergeable_new _ _ _ Hv Hin) as (its & s & -> & Hs).
        exists (st.1, st.2 ++ [s]). split; [|split; [|split]]; simpl.
        + unfold merge_step. rewrite has_section_false by (by rewrite Hsec).
          rewrite Hb'. simpl. unfold mbind, result_bind, rbind. by rewrite Hs.
        + done.
        + intros n' Hn'. apply Hget. by right.
        + rewrite filter_cons_True by done. rewrite fmap_app. simpl.
          by rewrite (new_section_name _ _ _ Hs). }
    destruct Hstep as (st1 & Hrun & Hsec1 & Hget1 & Hnames1).
    destruct (IH st1 Hnd Hsec1 Hget1) as (st' & Hrun' & Hsec' & Hnames').
    { intros n' Hn'. apply Hm. by right. }
    exists st'. cbn [foldR]. rewrite Hrun.
    unfold mbind, result_bind, rbind. split; [done|]. split; [done|].
    rewrite Hnames', Hnames1, <-app_assoc. f_equal.
    by rewrite <-filter_app.
Qed.

Lemma sections_last_split pre n post :
  NoDup (sections pre ++ n :: sections post) →
  last (sections pre ++ n :: sections post) = Some n →
  sections post = [].
Proof.
  destruct (sections post) as [|m l _] using rev_ind; [done|].
  intros Hnd Hlast. exfalso.
  change (sections pre ++ n :: l ++ [m])
    with (sections pre ++ (n :: l) ++ [m]) in Hlast.
  rewrite app_assoc, last_snoc in Hlast. injection Hlast as ->.
  apply NoDup_app in Hnd as (_ & _ & Hnd).
  apply NoDup_cons in Hnd as [Hn _]. apply Hn. set_solver.
Qed.

(** Lines 73 to 78 on a document with distinct section names. *)
Lemma append_sections_total cu news :
  NoDup (sections cu) →
  NoDup (name <$> news) →
  Forall (λ s, name s ∉ sections cu) news →
  (news ≠ [] → sections cu ≠ []) →
  ∃ cu', append_sections cu news = Ok cu'
         ∧ sections cu' = sections cu ++ (name <$> news).
Proof.
  intros Hnd Hnews Hfresh Hne. destruct news as [|t news'].
  { exists cu. simpl. by rewrite app_nil_r. }
  set (news := t :: news') in *.
  destruct (last_item_ok (sections cu)) as (n0 & Hlast & Hin); [by apply Hne|].
  destruct (has_section_get n0 cu (has_section_true _ _ Hin)) as (a & Ha).
  pose proof (get_section_name _ _ _ Ha) as Hname.
  apply get_section_split in Ha as (pre & post & -> & Hpre).
  assert (Hpost : sections post = []).
  { rewrite sections_app, sections_cons_section, Hname in Hnd, Hlast.
    apply (sections_last_split pre n0 post Hnd).
    unfold last_item in Hlast. by destruct (last _); simplify_eq. }
  exists (pre ++ BSection a :: chain news ++ post). split.
  - unfold news at 1. rewrite append_sections_cons. fold news.
    rewrite Hlast. unfold mbind, result_bind, rbind.
    rewrite <-Hname in *. rewrite get_section_at by done.
    by rewrite append_sections_fold.
  - rewrite !sections_app, !sections_cons_section, sections_app.
    rewrite sections_chain, Hpost, !app_nil_r.
    by rewrite <-app_assoc.
Qed.

Lemma staged_fresh (doc : ConfigUpdater) ks :
  Forall (λ n, n ∉ sections doc) (filter (λ n, n ∉ sections doc) ks).
Proof.
  apply Forall_forall. by intros n [? _]%list_elem_of_filter.
Qed.

Lemma overlay_entries (b : Box) doc :
  NoDup (Dict.keys b) →
  forallb (mergeable doc) (Dict.remove "config_file_path" b) = true →
  ∀ n, n ∈ Dict.keys (Dict.remove "config_file_path" b) →
    ∃ v, Dict.get n b = Some v
         ∧ Dict.get n (Dict.remove "config_file_path" b) = Some v
         ∧ mergeable doc (n, v) = true.
Proof.
  intros Hnd Hm n Hn.
  assert (Hne : n ≠ "config_file_path").
  { rewrite keys_remove in Hn. by apply list_elem_of_filter in Hn as [? _]. }
  apply list_elem_of_fmap in Hn as ([n' v] & -> & Hin). simpl in *.
  assert (Hget : Dict.get n' (Dict.remove "config_file_path" b) = Some v).
  { apply get_NoDup; [by apply keys_remove_NoDup | done]. }
  exists v. split; [|split; [done|]].
  - by rewrite <-(get_remove_ne "config_file_path").
  - rewrite forallb_forall in Hm. apply Hm. by apply list_elem_of_In.
Qed.

(** The merge returns for an overlay whose entries are mergeable,
    when the document has a section to put new ones behind. *)
Lemma merge_total (b : Box) doc :
  NoDup (Dict.keys b) →
  NoDup (sections doc) →
  forallb (mergeable doc) (Dict.remove "config_file_path" b) = true →
  (sections doc = [] → Dict.remove "config_file_path" b = []) →
  ∃ doc',
    merge b (Dict.remove "config_file_path" b) doc = Ok doc'
    ∧ sections doc'
      = sections doc
        ++ filter (λ n, n ∉ sections doc)
             (Dict.keys (Dict.remove "config_file_path" b)).
Proof.
  intros Hnd Hwf Hm Hempty.
  pose proof (overlay_entries b doc Hnd Hm) as Hent.
  set (b' := Dict.remove "config_file_path" b) in *.
  assert (Hnd' : NoDup (Dict.keys b')) by (by apply keys_remove_NoDup).
  destruct (merge_steps_total b b' doc (Dict.keys b') (doc, []))
    as (st' & Hrun & Hsec & Hnames); try done.
  simpl in Hnames.
  destruct (append_sections_total st'.1 st'.2) as (doc' & Happ & Hsec').
  - by rewrite Hsec.
  - rewrite Hnames. by apply NoDup_filter.
  - apply (Forall_fmap name (λ n, n ∉ sections st'.1)).
    rewrite Hnames, Hsec. apply staged_fresh.
  - intros Hnews. rewrite Hsec. intros Hnil. apply Hempty in Hnil.
    apply Hnews. apply fmap_nil_inv with (f := name).
    rewrite Hnames. unfold Dict.keys. by rewrite Hnil.
  - exists doc'. unfold merge. rewrite Hrun.
    unfold mbind, result_bind, rbind. split; [done|].
    by rewrite Hsec', Hsec, Hnames.
Qed.

(** On a document without sections every entry of the overlay is a
    new section, and line 74 finds no last section. *)
Lemma merge_empty_document (b : Box) doc :
  NoDup (Dict.keys b) →
  forallb (mergeable doc) (Dict.remove "config_file_path" b) = true →
  sections doc = [] →
  Dict.remove "config_file_path" b ≠ [] →
  merge b (Dict.remove "config_file_path" b) doc = Raise IndexError.
Proof.
  intros Hnd Hm Hnil Hne.
  pose proof (overlay_entries b doc Hnd Hm) as Hent.
  set (b' := Dict.remove "config_file_path" b) in *.
  assert (Hnd' : NoDup (Dict.keys b')) by (by apply keys_remove_NoDup).
  destruct (merge_steps_total b b' doc (Dict.keys b') (doc, []))
    as (st' & Hrun & Hsec & Hnames); try done.
  simpl in Hnames. unfold merge. rewrite Hrun.
  unfold mbind, result_bind, rbind.
  destruct st'.2 as [|t to_add] eqn:Hadd.
  - exfalso. symmetry in Hnames. simpl in Hnames. rewrite Hnil in Hnames.
    destruct b' as [|[n v] rest]; [done|]. unfold Dict.keys in Hnames.
    rewrite fmap_cons in Hnames.
    by rewrite filter_cons_True in Hnames by apply not_elem_of_nil.
  - rewrite append_sections_cons, Hsec, Hnil. done.
Qed.



Lemma to_dict_get n cu :
  Dict.get n (to_dict cu)
  = match get_section n cu with
    | Ok s => Some (Mapping (sect_to_dict s))
    | Raise _ => None
    end.
Proof.
  unfold to_dict, get_section.
  induction (sections_blocks cu) as [|s l IH]; simpl; [done|].
  case_bool_decide; [done|]. apply IH.
Qed.

Lemma get_field_to_dict n k cu s :
  get_section n cu = Ok s →
  get_field n k (to_dict cu)
  = match Dict.get k (sect_to_dict s) with
    | Some x => Ok x
    | None => Raise (KeyError k)
    end.
Proof. intros Hs. unfold get_field. by rewrite to_dict_get, Hs. Qed.

(** A section of the document after a merge that returned. *)
Lemma merge_section_result (b : Box) doc doc' n s :
  NoDup (Dict.keys b) →
  merge b (Dict.remove "config_file_path" b) doc = Ok doc' →
  get_section n doc = Ok s →
  ∃ s',
    get_section n doc' = Ok s'
    ∧ options s `sublist_of` options s'
    ∧ (∀ its, n ≠ "config_file_path" →
         Dict.get n b = Some (Mapping its) → NoDup its.*1 →
         ∀ k v, (k, v) ∈ its → Dict.get k (sect_to_dict s') = Some v)
    ∧ (∀ k, assigned b n k = None →
         Dict.get k (sect_to_dict s') = Dict.get k (sect_to_dict s)).
Proof.
  intros Hnd Hmerge Hs.
  destruct (decide (n ∈ Dict.keys (Dict.remove "config_file_path" b)))
    as [Hin|Hin].
  - assert (Hne : n ≠ "config_file_path").
    { rewrite keys_remove in Hin.
      by apply list_elem_of_filter in Hin as [? _]. }
    assert (Hget : ∃ v, Dict.get n b = Some v).
    { apply not_eq_None_Some. rewrite <-(get_remove_ne "config_file_path") by done.
      by rewrite get_None; intros ?. }
    destruct Hget as (v & Hget).
    destruct (overlay_split b n v Hnd Hne Hget) as (l1 & l2 & Hk & Hl1 & Hl2).
    destruct (merge_inv _ _ _ _ _ _ _ Hk Hmerge)
      as (st1 & st2 & st3 & H1 & H2 & H3 & H4).
    pose proof (merge_steps_frame _ _ n _ _ _ Hl1 H1) as Hf1. simpl in Hf1.
    rewrite Hs in Hf1.
    destruct (merge_step_ok_inv _ _ _ _ _ H2)
      as [(s0 & its & Hs0 & Ho & Hb)|(s0 & its & Hn & _)].
    2:{ exfalso. apply Hn. by eapply get_section_elem. }
    rewrite Hf1 in Hs0. injection Hs0 as <-.
    destruct (merge_step_existing b (Dict.remove "config_file_path" b) st1 n s
                its Hf1 Ho Hb)
      as (s' & Hrun & Hname & Hsub & Hval & Hother).
    rewrite Hrun in H2. injection H2 as <-.
    pose proof (merge_steps_frame _ _ n _ _ _ Hl2 H3) as Hf3. simpl in Hf3.
    rewrite get_section_set_same in Hf3;
      [|by apply has_section_true; eapply get_section_elem|done].
    exists s'. split; [by eapply append_sections_frame|].
    split; [done|]. split.
    + intros its' _ Hits. rewrite Hb in Hits. injection Hits as <-. apply Hval.
    + intros k Hk'. apply Hother. unfold assigned in Hk'. rewrite Hb in Hk'.
      by apply get_None.
  - assert (Hf : get_section n doc' = Ok s).
    { unfold merge in Hmerge. unfold mbind, result_bind, rbind in Hmerge.
      destruct (foldR _ _ _) as [st|] eqn:Hst; [|done].
      eapply append_sections_frame; [|exact Hmerge].
      by rewrite (merge_steps_frame _ _ n _ _ _ Hin Hst). }
    exists s. split; [done|]. split; [reflexivity|]. split; [|done].
    intros its Hne Hb. exfalso. apply Hin. rewrite keys_remove.
    apply list_elem_of_filter. split; [done|].
    apply dec_stable. rewrite <-get_None. congruence.
Qed.

(** ** A configuration that is merged back *)

Section dict_set_keys.
Context {V : Type}.
Implicit Types (d : Dict.t V) (k : string).

Lemma keys_set_present k v d :
  k ∈ Dict.keys d → Dict.keys (Dict.set k v d) = Dict.keys d.
Proof.
  induction d as [|[k' v'] d IH]; simpl; [by intros ?%elem_of_nil|].
  case_bool_decide as Hk; simpl; [by subst|].
  intros [?|Hin]%elem_of_cons; [congruence|]. f_equal. by apply IH.
Qed.

Lemma keys_set_absent k v d :
  k ∉ Dict.keys d → Dict.keys (Dict.set k v d) = Dict.keys d ++ [k].
Proof.
  induction d as [|[k' v'] d IH]; simpl; [done|].
  intros [Hne Hin]%not_elem_of_cons.
  rewrite bool_decide_eq_false_2 by congruence. simpl. f_equal. by apply IH.
Qed.

Lemma keys_set_NoDup k v d :
  NoDup (Dict.keys d) → NoDup (Dict.keys (Dict.set k v d)).
Proof.
  intros Hnd. destruct (decide (k ∈ Dict.keys d)) as [Hin|Hin].
  - by rewrite keys_set_present.
  - rewrite keys_set_absent by done. apply NoDup_app. split; [done|].
    split; [|apply NoDup_singleton].
    intros x Hx ->%list_elem_of_singleton. done.
Qed.

Lemma get_set k k' v d :
  Dict.get k' (Dict.set k v d)
  = if bool_decide (k = k') then Some v else Dict.get k' d.
Proof.
  case_bool_decide as Hk; [subst; apply get_set_eq | by apply get_set_ne].
Qed.
End dict_set_keys.

Lemma get_is_Some_keys {V} k (d : Dict.t V) v :
  Dict.get k d = Some v → k ∈ Dict.keys d.
Proof.
  intros Hg. apply dec_stable. rewrite <-get_None. congruence.
Qed.

Lemma set_field_keys section key x config config' :
  set_field section key x config = Ok config' →
  Dict.keys config' = Dict.keys config.
Proof.
  unfold set_field.
  destruct (Dict.get section config) as [[y|its]|] eqn:Hs; try done.
  intros [= <-]. apply keys_set_present. by eapply get_is_Some_keys.
Qed.

Lemma set_field_tidy section key x config config' :
  set_field section key x config = Ok config' → tidy config → tidy config'.
Proof.
  intros Hset [Hnd Hval]. split.
  - by rewrite (set_field_keys _ _ _ _ _ Hset).
  - unfold set_field in Hset.
    destruct (Dict.get section config) as [[y|its]|] eqn:Hs; try done.
    injection Hset as <-. intros n v. rewrite get_set.
    case_bool_decide as Hn; [|apply Hval].
    intros [= <-]. subst n.
    destruct (Hval _ _ Hs) as [->|(its' & [= <-] & Hits)]; [by left|].
    right. eexists. split; [done|]. by apply keys_set_NoDup.
Qed.

Lemma strip_quotes_keys section key config config' :
  strip_quotes section key config = Ok config' →
  Dict.keys config' = Dict.keys config.
Proof.
  intros (s & _ & Hset)%strip_quotes_inv. by eapply set_field_keys.
Qed.

Lemma strip_quotes_tidy section key config config' :
  strip_quotes section key config = Ok config' → tidy config → tidy config'.
Proof.
  intros (s & _ & Hset)%strip_quotes_inv. by eapply set_field_tidy.
Qed.

Lemma to_dict_keys cu : Dict.keys (to_dict cu) = sections cu.
Proof.
  unfold Dict.keys, to_dict, sections. rewrite <-list_fmap_compose.
  by apply list_fmap_ext.
Qed.

Lemma to_dict_tidy cu : well_formed cu → tidy (to_dict cu).
Proof.
  intros [Hnd Hopts]. split; [by rewrite to_dict_keys|].
  intros n v. rewrite to_dict_get.
  destruct (get_section n cu) as [s|] eqn:Hs; [|done].
  intros [= <-]. right. eexists. split; [done|].
  fold (Dict.keys (sect_to_dict s)). rewrite sect_to_dict_keys.
  rewrite Forall_forall in Hopts. apply Hopts.
  apply get_section_split in Hs as (pre & post & -> & _).
  unfold sections_blocks. rewrite omap_app. simpl. set_solver.
Qed.

(** The configuration [resolve] returns has the sections of the
    document as its keys, and the reserved key. *)
Lemma resolve_ok_tidy p cu w config w' :
  well_formed cu →
  resolve p cu w = (Ok config, w') →
  tidy config
  ∧ Dict.keys config
    = Dict.keys (Dict.set "config_file_path" (Scalar (SPath p)) (to_dict cu)).
Proof.
  intros Hwf. unfold resolve.
  set (config0 := Dict.set "config_file_path" (Scalar (SPath p)) (to_dict cu)).
  assert (H0 : tidy config0).
  { destruct (to_dict_tidy cu Hwf) as [Hnd Hval]. split.
    - by apply keys_set_NoDup.
    - intros n v. unfold config0. rewrite get_set.
      case_bool_decide; [by left | apply Hval]. }
  rewrite bind_lift.
  destruct (strip_quotes _ _ config0) as [c1|] eqn:Hs1; [|done].
  rewrite bind_lift.
  destruct (strip_quotes _ _ c1) as [c2|] eqn:Hs2; [|done].
  rewrite bind_lift.
  destruct (strip_quotes _ _ c2) as [c3|] eqn:Hs3; [|done].
  unfold mbind at 1, M_bind at 1.
  destruct (run_on_sandbox c3 w) as [[r|] w1] eqn:Hr; [|done].
  rewrite bind_lift.
  destruct (set_field _ _ _ c3) as [c4|] eqn:Hs4; [|done].
  rewrite bind_lift.
  destruct (strip_quotes _ _ c4) as [c5|] eqn:Hs5; [|done].
  rewrite bind_lift.
  destruct (strip_quotes _ _ c5) as [c6|] eqn:Hs6; [|done].
  rewrite bind_lift.
  destruct (strip_quotes _ _ c6) as [c7|] eqn:Hs7; [|done].
  intros [= <- _]. split.
  - eapply strip_quotes_tidy; [exact Hs7|].
    eapply strip_quotes_tidy; [exact Hs6|].
    eapply strip_quotes_tidy; [exact Hs5|].
    eapply set_field_tidy; [exact Hs4|].
    eapply strip_quotes_tidy; [exact Hs3|].
    eapply strip_quotes_tidy; [exact Hs2|].
    by eapply strip_quotes_tidy; [exact Hs1|].
  - rewrite (strip_quotes_keys _ _ _ _ Hs7), (strip_quotes_keys _ _ _ _ Hs6).
    rewrite (strip_quotes_keys _ _ _ _ Hs5), (set_field_keys _ _ _ _ _ Hs4).
    rewrite (strip_quotes_keys _ _ _ _ Hs3), (strip_quotes_keys _ _ _ _ Hs2).
    by rewrite (strip_quotes_keys _ _ _ _ Hs1).
Qed.

(** The entries of a tidy configuration whose keys are sections of the
    document, each with a key, are mergeable. *)
Lemma tidy_mergeable (config : Box) cu :
  tidy config →
  (∀ n, n ∈ Dict.keys config → n ≠ "config_file_path" → n ∈ sections cu) →
  Forall (λ s, options s ≠ []) (sections_blocks cu) →
  forallb (mergeable cu) (Dict.remove "config_file_path" config) = true.
Proof.
  intros [Hnd Hval] Hkeys Hopts. apply forallb_forall.
  intros [n v] Hin%list_elem_of_In.
  assert (Hn : n ∈ Dict.keys (Dict.remove "config_file_path" config)).
  { by apply (list_elem_of_fmap_2 fst _ (n, v)). }
  rewrite keys_remove in Hn. apply list_elem_of_filter in Hn as [Hne Hn].
  assert (Hget : Dict.get n config = Some v).
  { rewrite <-(get_remove_ne "config_file_path") by done.
    apply get_NoDup; [by apply keys_remove_NoDup | done]. }
  destruct (Hval _ _ Hget) as [?|(its & -> & _)]; [done|].
  destruct (has_section_get n cu) as (s & Hs).
  { apply has_section_true. by apply Hkeys. }
  unfold mergeable. simpl. rewrite Hs.
  apply negb_true_iff, bool_decide_eq_false.
  rewrite Forall_forall in Hopts. apply Hopts.
  apply get_section_split in Hs as (pre & post & -> & _).
  unfold sections_blocks. rewrite omap_app. simpl. set_solver.
Qed.

Lemma filter_all_in (l ks : list string) :
  (∀ n, n ∈ ks → n ∈ l) → filter (λ n, n ∉ l) ks = [].
Proof.
  intros H. induction ks as [|k ks IH]; [done|].
  rewrite filter_cons_False by (intros Hk; apply Hk, H; left).
  apply IH. intros n Hn. apply H. by right.
Qed.

(** ** Exits *)

Lemma mkdir_no_exit p f : no_exit (os.mkdir p f).
Proof.
  intros e. unfold os.mkdir. repeat case_match; by intros [= <-].
Qed.

Lemma makedirs_rev_no_exit rp : ∀ f, no_exit (os.makedirs_rev rp f).
Proof.
  induction rp as [|c rp IH]; intros f; simpl; [apply mkdir_no_exit|].
  apply no_exit_bind; [|intros f'; apply mkdir_no_exit].
  intros e. destruct (os.present f (rev rp)); [done|].
  destruct (os.makedirs_rev rp f) as [f'|e'] eqn:Hmk; [done|].
  pose proof (IH f e' Hmk) as He'.
  destruct e'; try done; by intros [= <-].
Qed.

Lemma never_exits_write p cu : never_exits (write_config_updater p cu).
Proof.
  intros w e w' Hrun.
  unfold write_config_updater, os.open, write, os.write, mbind, M_bind in Hrun.
  repeat case_match; simplify_eq; done.
Qed.

Section exits.

Variable home : path.
Variable DEFAULT_CONFIG : string.
Variable verify_file_permissions : gmap path node → path → bool.

Lemma never_exits_bootstrap p :
  never_exits (bootstrap_config home DEFAULT_CONFIG (Some p)).
Proof.
  intros w e w'. destruct (os.directory (fs w) (parent p)) eqn:Hd.
  - rewrite bootstrap_dir_run by done.
    destruct (read_string DEFAULT_CONFIG) as [cu|e0] eqn:Hcu.
    + destruct (write_config_updater p cu w) as [[[]|e1] w1] eqn:Hw; [done|].
      intros [= <- <-]. by eapply never_exits_write.
    + intros [= <- <-]. by eapply read_string_no_exit.
  - rewrite bootstrap_makedirs_run by done.
    destruct (os.makedirs_rev _ _) as [f|e0] eqn:Hmk.
    + simpl. destruct (read_string DEFAULT_CONFIG) as [cu|e1] eqn:Hcu.
      * destruct (write_config_updater p cu _) as [[[]|e2] w1] eqn:Hw; [done|].
        intros [= <- <-]. by eapply never_exits_write.
      * intros [= <- <-]. by eapply read_string_no_exit.
    + intros [= <- <-]. by eapply makedirs_rev_no_exit.
Qed.

(** The exits of the two checks and of what follows them. *)
Lemma exit_after_locate p o w c w' :
  (check_parent p;; check_permissions verify_file_permissions p;;
   config_updater ← load p o; resolve p config_updater) w
  = (Raise (SystemExit c), w') →
  c = 1 ∧ ∃ msg w0, w' = emit (EvLog ERROR msg) w0.
Proof.
  unfold mbind at 1, M_bind at 1. rewrite check_parent_run.
  destruct (_ && _); [intros [= <- <-]; eauto|].
  unfold mbind at 1, M_bind at 1. rewrite check_permissions_run.
  destruct (verify_file_permissions _ _); [|intros [= <- <-]; eauto].
  unfold mbind, M_bind.
  destruct (load p o w) as [[cu|e] w1] eqn:Hload.
  - intros Hres. by apply never_exits_resolve in Hres.
  - intros [= -> ->]. destruct o as [cu|]; [done|].
    unfold load, try_except in Hload.
    destruct (read p w) as [[cu|e] w2] eqn:Hread; [done|].
    pose proof (read_no_exit _ _ _ _ Hread) as He.
    destruct e; try done; injection Hload as <- <-; eauto.
Qed.

End exits.

(** ** The examples of the specification, run

    The testable properties of the specification on the sample data,
    each by running the embedding. *)

Example round_trip :
  (cu ← read_string ex_text; Ok (to_string cu)) = Ok ex_text.
Proof. reflexivity. Qed.

Example update_in_place_text :
  merged_text overlay_update ex_fs
  = Ok (unlines ["# prices"; "[a]"; "k1 : 2"; "k2 = 2"; EmptyString;
                 "[b]"; "y: 2"]).
Proof. vm_compute. reflexivity. Qed.

Example append_ordering_text :
  merged_text [the_path; ("a", Mapping [("k3", SStr "x"); ("k4", SStr "y")])]
    ex_fs
  = Ok (unlines ["# prices"; "[a]"; "k1: 1"; "k2 = 2"; "k3 = x"; "k4 = y";
                 EmptyString; "[b]"; "y: 2"]).
Proof. vm_compute. reflexivity. Qed.

Example new_section_text :
  merged_text [the_path; ("c", Mapping [("k", SStr "v")])] ex_fs
  = Ok (unlines ["# prices"; "[a]"; "k1: 1"; "k2 = 2"; EmptyString;
                 "[b]"; "y: 2"; EmptyString; "[c]"] +:+ "k: v").
Proof. vm_compute. reflexivity. Qed.

Example missing_path_metadata :
  merged_text overlay_no_path ex_fs = Raise AttributeError.
Proof. vm_compute. reflexivity. Qed.

Example boolean_coercion_upper_case :
  sandbox_of "TRUE" = (Ok (SBool true), [EvOpenRead ex_path]).
Proof. vm_compute. reflexivity. Qed.

Example boolean_coercion_other :
  sandbox_of "maybe"
  = (Ok (SBool false), [EvOpenRead ex_path; EvLog ERROR InvalidBool]).
Proof. vm_compute. reflexivity. Qed.

Example bootstrap_creation :
  let w := (read_config ex_home (config_text "True") owner_only None
              (World [] fs_home [])).2 in
  fs w !! user_config ex_home = Some (File (config_text "True") 384)
  ∧ os.directory (fs w) (parent (user_config ex_home)) = true
  ∧ trace w = [EvLog INFO (NoConfigFileFound (parent (user_config ex_home)));
               EvMkdir (parent (user_config ex_home));
               EvOpenWrite (user_config ex_home)].
Proof. vm_compute. done. Qed.

(** * The claims *)

(** ** The merge: [config_updater_factory] *)

(** C1.  An overlay without the reserved key [config_file_path] makes
    the merge fail with the error of line 49 (Python's [AttributeError],
    the configuration error of the specification) before the document is
    touched: the file system and the trace of file operations are as
    before, so no file was opened and no document built, and every object
    of the store is as it was (the store only gained the copy of line
    45). *)
Theorem C1_missing_path_fails_first (config : loc) (b : Box) (w : world) :
  heap w !! config = Some b →
  Dict.contains "config_file_path" b = false →
  ∃ w', config_updater_factory config w = (Raise AttributeError, w')
        ∧ fs w' = fs w
        ∧ trace w' = trace w
        ∧ take (length (heap w)) (heap w') = heap w.
Proof.
  intros Hb Hc. rewrite (factory_run config b w Hb). unfold factory_outcome.
  rewrite contains_get in Hc. apply bool_decide_eq_false in Hc.
  destruct (Dict.get "config_file_path" b) as [v|]; [by destruct Hc|].
  eexists. split; [done|]. simpl. by rewrite take_app_length.
Qed.

Lemma C1_witness :
  ∃ w', config_updater_factory 0%nat (World [overlay_no_path] ex_fs [])
        = (Raise AttributeError, w')
        ∧ fs w' = ex_fs ∧ trace w' = [] ∧ take 1 (heap w') = [overlay_no_path].
Proof.
  apply (C1_missing_path_fails_first 0%nat overlay_no_path
           (World [overlay_no_path] ex_fs [])); reflexivity.
Defined.

(** C2.  When the document has a section [s] whose last key is [o], and
    the overlay assigns that section the keys [its], all new to it, the
    merge puts them right behind [o], each behind the one before it:
    the section then lists its former keys in their order followed by
    the new ones in the overlay's order, and what stood behind the last
    key (comments, blank lines) stays behind the new keys.  This is what
    the section holds whenever the merge returns, whatever else the
    overlay names; and the merge does return, changing nothing but this
    section, when the overlay names no other section. *)
Theorem C2_new_keys_follow_last_key
    (config : loc) (b : Box) (w : world) (v0 : value) (p : path)
    (text : string) (m : Z) (pre post : ConfigUpdater) (s : Sect)
    (es1 es2 : list Entry) (o : Opt) (its : list (string * scalar)) :
  heap w !! config = Some b →
  NoDup (Dict.keys b) →
  Dict.get "config_file_path" b = Some v0 →
  Path v0 = Ok p →
  os.stat (fs w) p = Some (File text m) →
  read_string text = Ok (pre ++ BSection s :: post) →
  structure s = es1 ++ EOpt o :: es2 →
  omap entry_key es2 = [] →
  Dict.get (name s) b = Some (Mapping its) →
  NoDup its.*1 →
  Forall (λ k, k ∉ options s) its.*1 →
  let s' := mkSect (name s) (header s)
              (es1 ++ EOpt o :: (new_option <$> its) ++ es2) in
  options s' = options s ++ its.*1
  ∧ (∀ doc',
       (config_updater_factory config w).1 = Ok (p, doc') →
       get_section (name s) doc' = Ok s')
  ∧ (Dict.remove "config_file_path" b = [(name s, Mapping its)] →
     (config_updater_factory config w).1
     = Ok (p, pre ++ BSection s' :: post)).
Proof.
  intros Hb Hnd Hv0 Hp Hst Hdoc Hs He Hits Hnd' Hfresh s'.
  destruct (well_formed_split _ _ _ (read_string_well_formed _ _ Hdoc))
    as (Hpre & _ & Hopts).
  assert (Hne : name s ≠ "config_file_path").
  { intros Heq. rewrite Heq, Hv0 in Hits. injection Hits as ->. done. }
  assert (Hg : get_section (name s) (pre ++ BSection s :: post) = Ok s)
    by (by apply get_section_at).
  split; [|split].
  - unfold options, s'. simpl. destruct (last_option_at s es1 o es2 Hs He) as [Ho _].
    unfold options in Ho. rewrite Ho. rewrite omap_app. simpl.
    rewrite omap_app, He, app_nil_r. rewrite <-app_assoc. simpl. do 2 f_equal.
    clear. induction its as [|[k v] its IH]; simpl; [done|]. by f_equal.
  - intros doc' Hrun.
    destruct (config_updater_factory config w) as [r w'] eqn:Hrun'.
    simpl in Hrun. subst r.
    destruct (factory_ok_inv _ _ _ _ _ _ Hb Hrun')
      as (v & text' & m' & doc & Hv & Hp' & Hst' & Hdoc' & Hm & _).
    rewrite Hv0 in Hv. injection Hv as <-.
    rewrite Hst in Hst'. injection Hst' as <- <-.
    rewrite Hdoc in Hdoc'. injection Hdoc' as <-.
    by eapply (merge_new_keys b _ _ doc' s es1 o es2 its).
  - intros Hmin.
    rewrite (factory_ok_intro config b w v0 p text m (pre ++ BSection s :: post)
               (pre ++ BSection s' :: post));
      try done.
    rewrite Hmin. unfold merge. simpl.
    unfold mbind at 2, result_bind, rbind.
    rewrite (merge_step_new_keys b _ _ [] s es1 o es2 its) by done.
    unfold mbind, result_bind, rbind. simpl. by rewrite set_section_at.
Qed.

Lemma C2_witness :
  ∃ doc',
    (config_updater_factory 0%nat (World [overlay_keys] ex_fs [])).1
    = Ok (ex_path, doc')
    ∧ get_section "a" doc'
      = Ok (mkSect "a" (line_of "[a]")
              [EOpt ex_k1; EOpt ex_k2;
               new_option ("k3", SStr "x"); new_option ("k4", SStr "y");
               ESpace [Text.nl]])
    ∧ sections doc' = ["a"; "b"; "c"].
Proof.
  destruct (C2_new_keys_follow_last_key 0%nat overlay_keys
              (World [overlay_keys] ex_fs [])
              (Scalar (SPath ex_path)) ex_path ex_text 384
              ex_pre [BSection ex_b] ex_a [EOpt ex_k1] [ESpace [Text.nl]] ex_k2
              [("k3", SStr "x"); ("k4", SStr "y")])
    as (_ & H & _);
    [reflexivity | compute_done | reflexivity | reflexivity | reflexivity
    | reflexivity | reflexivity | reflexivity
    | reflexivity | compute_done | compute_done |].
  eexists. split; [vm_compute; reflexivity|].
  split; [apply H; vm_compute; reflexivity | reflexivity].
Defined.

(** C3.  When the first section named [name s] holds the key [key o],
    merging an overlay that assigns just this key the value [v] changes
    the value where it stands.  Of the pieces of text the document is
    written from ([to_lines], one piece per header, entry, comment line
    and blank line; put together they are the text of the file that was
    read) the one at position [i], the line of that key, is
    replaced by the line with the new value, and every other piece is
    the same as before, at the same position; the sections and the keys
    of the section keep their order. *)
Theorem C3_update_in_place
    (config : loc) (b : Box) (w : world) (v0 : value) (p : path)
    (text : string) (m : Z) (pre post : ConfigUpdater) (s : Sect)
    (es1 es2 : list Entry) (o : Opt) (v : scalar) :
  heap w !! config = Some b →
  Dict.get "config_file_path" b = Some v0 →
  Path v0 = Ok p →
  Dict.remove "config_file_path" b = [(name s, Mapping [(key o, v)])] →
  os.stat (fs w) p = Some (File text m) →
  read_string text = Ok (pre ++ BSection s :: post) →
  structure s = es1 ++ EOpt o :: es2 →
  let doc := pre ++ BSection s :: post in
  let s' := mkSect (name s) (header s) (es1 ++ EOpt (with_value v o) :: es2) in
  let doc' := pre ++ BSection s' :: post in
  let i := (length (to_lines pre) + S (length (entries_lines es1)))%nat in
  (config_updater_factory config w).1 = Ok (p, doc')
  ∧ Text.concat (to_lines doc) = text
  ∧ to_lines doc !! i = Some (str_opt o)
  ∧ to_lines doc'
    = <[i := key o +:+ " " +:+ delimiter o +:+ " " +:+ str v +:+ Text.nl]>
        (to_lines doc)
  ∧ sections doc' = sections doc
  ∧ options s' = options s.
Proof.
  intros Hb Hv0 Hp Hmin Hst Hdoc Hs doc s' doc' i.
  destruct (well_formed_split _ _ _ (read_string_well_formed _ _ Hdoc))
    as (Hpre & _ & Hnd).
  assert (Ho : key o ∉ omap entry_key es1).
  { unfold options in Hnd. rewrite Hs, omap_app in Hnd.
    apply NoDup_app in Hnd as (_ & Hnd & _). intros Hin.
    apply (Hnd _ Hin). left. }
  destruct (remove_singleton _ _ _ _ Hmin) as [Hne Hits].
  assert (Hlines : ∀ e, to_lines (pre ++ BSection (mkSect (name s) (header s)
                                    (es1 ++ e :: es2)) :: post)
            = (to_lines pre ++ header s :: entries_lines es1)
                ++ entry_lines e ++ entries_lines es2 ++ to_lines post).
  { intros e. rewrite to_lines_app, to_lines_cons. unfold block_lines.
    rewrite sect_lines_middle. by rewrite <-!app_assoc. }
  assert (Hi : i = length (to_lines pre ++ header s :: entries_lines es1)).
  { unfold i. rewrite length_app. simpl. lia. }
  assert (Hdoc_eq : doc = pre ++ BSection (mkSect (name s) (header s)
                                   (es1 ++ EOpt o :: es2)) :: post).
  { unfold doc. do 2 f_equal. destruct s; simpl in *. by rewrite Hs. }
  split; [|split; [|split; [|split; [|split]]]].
  - rewrite (factory_ok_intro config b w v0 p text m doc doc'); try done.
    rewrite Hmin. unfold merge. simpl.
    unfold mbind at 2, result_bind, rbind.
    unfold merge_step. simpl. unfold doc.
    rewrite has_section_at, get_section_at by done.
    unfold mbind, result_bind, rbind.
    assert (Hopts : options s = omap entry_key es1 ++ key o :: omap entry_key es2).
    { unfold options. by rewrite Hs, omap_app. }
    rewrite Hopts. destruct (last_item _) as [lo|] eqn:Hlo.
    2:{ unfold last_item in Hlo. rewrite last_app in Hlo. simpl in Hlo.
        rewrite last_cons in Hlo. by destruct (last (omap entry_key es2)). }
    rewrite Hits. unfold items_of. cbn [foldR].
    unfold mbind, result_bind, rbind.
    rewrite (update_option_existing s lo es1 o es2) by done. simpl.
    by rewrite set_section_at.
  - by apply read_string_to_string.
  - rewrite Hdoc_eq, Hlines, Hi. apply length_lookup_middle.
  - rewrite Hdoc_eq. unfold doc', s'. rewrite !Hlines, Hi. simpl.
    by rewrite insert_middle.
  - unfold doc, doc'. by sections_norm.
  - unfold options, s'. simpl. rewrite Hs, !omap_app. done.
Qed.

Lemma C3_witness :
  (config_updater_factory 0%nat (World [overlay_update] ex_fs [])).1
  = Ok (ex_path, ex_updated)
  ∧ to_lines ex_updated
    = <[2%nat := line_of "k1 : 2"]>
        (to_lines (ex_pre ++ [BSection ex_a; BSection ex_b])).
Proof.
  destruct (C3_update_in_place 0%nat overlay_update
              (World [overlay_update] ex_fs [])
              (Scalar (SPath ex_path)) ex_path ex_text 384
              ex_pre [BSection ex_b] ex_a [] [EOpt ex_k2; ESpace [Text.nl]]
              ex_k1 (SStr "2"))
    as (H1 & _ & _ & H2 & _);
    [reflexivity | reflexivity | reflexivity | reflexivity | reflexivity
    | reflexivity | reflexivity |].
  split; [exact H1 | exact H2].
Defined.



(** ** Writing: [write_config_updater] *)

(** C5.  The file is opened with [O_WRONLY | O_CREAT] and without
    [O_TRUNC], and [os.fdopen] wraps the descriptor as it is; a file that
    is already there therefore keeps whatever lies behind the bytes
    written.  Here the file holds the value [100] and the overlay sets it
    to [1]: the merged document is one character shorter than the file,
    and after [write_config_updater] the file is the document's text
    followed by the last two bytes of the old contents. *)
Theorem C5_longer_file_keeps_its_tail :
  ∃ doc w1 w2,
    config_updater_factory 0%nat w_shorter = (Ok (ex_path, doc), w1)
    ∧ write_config_updater ex_path doc w1 = (Ok tt, w2)
    ∧ to_string doc = unlines ["[a]"; "k = 1"]
    ∧ fs w2 !! ex_path = Some (File (unlines ["[a]"; "k = 1"; "0"]) 384)
    ∧ fs w2 !! ex_path ≠ Some (File (to_string doc) 384).
Proof.
  eexists _, _, _. split; [vm_compute; reflexivity|].
  split; [vm_compute; reflexivity|].
  split; [reflexivity|]. split; [vm_compute; reflexivity|].
  vm_compute. discriminate.
Qed.

(** ** [read_config] *)

Section read_config_claims.

Variable home : path.
Variable DEFAULT_CONFIG : string.
Variable verify_file_permissions : gmap path node → path → bool.


(** C7.  When a configuration file is found and the permission check
    answers no, [read_config] ends in [sys.exit(1)].  The world it leaves
    is the one it started in plus a single logged error (that of the
    permission check, or that of the directory check before it): no file
    was opened for reading, so the parse of line 120 was not reached. *)
Theorem C7_insecure_permissions_exit_before_parse given w p :
  List.find (os.present (fs w)) (config_path_locations home given) = Some p →
  verify_file_permissions (fs w) p = false →
  ∃ msg,
    read_config home DEFAULT_CONFIG verify_file_permissions given w
    = (Raise (SystemExit 1), emit (EvLog ERROR msg) w)
    ∧ (msg = InsecurePermissions p ∨ msg = ExpectedDirectory (parent p))
    ∧ ∀ q, EvOpenRead q ∈ trace (emit (EvLog ERROR msg) w) →
           EvOpenRead q ∈ trace w.
Proof.
  intros Hfound Hver. rewrite (read_config_found _ _ _ given w p Hfound), Hver.
  assert (Hq : ∀ msg q, EvOpenRead q ∈ trace (emit (EvLog ERROR msg) w) →
                        EvOpenRead q ∈ trace w).
  { intros msg q. simpl. rewrite elem_of_app, list_elem_of_singleton.
    by intros [?|?]. }
  destruct (_ && _); eexists; split; eauto.
Qed.


End read_config_claims.


Lemma C7_witness :
  ∃ msg,
    read_config ex_home (config_text "True") owner_only (Some ex_path)
      (World [] (fs_with (config_text "True") 420) [])
    = (Raise (SystemExit 1),
       emit (EvLog ERROR msg) (World [] (fs_with (config_text "True") 420) []))
    ∧ (msg = InsecurePermissions ex_path ∨ msg = ExpectedDirectory (parent ex_path))
    ∧ ∀ q, EvOpenRead q
             ∈ trace (emit (EvLog ERROR msg)
                        (World [] (fs_with (config_text "True") 420) [])) →
           EvOpenRead q ∈ [].
Proof.
  apply (C7_insecure_permissions_exit_before_parse ex_home (config_text "True")
           owner_only (Some ex_path)
           (World [] (fs_with (config_text "True") 420) []) ex_path);
    reflexivity.
Defined.



(** ** The merge, continued *)

(** C9.  When the document has a section without any key (the first
    section of that name has no options) and the overlay assigns keys to
    it, the merge does not return: it raises.  When that section is the
    first the overlay names, what is raised is the [IndexError] of line
    58, where the last of no options is taken; otherwise it is that, or
    what an earlier section of the overlay raised. *)
Theorem C9_empty_section_raises
    (config : loc) (b : Box) (w : world) (v0 : value) (p : path)
    (text : string) (m : Z) (doc : ConfigUpdater) (s : Sect)
    (its : list (string * scalar)) :
  heap w !! config = Some b →
  NoDup (Dict.keys b) →
  Dict.get "config_file_path" b = Some v0 →
  Path v0 = Ok p →
  os.stat (fs w) p = Some (File text m) →
  read_string text = Ok doc →
  get_section (name s) doc = Ok s →
  options s = [] →
  Dict.get (name s) b = Some (Mapping its) →
  (∃ e, (config_updater_factory config w).1 = Raise e)
  ∧ (head (Dict.keys (Dict.remove "config_file_path" b)) = Some (name s) →
     (config_updater_factory config w).1 = Raise IndexError).
Proof.
  intros Hb Hnd Hv0 Hp Hst Hdoc Hg Ho Hits.
  assert (Hne : name s ≠ "config_file_path").
  { intros Heq. rewrite Heq, Hv0 in Hits. injection Hits as ->. done. }
  destruct (overlay_split b (name s) _ Hnd Hne Hits) as (l1 & l2 & Hk & Hl1 & _).
  destruct (merge_empty_section b _ doc (name s) s l1 l2 Hk Hl1 Hg Ho)
    as (e & He & Hfirst).
  rewrite (factory_raise_intro config b w v0 p text m doc e) by done.
  split; [by exists e|].
  rewrite Hk. intros Hhd. simpl. f_equal. apply Hfirst.
  destruct l1 as [|k l1]; [done|]. simpl in Hhd. injection Hhd as ->.
  exfalso. apply Hl1. left.
Qed.

Lemma C9_witness :
  (config_updater_factory 0%nat
     (World [overlay_empty] (fs_with ex_text_empty 384) [])).1
  = Raise IndexError.
Proof.
  destruct (C9_empty_section_raises 0%nat overlay_empty
              (World [overlay_empty] (fs_with ex_text_empty 384) [])
              (Scalar (SPath ex_path)) ex_path ex_text_empty 384
              [BSection ex_e; BSection (mkSect "a" (line_of "[a]") [EOpt ex_k1])]
              ex_e [("x", SStr "1")])
    as (_ & H);
    [reflexivity | compute_done | reflexivity | reflexivity | reflexivity
    | reflexivity | reflexivity | reflexivity | reflexivity |].
  apply H. reflexivity.
Defined.

(** C10.  An overlay that has the reserved key comes out of the merge as
    it went in.  The key is popped from the copy made on line 45: when
    [config_updater_factory] is done, whether it returned or raised, the
    store is the one before with that copy, less the key, added at its
    end; the caller's box and every other object are what they were. *)
Theorem C10_overlay_left_unchanged (config : loc) (b : Box) (w : world) :
  heap w !! config = Some b →
  Dict.contains "config_file_path" b = true →
  let w' := (config_updater_factory config w).2 in
  heap w' = heap w ++ [Dict.remove "config_file_path" b]
  ∧ heap w' !! config = Some b
  ∧ take (length (heap w)) (heap w') = heap w.
Proof.
  intros Hb Hc. rewrite (factory_run config b w Hb). unfold factory_outcome.
  rewrite contains_get in Hc. apply bool_decide_eq_true in Hc as [v Hv].
  rewrite Hv.
  assert (Hheap : ∀ w', heap w' = heap w ++ [Dict.remove "config_file_path" b] →
    heap w' = heap w ++ [Dict.remove "config_file_path" b]
    ∧ heap w' !! config = Some b ∧ take (length (heap w)) (heap w') = heap w).
  { intros w' ->. split; [done|]. rewrite take_app_length.
    split; [|done]. by apply lookup_app_l_Some. }
  repeat case_match; apply Hheap; reflexivity.
Qed.

Lemma C10_witness :
  heap (config_updater_factory 0%nat (World [overlay_keys] ex_fs [])).2
  !! 0%nat = Some overlay_keys.
Proof.
  destruct (C10_overlay_left_unchanged 0%nat overlay_keys
              (World [overlay_keys] ex_fs []))
    as (_ & H & _); [reflexivity | reflexivity |].
  exact H.
Defined.

(** * Further properties

    What the four functions do beyond the claims above: their failures,
    what they leave alone, and how they work together. *)

(** ** [bootstrap_config] *)

Section bootstrap_config_properties.

Variable home : path.
Variable DEFAULT_CONFIG : string.

(** X1.  Below a directory [base], for a path none of whose components
    below [base] exists, and with a default template that parses,
    [bootstrap_config] returns the document of the template, having made
    every directory on the way and the file, which holds the template
    with mode [0o600]; nothing else changes. *)
Theorem X1_bootstrap_creates base dirs file w cu :
  os.directory (fs w) base = true →
  all_absent (fs w) (below base (dirs ++ [file])) = true →
  read_string DEFAULT_CONFIG = Ok cu →
  ∃ w',
    bootstrap_config home DEFAULT_CONFIG (Some (base ++ dirs ++ [file])) w
    = (Ok cu, w')
    ∧ os.stat (fs w') (base ++ dirs ++ [file]) = Some (File DEFAULT_CONFIG 384)
    ∧ (∀ q, q ∈ below base dirs → os.stat (fs w') q = Some Dir)
    ∧ (∀ q, q ∉ below base (dirs ++ [file]) → fs w' !! q = fs w !! q).
Proof.
  intros Hbase Habs Hcu. eexists. split; [by apply bootstrap_fresh_run|].
  simpl.
  assert (Hp : base ++ dirs ++ [file] ≠ []).
  { by intros [_ [_ ?]%app_eq_nil]%app_eq_nil. }
  split; [by rewrite stat_lookup, lookup_insert_eq|]. split.
  - intros q Hq. pose proof (below_length _ _ _ Hq) as Hl.
    rewrite stat_lookup by (by eapply below_nonempty).
    rewrite lookup_insert_ne.
    2:{ intros <-. rewrite !length_app in Hl. simpl in Hl. lia. }
    rewrite with_dirs_lookup. by rewrite bool_decide_eq_true_2.
  - intros q Hq. rewrite below_snoc in Hq.
    apply not_elem_of_app in Hq as [Hq1 Hq2].
    rewrite lookup_insert_ne by (intros <-; apply Hq2; left).
    rewrite with_dirs_lookup. by rewrite bool_decide_eq_false_2.
Qed.

(** X2.  With a template that does not parse, [bootstrap_config] raises
    and leaves no file: what is at the path is what was there.  The
    directories of line 32 are made all the same; when the directory was
    already there, nothing changes at all. *)
Theorem X2_bootstrap_bad_template p w e :
  read_string DEFAULT_CONFIG = Raise e →
  ∃ e' w',
    bootstrap_config home DEFAULT_CONFIG (Some p) w = (Raise e', w')
    ∧ fs w' !! p = fs w !! p
    ∧ (os.directory (fs w) (parent p) = true → e' = e ∧ w' = w).
Proof.
  intros He. destruct (os.directory (fs w) (parent p)) eqn:Hd.
  - rewrite bootstrap_dir_run, He by done. by exists e, w.
  - rewrite bootstrap_makedirs_run, He by done.
    destruct (os.makedirs_rev _ _) as [f|e0] eqn:Hmk; [|by exists e0, w].
    eexists _, _. split; [done|]. simpl. split; [|done].
    apply (makedirs_rev_longer _ _ _ _ Hmk).
    assert (Hp : p ≠ []) by (by intros ->).
    rewrite length_rev, (parent_length p) by done. lia.
Qed.

(** X3.  When the parent of the path is a file, [bootstrap_config]
    fails in [os.makedirs] with [FileExistsError] and changes nothing. *)
Theorem X3_bootstrap_parent_is_file p w c m :
  os.stat (fs w) (parent p) = Some (File c m) →
  os.present (fs w) (parent (parent p)) = true →
  bootstrap_config home DEFAULT_CONFIG (Some p) w
  = (Raise (FileExistsError (parent p)), w).
Proof.
  intros Hst Hpp.
  rewrite bootstrap_makedirs_run by (unfold os.directory; by rewrite Hst).
  destruct (parent p) as [|d q _] using rev_ind; [done|].
  rewrite parent_snoc in Hpp. rewrite rev_app_distr. simpl.
  rewrite rev_involutive, Hpp. unfold mbind, result_bind, rbind.
  unfold os.mkdir. by rewrite Hst.
Qed.

End bootstrap_config_properties.

Lemma X1_witness :
  ∃ w',
    bootstrap_config ex_home (config_text "TRUE")
      (Some (ex_home ++ [".config"; "awattprice"] ++ ["config.ini"]))
      (World [] fs_home [])
    = (Ok ex_config, w')
    ∧ os.stat (fs w') (ex_home ++ [".config"; "awattprice"] ++ ["config.ini"])
      = Some (File (config_text "TRUE") 384)
    ∧ (∀ q, q ∈ below ex_home [".config"; "awattprice"] →
         os.stat (fs w') q = Some Dir)
    ∧ (∀ q, q ∉ below ex_home ([".config"; "awattprice"] ++ ["config.ini"]) →
         fs w' !! q = fs_home !! q).
Proof.
  apply (X1_bootstrap_creates ex_home (config_text "TRUE") ex_home
           [".config"; "awattprice"] "config.ini" (World [] fs_home [])
           ex_config); reflexivity.
Defined.

Lemma X2_witness :
  ∃ e' w',
    bootstrap_config ex_home ex_text_bad (Some (user_config ex_home))
      (World [] fs_home [])
    = (Raise e', w')
    ∧ fs w' !! user_config ex_home = fs_home !! user_config ex_home
    ∧ (os.directory fs_home (parent (user_config ex_home)) = true →
       e' = MissingSectionHeaderError (line_of "k = 1")
       ∧ w' = World [] fs_home []).
Proof.
  apply (X2_bootstrap_bad_template ex_home ex_text_bad (user_config ex_home)
           (World [] fs_home []) (MissingSectionHeaderError (line_of "k = 1"))).
  reflexivity.
Defined.

Lemma X3_witness :
  bootstrap_config ex_home (config_text "TRUE") (Some ex_path)
    (World [] fs_file_in_way [])
  = (Raise (FileExistsError (parent ex_path)), World [] fs_file_in_way []).
Proof.
  apply (X3_bootstrap_parent_is_file ex_home (config_text "TRUE") ex_path
           (World [] fs_file_in_way []) EmptyString 384); reflexivity.
Defined.

(** ** [config_updater_factory] *)



(** X5.  When the file does not parse, the parser's error reaches the
    caller of the merge as it is, after the file was opened: nothing is
    logged, and the error is not the exit that [read_config] makes of
    it. *)
Theorem X5_factory_unparsable_file config b w v0 p text m e :
  heap w !! config = Some b →
  Dict.get "config_file_path" b = Some v0 →
  Path v0 = Ok p →
  os.stat (fs w) p = Some (File text m) →
  read_string text = Raise e →
  config_updater_factory config w
  = (Raise e,
     emit (EvOpenRead p)
       (set_heap (heap w ++ [Dict.remove "config_file_path" b]) w))
  ∧ exits e = false.
Proof.
  intros Hb Hv Hp Hst He. rewrite (factory_run config b w Hb).
  unfold factory_outcome. rewrite Hv, Hp, Hst, He. split; [done|].
  by apply (read_string_no_exit text).
Qed.

Lemma X5_witness :
  config_updater_factory 0%nat
    (World [overlay_update] (fs_with ex_text_bad 384) [])
  = (Raise (MissingSectionHeaderError (line_of "k = 1")),
     emit (EvOpenRead ex_path)
       (set_heap ([overlay_update]
                    ++ [Dict.remove "config_file_path" overlay_update])
          (World [overlay_update] (fs_with ex_text_bad 384) [])))
  ∧ exits (MissingSectionHeaderError (line_of "k = 1")) = false.
Proof.
  apply (X5_factory_unparsable_file 0%nat overlay_update
           (World [overlay_update] (fs_with ex_text_bad 384) [])
           (Scalar (SPath ex_path)) ex_path ex_text_bad 384);
    reflexivity.
Defined.

(** X6.  The merge works in memory: whatever its outcome, the file
    system is as before, and the trace shows at most that one file was
    opened for reading. *)
Theorem X6_factory_writes_nothing config w :
  fs (config_updater_factory config w).2 = fs w
  ∧ (trace (config_updater_factory config w).2 = trace w
     ∨ ∃ p, trace (config_updater_factory config w).2
            = trace w ++ [EvOpenRead p]).
Proof.
  destruct (heap w !! config) as [b|] eqn:Hb.
  - rewrite (factory_run config b w Hb). unfold factory_outcome.
    repeat case_match; simpl; eauto.
  - unfold config_updater_factory, box.deepcopy. munfold. rewrite Hb. eauto.
Qed.

(** X7.  The note of the docstring: on a file without any section (an
    empty file, or comments and blank lines only) every section of the
    overlay is new, and the merge of an overlay that names a section
    ends in the [IndexError] of line 74, where the last of no sections is
    taken. *)
Theorem X7_factory_empty_document config b w v0 p text m doc :
  heap w !! config = Some b →
  NoDup (Dict.keys b) →
  Dict.get "config_file_path" b = Some v0 →
  Path v0 = Ok p →
  os.stat (fs w) p = Some (File text m) →
  read_string text = Ok doc →
  sections doc = [] →
  forallb (mergeable doc) (Dict.remove "config_file_path" b) = true →
  Dict.remove "config_file_path" b ≠ [] →
  (config_updater_factory config w).1 = Raise IndexError.
Proof.
  intros Hb Hnd Hv Hp Hst Hdoc Hnil Hm Hne.
  rewrite (factory_raise_intro config b w v0 p text m doc IndexError);
    try done.
  by apply merge_empty_document.
Qed.

Lemma X7_witness :
  (config_updater_factory 0%nat
     (World [overlay_sections] (fs_with ex_text_comment 384) [])).1
  = Raise IndexError.
Proof.
  apply (X7_factory_empty_document 0%nat overlay_sections
           (World [overlay_sections] (fs_with ex_text_comment 384) [])
           (Scalar (SPath ex_path)) ex_path ex_text_comment 384
           [BComment [line_of "# nothing here"]]);
    [reflexivity | compute_done | reflexivity | reflexivity | reflexivity
    | reflexivity | reflexivity | reflexivity | discriminate].
Defined.



(** X9.  A section of the file that the overlay does not name comes
    out of a merge that returned as it was read: its header, its
    entries, its comments and blank lines. *)
Theorem X9_factory_untouched_section config b w p doc' n :
  heap w !! config = Some b →
  (config_updater_factory config w).1 = Ok (p, doc') →
  n ∉ Dict.keys b →
  ∃ text m doc,
    os.stat (fs w) p = Some (File text m)
    ∧ read_string text = Ok doc
    ∧ ∀ s, get_section n doc = Ok s → get_section n doc' = Ok s.
Proof.
  intros Hb Hrun Hn.
  destruct (config_updater_factory config w) as [r w'] eqn:Hf.
  simpl in Hrun. subst r.
  destruct (factory_ok_inv _ _ _ _ _ _ Hb Hf)
    as (v & text & m & doc & _ & _ & Hst & Hdoc & Hm & _).
  exists text, m, doc. split; [done|]. split; [done|]. intros s Hs.
  unfold merge in Hm. unfold mbind, result_bind, rbind in Hm.
  destruct (foldR _ _ _) as [st|] eqn:Hsteps; [|done].
  eapply append_sections_frame; [|exact Hm].
  assert (Hn' : n ∉ Dict.keys (Dict.remove "config_file_path" b)).
  { rewrite keys_remove. by intros [_ ?]%list_elem_of_filter. }
  by rewrite (merge_steps_frame _ _ n _ _ _ Hn' Hsteps).
Qed.

Lemma X9_witness :
  ∃ text m doc,
    os.stat ex_fs ex_path = Some (File text m)
    ∧ read_string text = Ok doc
    ∧ ∀ s, get_section "b" doc = Ok s → get_section "b" ex_merged = Ok s.
Proof.
  apply (X9_factory_untouched_section 0%nat overlay_keys
           (World [overlay_keys] ex_fs []) ex_path ex_merged "b");
    [reflexivity | vm_compute; reflexivity | compute_done].
Defined.





(** X12.  After a merge that returned, the document holds the
    overlay's value for every key the overlay assigns to a section the
    file had: looking the key up gives that value. *)
Theorem X12_factory_lookup config b w v0 p text m doc doc' n its k v :
  heap w !! config = Some b →
  NoDup (Dict.keys b) →
  Dict.get "config_file_path" b = Some v0 →
  Path v0 = Ok p →
  os.stat (fs w) p = Some (File text m) →
  read_string text = Ok doc →
  (config_updater_factory config w).1 = Ok (p, doc') →
  has_section n doc = true →
  Dict.get n b = Some (Mapping its) →
  NoDup its.*1 →
  (k, v) ∈ its →
  get_field n k (to_dict doc') = Ok v.
Proof.
  intros Hb Hnd Hv Hp Hst Hdoc Hrun Hn Hits Hndi Hin.
  destruct (config_updater_factory config w) as [r w'] eqn:Hf.
  simpl in Hrun. subst r.
  destruct (factory_ok_inv _ _ _ _ _ _ Hb Hf)
    as (v' & text' & m' & doc0 & _ & _ & Hst' & Hdoc' & Hm & _).
  rewrite Hst in Hst'. injection Hst' as <- <-.
  rewrite Hdoc in Hdoc'. injection Hdoc' as <-.
  destruct (has_section_get _ _ Hn) as (s & Hs).
  destruct (merge_section_result b doc doc' n s Hnd Hm Hs)
    as (s' & Hs' & _ & Hval & _).
  assert (Hne : n ≠ "config_file_path").
  { intros ->. rewrite Hv in Hits. injection Hits as ->. done. }
  rewrite (get_field_to_dict _ _ _ _ Hs').
  by rewrite (Hval its Hne Hits Hndi k v Hin).
Qed.

Lemma X12_witness :
  get_field "a" "k4" (to_dict ex_merged) = Ok (SStr "y").
Proof.
  apply (X12_factory_lookup 0%nat overlay_keys (World [overlay_keys] ex_fs [])
           (Scalar (SPath ex_path)) ex_path ex_text 384
           (ex_pre ++ [BSection ex_a; BSection ex_b]) ex_merged "a"
           [("k3", SStr "x"); ("k4", SStr "y")] "k4" (SStr "y"));
    [reflexivity | compute_done | reflexivity | reflexivity | reflexivity
    | reflexivity | vm_compute; reflexivity | reflexivity | reflexivity
    | compute_done | right; left].
Defined.

(** X13.  A merge that returned has lost nothing: every section of the
    file is in the document, with the keys it had, in their order (new
    ones may stand between them), and a key the overlay assigns no value
    to has the value it had. *)
Theorem X13_factory_keeps_entries config b w v0 p text m doc doc' n s :
  heap w !! config = Some b →
  NoDup (Dict.keys b) →
  Dict.get "config_file_path" b = Some v0 →
  Path v0 = Ok p →
  os.stat (fs w) p = Some (File text m) →
  read_string text = Ok doc →
  (config_updater_factory config w).1 = Ok (p, doc') →
  get_section n doc = Ok s →
  ∃ s',
    get_section n doc' = Ok s'
    ∧ options s `sublist_of` options s'
    ∧ ∀ k, assigned b n k = None →
        get_field n k (to_dict doc') = get_field n k (to_dict doc).
Proof.
  intros Hb Hnd Hv Hp Hst Hdoc Hrun Hs.
  destruct (config_updater_factory config w) as [r w'] eqn:Hf.
  simpl in Hrun. subst r.
  destruct (factory_ok_inv _ _ _ _ _ _ Hb Hf)
    as (v' & text' & m' & doc0 & _ & _ & Hst' & Hdoc' & Hm & _).
  rewrite Hst in Hst'. injection Hst' as <- <-.
  rewrite Hdoc in Hdoc'. injection Hdoc' as <-.
  destruct (merge_section_result b doc doc' n s Hnd Hm Hs)
    as (s' & Hs' & Hsub & _ & Hother).
  exists s'. split; [done|]. split; [done|]. intros k Hk.
  rewrite (get_field_to_dict _ _ _ _ Hs'), (get_field_to_dict _ _ _ _ Hs).
  by rewrite (Hother k Hk).
Qed.

Lemma X13_witness :
  ∃ s',
    get_section "a" ex_merged = Ok s'
    ∧ options ex_a `sublist_of` options s'
    ∧ ∀ k, assigned overlay_keys "a" k = None →
        get_field "a" k (to_dict ex_merged)
        = get_field "a" k (to_dict (ex_pre ++ [BSection ex_a; BSection ex_b])).
Proof.
  apply (X13_factory_keeps_entries 0%nat overlay_keys
           (World [overlay_keys] ex_fs []) (Scalar (SPath ex_path)) ex_path
           ex_text 384 (ex_pre ++ [BSection ex_a; BSection ex_b]) ex_merged
           "a" ex_a);
    [reflexivity | compute_done | reflexivity | reflexivity | reflexivity
    | reflexivity | vm_compute; reflexivity | reflexivity].
Defined.

(** ** [write_config_updater] *)

(** X14.  Written to a path that holds nothing, in a directory, the
    file is created with mode [0o600] and holds the text of the document
    and nothing else; no other path changes. *)
Theorem X14_write_creates_file p cu w :
  os.stat (fs w) p = None →
  os.stat (fs w) (parent p) = Some Dir →
  ∃ w',
    write_config_updater p cu w = (Ok tt, w')
    ∧ os.stat (fs w') p = Some (File (to_string cu) 384)
    ∧ ∀ q, q ≠ p → fs w' !! q = fs w !! q.
Proof.
  intros Hst Hpar. eexists. split; [by apply write_fresh|]. simpl.
  assert (Hp : p ≠ []) by (by intros ->).
  split.
  - by rewrite stat_lookup, lookup_insert_eq.
  - intros q Hq. by rewrite lookup_insert_ne.
Qed.

Lemma X14_witness :
  ∃ w',
    write_config_updater (user_config ex_home) ex_config
      (World [] fs_config_dir []) = (Ok tt, w')
    ∧ os.stat (fs w') (user_config ex_home)
      = Some (File (to_string ex_config) 384)
    ∧ ∀ q, q ≠ user_config ex_home → fs w' !! q = fs_config_dir !! q.
Proof.
  apply (X14_write_creates_file (user_config ex_home) ex_config
           (World [] fs_config_dir [])); reflexivity.
Defined.

(** X15.  Written over a file that is there, the text replaces the
    start of what the file held: the bytes behind it stay, and so does
    the mode of the file (the [0o600] of line 86 is for a new file).  The
    file holds exactly the text when it was not longer than the text. *)
Theorem X15_write_over_existing p cu w old m :
  os.stat (fs w) p = Some (File old m) →
  ∃ w',
    write_config_updater p cu w = (Ok tt, w')
    ∧ os.stat (fs w') p
      = Some (File (to_string cu
                      +:+ Text.drop (String.length (to_string cu)) old) m)
    ∧ ((String.length old ≤ String.length (to_string cu))%nat →
       os.stat (fs w') p = Some (File (to_string cu) m)).
Proof.
  intros Hst. assert (Hp : p ≠ []) by (by intros ->).
  eexists. split; [by eapply write_existing|]. simpl.
  rewrite stat_lookup, lookup_insert_eq by done. split; [done|].
  intros Hlen. by rewrite drop_all, append_nil_r.
Qed.

Lemma X15_witness :
  ∃ w',
    write_config_updater (user_config ex_home) ex_config
      (World [] fs_settled []) = (Ok tt, w')
    ∧ os.stat (fs w') (user_config ex_home)
      = Some (File (to_string ex_config
                      +:+ Text.drop (String.length (to_string ex_config)) ex_mine)
                420)
    ∧ ((String.length ex_mine ≤ String.length (to_string ex_config))%nat →
       os.stat (fs w') (user_config ex_home)
       = Some (File (to_string ex_config) 420)).
Proof.
  apply (X15_write_over_existing (user_config ex_home) ex_config
           (World [] fs_settled []) ex_mine 420); reflexivity.
Defined.



(** X17.  Whatever [write_config_updater] does, it does to the one
    path: every other path, and the store, are as before. *)
Theorem X17_write_touches_one_path p cu w q :
  q ≠ p →
  fs (write_config_updater p cu w).2 !! q = fs w !! q
  ∧ heap (write_config_updater p cu w).2 = heap w.
Proof. intros Hq. split; [by apply write_other | apply write_heap]. Qed.

Lemma X17_witness :
  fs (write_config_updater (user_config ex_home) ex_config
        (World [] fs_settled [])).2 !! ex_home
  = fs_settled !! ex_home
  ∧ heap (write_config_updater (user_config ex_home) ex_config
            (World [] fs_settled [])).2 = [].
Proof.
  apply (X17_write_touches_one_path (user_config ex_home) ex_config
           (World [] fs_settled []) ex_home).
  vm_compute. discriminate.
Defined.

(** ** [read_config], continued *)

Section read_config_properties.

Variable home : path.
Variable DEFAULT_CONFIG : string.
Variable verify_file_permissions : gmap path node → path → bool.

(** X18.  When a configuration file is found, [read_config] changes
    neither the file system nor the store, whatever its outcome (the
    permission check being a check, as it is taken here). *)
Theorem X18_read_config_found_changes_nothing given w p :
  List.find (os.present (fs w)) (config_path_locations home given) = Some p →
  fs (read_config home DEFAULT_CONFIG verify_file_permissions given w).2 = fs w
  ∧ heap (read_config home DEFAULT_CONFIG verify_file_permissions given w).2
    = heap w.
Proof.
  intros Hfound.
  rewrite (read_config_after_locate _ _ _ _ _ _ _
             (locate_found home DEFAULT_CONFIG given w p Hfound)).
  apply (keeps_after_locate verify_file_permissions p None w).
Qed.

(** X19.  When the file that was found passes the two checks and
    reading it fails with [e] (it does not parse, or cannot be opened),
    [read_config] logs that error with the path and ends in
    [sys.exit(1)]. *)
Theorem X19_read_config_unreadable_exits given w p e w1 :
  List.find (os.present (fs w)) (config_path_locations home given) = Some p →
  os.present (fs w) (parent p) && negb (os.directory (fs w) (parent p))
  = false →
  verify_file_permissions (fs w) p = true →
  configupdater.read p w = (Raise e, w1) →
  read_config home DEFAULT_CONFIG verify_file_permissions given w
  = (Raise (SystemExit 1), emit (EvLog ERROR (CouldNotRead p e)) w1).
Proof.
  intros Hfound Hpar Hperm Hread.
  rewrite (read_config_found _ _ _ _ _ _ Hfound), Hpar, Hperm.
  unfold mbind, M_bind.
  by rewrite (load_raise_run _ _ _ _ Hread (read_no_exit _ _ _ _ Hread)).
Qed.

(** X20.  The configuration [read_config] returns for a file that was
    found carries the path of that file under [config_file_path], as a
    path: [config_updater_factory] finds the key and opens that
    file. *)
Theorem X20_read_config_path_attached given w p text m cu v :
  List.find (os.present (fs w)) (config_path_locations home given) = Some p →
  os.present (fs w) (parent p) && negb (os.directory (fs w) (parent p))
  = false →
  verify_file_permissions (fs w) p = true →
  os.stat (fs w) p = Some (File text m) →
  read_string text = Ok cu →
  complete (to_dict cu) = true →
  get_field "notifications" "use_sandbox" (to_dict cu) = Ok (SStr v) →
  ∃ config w' v0,
    read_config home DEFAULT_CONFIG verify_file_permissions given w
    = (Ok config, w')
    ∧ Dict.contains "config_file_path" config = true
    ∧ Dict.get "config_file_path" config = Some v0
    ∧ Path v0 = Ok p.
Proof.
  intros Hfound Hpar Hperm Hst Hcu Hc Hv.
  rewrite (read_config_found _ _ _ _ _ _ Hfound), Hpar, Hperm.
  rewrite (bind_ok _ _ _ _ _ (load_found_run _ _ _ _ _ Hst Hcu)).
  destruct (resolve_run p cu v (emit (EvOpenRead p) w) Hc Hv)
    as (config & Hrun & _).
  exists config. eexists. exists (Scalar (SPath p)). split; [exact Hrun|].
  destruct (resolve_ok_fields _ _ _ _ _ Hrun) as (Hpath & _).
  rewrite contains_get, Hpath. split; [|done].
  by apply bool_decide_eq_true.
Qed.

(** X21.  In that configuration each of the six text fields of lines
    129 to 131 and 146 to 148 is the file's value without the quotes
    around it, and every other field of a section is the file's value as
    it was read ([use_sandbox] apart, which is coerced). *)
Theorem X21_read_config_strips_quotes given w p text m cu v :
  List.find (os.present (fs w)) (config_path_locations home given) = Some p →
  os.present (fs w) (parent p) && negb (os.directory (fs w) (parent p))
  = false →
  verify_file_permissions (fs w) p = true →
  os.stat (fs w) p = Some (File text m) →
  read_string text = Ok cu →
  complete (to_dict cu) = true →
  get_field "notifications" "use_sandbox" (to_dict cu) = Ok (SStr v) →
  ∃ config w',
    read_config home DEFAULT_CONFIG verify_file_permissions given w
    = (Ok config, w')
    ∧ (∀ f s, f ∈ string_fields →
         get_field f.1 f.2 (to_dict cu) = Ok (SStr s) →
         get_field f.1 f.2 config = Ok (SStr (Text.strip Text.quotes s)))
    ∧ (∀ section key,
         section ≠ "config_file_path" →
         (section, key) ∉ string_fields →
         (section, key) ≠ sandbox_field →
         get_field section key config = get_field section key (to_dict cu)).
Proof.
  intros Hfound Hpar Hperm Hst Hcu Hc Hv.
  rewrite (read_config_found _ _ _ _ _ _ Hfound), Hpar, Hperm.
  rewrite (bind_ok _ _ _ _ _ (load_found_run _ _ _ _ _ Hst Hcu)).
  destruct (resolve_run p cu v (emit (EvOpenRead p) w) Hc Hv)
    as (config & Hrun & _).
  exists config. eexists. split; [exact Hrun|].
  by destruct (resolve_ok_fields _ _ _ _ _ Hrun) as (_ & Hs & Hf).
Qed.

(** X22.  A file that parses but lacks one of the seven fields
    [read_config] works on makes it raise, after the file was read, an
    exception that is not [SystemExit]: this failure is not logged and
    turned into an exit as the others are. *)
Theorem X22_read_config_incomplete_raises given w p text m cu :
  List.find (os.present (fs w)) (config_path_locations home given) = Some p →
  os.present (fs w) (parent p) && negb (os.directory (fs w) (parent p))
  = false →
  verify_file_permissions (fs w) p = true →
  os.stat (fs w) p = Some (File text m) →
  read_string text = Ok cu →
  complete (to_dict cu) && is_text (to_dict cu) sandbox_field = false →
  ∃ e w',
    read_config home DEFAULT_CONFIG verify_file_permissions given w
    = (Raise e, w')
    ∧ exits e = false
    ∧ EvOpenRead p ∈ trace w'.
Proof.
  intros Hfound Hpar Hperm Hst Hcu Hinc.
  rewrite (read_config_found _ _ _ _ _ _ Hfound), Hpar, Hperm.
  rewrite (bind_ok _ _ _ _ _ (load_found_run _ _ _ _ _ Hst Hcu)).
  destruct (logs_only_resolve p cu) as (r & evs & Hr). rewrite Hr.
  destruct r as [config|e].
  - destruct (resolve_ok_inv _ _ _ _ _ (Hr w)) as [H1 H2].
    rewrite H1, H2 in Hinc. done.
  - exists e. eexists. split; [done|]. split.
    + by apply (never_exits_resolve p cu w e _ (Hr w)).
    + simpl. set_solver.
Qed.

(** X23.  When a path is given and nothing is there, [read_config]
    turns to the file in the home directory without looking whether it
    exists: a file the user has there is written over from its start
    with the default template, and the configuration that is returned
    is the template's, not that file's. *)
Theorem X23_read_config_missing_path_writes_home given w old m cu :
  os.present (fs w) given = false →
  os.stat (fs w) (user_config home) = Some (File old m) →
  os.directory (fs w) (parent (user_config home)) = true →
  read_string DEFAULT_CONFIG = Ok cu →
  fs (read_config home DEFAULT_CONFIG verify_file_permissions (Some given) w).2
  = <[user_config home :=
        File (DEFAULT_CONFIG +:+ Text.drop (String.length DEFAULT_CONFIG) old) m]>
      (fs w)
  ∧ ∀ config,
      (read_config home DEFAULT_CONFIG verify_file_permissions (Some given) w).1
      = Ok config →
      ∀ w0, (resolve (user_config home) cu w0).1 = Ok config.
Proof.
  intros Hgiven Hst Hd Hcu.
  rewrite read_config_missing by (simpl; by rewrite Hgiven).
  rewrite (bootstrap_existing_run _ _ _ _ old m cu) by done.
  set (w2 := World _ _ _).
  pose proof (keeps_after_locate verify_file_permissions (user_config home)
                (Some cu) w2) as [Hfs _].
  split; [exact Hfs|].
  intros config. unfold mbind at 1, M_bind at 1.
  destruct (check_parent _ w2) as [[[]|] w3]; [|done].
  unfold mbind at 1, M_bind at 1.
  destruct (check_permissions _ _ w3) as [[[]|] w4]; [|done].
  destruct (logs_only_resolve (user_config home) cu) as (r & evs & Hr).
  rewrite Hr. simpl. intros -> w0. by rewrite Hr.
Qed.

(** X24.  A second call of [read_config] returns what the first one
    returned.  The first call, finding no file, wrote the default one
    and returned the configuration of the template; the second finds
    that file, reads it and returns the same configuration (the
    permission check being a check, as it is taken here). *)
Theorem X24_read_config_again w config w1 :
  List.find (os.present (fs w)) (config_path_locations home None) = None →
  read_config home DEFAULT_CONFIG verify_file_permissions None w
  = (Ok config, w1) →
  os.present (fs w1) system_config = false →
  ∃ logged,
    read_config home DEFAULT_CONFIG verify_file_permissions None w1
    = (Ok config,
       World (heap w1) (fs w1)
         (trace w1 ++ EvOpenRead (user_config home) :: logged)).
Proof.
  intros Hnone Hrun Hsys.
  pose proof Hnone as Hfind. simpl in Hfind.
  destruct (os.present (fs w) system_config); [done|].
  destruct (os.present (fs w) (user_config home)) eqn:Huser; [done|].
  rewrite (read_config_missing _ _ _ _ _ Hnone) in Hrun.
  destruct (bootstrap_config _ _ _ _) as [[cu|] w2] eqn:Hboot; [|done].
  apply bootstrap_ok_inv in Hboot as (Hcu & Hfile & Hdir & _).
  2:{ simpl. unfold os.present in Huser. by destruct (os.stat _ _). }
  pose proof (keeps_after_locate verify_file_permissions (user_config home)
                (Some cu) w2) as [Hfs _].
  change ((check_parent (user_config home);;
           check_permissions verify_file_permissions (user_config home);;
           resolve (user_config home) cu) w2)
    with ((check_parent (user_config home);;
           check_permissions verify_file_permissions (user_config home);;
           config_updater ← load (user_config home) (Some cu);
           resolve (user_config home) config_updater) w2) in Hrun.
  rewrite Hrun in Hfs. simpl in Hfs.
  unfold mbind at 1, M_bind at 1 in Hrun. rewrite check_parent_run in Hrun.
  destruct (_ && _) eqn:Hpar; [done|].
  unfold mbind at 1, M_bind at 1 in Hrun. rewrite check_permissions_run in Hrun.
  destruct (verify_file_permissions (fs w2) _) eqn:Hperm; [|done].
  unfold load in Hrun. rewrite bind_ret in Hrun.
  destruct (logs_only_resolve (user_config home) cu) as (r & evs & Hr).
  rewrite Hr in Hrun. injection Hrun as -> _.
  assert (Hfound : List.find (os.present (fs w1))
                     (config_path_locations home None)
                   = Some (user_config home)).
  { simpl. rewrite Hsys. unfold os.present. by rewrite Hfs, Hfile. }
  rewrite (read_config_found _ _ _ _ _ _ Hfound).
  rewrite Hfs, Hpar, Hperm.
  assert (Hfile1 : os.stat (fs w1) (user_config home)
                   = Some (File DEFAULT_CONFIG 384)).
  { rewrite Hfs. exact Hfile. }
  rewrite (bind_ok _ _ _ _ _ (load_found_run _ _ _ _ _ Hfile1 Hcu)).
  rewrite Hr. exists evs. simpl. by rewrite Hfs, <-app_assoc.
Qed.

End read_config_properties.

Lemma X18_witness :
  fs (read_config ex_home (config_text "True") owner_only (Some ex_path)
        (World [] (fs_with (config_text "TRUE") 384) [])).2
  = fs_with (config_text "TRUE") 384
  ∧ heap (read_config ex_home (config_text "True") owner_only (Some ex_path)
            (World [] (fs_with (config_text "TRUE") 384) [])).2
    = [].
Proof.
  apply (X18_read_config_found_changes_nothing ex_home (config_text "True")
           owner_only (Some ex_path)
           (World [] (fs_with (config_text "TRUE") 384) []) ex_path).
  reflexivity.
Defined.

Lemma X19_witness :
  read_config ex_home (config_text "True") owner_only (Some ex_path)
    (World [] (fs_with ex_text_bad 384) [])
  = (Raise (SystemExit 1),
     emit (EvLog ERROR
             (CouldNotRead ex_path
                (MissingSectionHeaderError (line_of "k = 1"))))
       (emit (EvOpenRead ex_path) (World [] (fs_with ex_text_bad 384) []))).
Proof.
  apply (X19_read_config_unreadable_exits ex_home (config_text "True")
           owner_only (Some ex_path) (World [] (fs_with ex_text_bad 384) [])
           ex_path (MissingSectionHeaderError (line_of "k = 1"))
           (emit (EvOpenRead ex_path) (World [] (fs_with ex_text_bad 384) [])));
    reflexivity.
Defined.

Lemma X20_witness :
  ∃ config w' v0,
    read_config ex_home (config_text "True") owner_only (Some ex_path)
      (World [] (fs_with (config_text "TRUE") 384) [])
    = (Ok config, w')
    ∧ Dict.contains "config_file_path" config = true
    ∧ Dict.get "config_file_path" config = Some v0
    ∧ Path v0 = Ok ex_path.
Proof.
  apply (X20_read_config_path_attached ex_home (config_text "True") owner_only
           (Some ex_path) (World [] (fs_with (config_text "TRUE") 384) [])
           ex_path (config_text "TRUE") 384 ex_config "TRUE");
    reflexivity.
Defined.

Lemma X21_witness :
  ∃ config w',
    read_config ex_home (config_text "True") owner_only (Some ex_path)
      (World [] (fs_with (config_text "TRUE") 384) [])
    = (Ok config, w')
    ∧ (∀ f s, f ∈ string_fields →
         get_field f.1 f.2 (to_dict ex_config) = Ok (SStr s) →
         get_field f.1 f.2 config = Ok (SStr (Text.strip Text.quotes s)))
    ∧ (∀ section key,
         section ≠ "config_file_path" →
         (section, key) ∉ string_fields →
         (section, key) ≠ sandbox_field →
         get_field section key config
         = get_field section key (to_dict ex_config)).
Proof.
  apply (X21_read_config_strips_quotes ex_home (config_text "True") owner_only
           (Some ex_path) (World [] (fs_with (config_text "TRUE") 384) [])
           ex_path (config_text "TRUE") 384 ex_config "TRUE");
    reflexivity.
Defined.

Lemma X22_witness :
  ∃ e w',
    read_config ex_home (config_text "True") owner_only (Some ex_path)
      (World [] ex_fs [])
    = (Raise e, w')
    ∧ exits e = false
    ∧ EvOpenRead ex_path ∈ trace w'.
Proof.
  apply (X22_read_config_incomplete_raises ex_home (config_text "True")
           owner_only (Some ex_path) (World [] ex_fs []) ex_path ex_text 384
           (ex_pre ++ [BSection ex_a; BSection ex_b]));
    reflexivity.
Defined.

Lemma X23_witness :
  fs (read_config ex_home (config_text "TRUE") owner_only (Some ex_path)
        (World [] fs_settled [])).2
  = <[user_config ex_home :=
        File (config_text "TRUE"
                +:+ Text.drop (String.length (config_text "TRUE")) ex_mine) 420]>
      fs_settled
  ∧ ∀ config,
      (read_config ex_home (config_text "TRUE") owner_only (Some ex_path)
         (World [] fs_settled [])).1
      = Ok config →
      ∀ w0, (resolve (user_config ex_home) ex_config w0).1 = Ok config.
Proof.
  apply (X23_read_config_missing_path_writes_home ex_home (config_text "TRUE")
           owner_only ex_path (World [] fs_settled []) ex_mine 420 ex_config);
    reflexivity.
Defined.

Lemma X24_witness :
  ∃ logged,
    read_config ex_home (config_text "TRUE") owner_only None w_started
    = (Ok config_started,
       World (heap w_started) (fs w_started)
         (trace w_started ++ EvOpenRead (user_config ex_home) :: logged)).
Proof.
  apply (X24_read_config_again ex_home (config_text "TRUE") owner_only
           (World [] fs_home []) config_started w_started);
    [reflexivity | vm_compute; reflexivity | reflexivity].
Defined.

Section read_config_merge_properties.

Variable home : path.
Variable DEFAULT_CONFIG : string.
Variable verify_file_permissions : gmap path node → path → bool.

(** X25.  Without a path, [read_config] does what it does for the first
    of the two default locations that exists, the file below [/etc]
    before the one in the home directory. *)
Theorem X25_read_config_default_locations w p :
  List.find (os.present (fs w)) (config_path_locations home None) = Some p →
  read_config home DEFAULT_CONFIG verify_file_permissions None w
  = read_config home DEFAULT_CONFIG verify_file_permissions (Some p) w.
Proof.
  intros Hfound. pose proof (find_some _ _ Hfound) as [_ Hp].
  rewrite (read_config_found _ _ _ _ _ _ Hfound).
  rewrite (read_config_found _ _ _ (Some p) w p); [done|].
  simpl. by rewrite Hp.
Qed.

(** X26.  What [read_config] returns can be merged back into its file.
    For a file each of whose sections has a key (and none is named like
    the reserved key), [config_updater_factory] returns for the
    configuration [read_config] returned, wherever it is stored: the
    document has the sections of the file, and looking up a field gives
    what the configuration holds for it (stripped of quotes, or
    coerced). *)
Theorem X26_read_config_result_merges given w p text m cu v :
  List.find (os.present (fs w)) (config_path_locations home given) = Some p →
  os.present (fs w) (parent p) && negb (os.directory (fs w) (parent p))
  = false →
  verify_file_permissions (fs w) p = true →
  os.stat (fs w) p = Some (File text m) →
  read_string text = Ok cu →
  complete (to_dict cu) = true →
  get_field "notifications" "use_sandbox" (to_dict cu) = Ok (SStr v) →
  Forall (λ s, options s ≠ []) (sections_blocks cu) →
  "config_file_path" ∉ sections cu →
  ∃ config w',
    read_config home DEFAULT_CONFIG verify_file_permissions given w
    = (Ok config, w')
    ∧ ∀ l w2,
        heap w2 !! l = Some config →
        os.stat (fs w2) p = Some (File text m) →
        ∃ doc',
          (config_updater_factory l w2).1 = Ok (p, doc')
          ∧ sections doc' = sections cu
          ∧ ∀ section key x,
              get_field section key config = Ok x →
              get_field section key (to_dict doc') = Ok x.
Proof.
  intros Hfound Hpar Hperm Hst Hcu Hc Hv Hopts Hres.
  rewrite (read_config_found _ _ _ _ _ _ Hfound), Hpar, Hperm.
  rewrite (bind_ok _ _ _ _ _ (load_found_run _ _ _ _ _ Hst Hcu)).
  destruct (resolve_run p cu v (emit (EvOpenRead p) w) Hc Hv)
    as (config & Hrun & _).
  exists config. eexists. split; [exact Hrun|].
  pose proof (read_string_well_formed _ _ Hcu) as Hwf.
  destruct (resolve_ok_tidy _ _ _ _ _ Hwf Hrun) as [Htidy Hkeys].
  destruct (resolve_ok_fields _ _ _ _ _ Hrun) as (Hpath & _).
  rewrite keys_set_absent, to_dict_keys in Hkeys by (by rewrite to_dict_keys).
  assert (Hin : ∀ n, n ∈ Dict.keys config → n ≠ "config_file_path" →
                     n ∈ sections cu).
  { intros n Hn Hne. rewrite Hkeys in Hn. set_solver. }
  assert (Hrem : ∀ n, n ∈ Dict.keys (Dict.remove "config_file_path" config) →
                      n ∈ sections cu).
  { intros n Hn. rewrite keys_remove in Hn.
    apply list_elem_of_filter in Hn as [Hne Hn]. by apply Hin. }
  destruct (merge_total config cu) as (doc' & Hmerge & Hsec).
  - apply Htidy.
  - apply Hwf.
  - by apply tidy_mergeable.
  - intros Hnil.
    destruct (Dict.remove "config_file_path" config) as [|[n v0] rest] eqn:E;
      [done|].
    exfalso. assert (Hn : n ∈ sections cu) by (apply Hrem; left).
    rewrite Hnil in Hn. by apply elem_of_nil in Hn.
  - intros l w2 Hl Hst2. exists doc'. split; [|split].
    + by rewrite (factory_ok_intro l config w2 (Scalar (SPath p)) p text m cu doc').
    + by rewrite Hsec, filter_all_in, app_nil_r.
    + intros section key x Hx. unfold get_field in Hx.
      destruct (Dict.get section config) as [[y|its]|] eqn:Hs; try done.
      destruct (Dict.get key its) as [x'|] eqn:Hk; [|done].
      injection Hx as ->.
      assert (Hne : section ≠ "config_file_path").
      { intros ->. rewrite Hpath in Hs. done. }
      destruct Htidy as [Hnd Hval].
      destruct (Hval _ _ Hs) as [?|(its' & [= <-] & Hits)]; [done|].
      destruct (has_section_get section cu) as (s & Hsect).
      { apply has_section_true, Hin; [|done]. by eapply get_is_Some_keys. }
      destruct (merge_section_result config cu doc' section s Hnd Hmerge Hsect)
        as (s' & Hs' & _ & Hget & _).
      rewrite (get_field_to_dict _ _ _ _ Hs').
      by rewrite (Hget its Hne Hs Hits key x (get_Some_elem _ _ _ Hk)).
Qed.

End read_config_merge_properties.

Lemma X25_witness :
  read_config ex_home (config_text "True") owner_only None
    (World [] (fs_with (config_text "TRUE") 384) [])
  = read_config ex_home (config_text "True") owner_only (Some ex_path)
      (World [] (fs_with (config_text "TRUE") 384) []).
Proof.
  apply (X25_read_config_default_locations ex_home (config_text "True")
           owner_only (World [] (fs_with (config_text "TRUE") 384) []) ex_path).
  reflexivity.
Defined.

Lemma X26_witness :
  ∃ config w',
    read_config ex_home (config_text "True") owner_only (Some ex_path)
      (World [] (fs_with (config_text "TRUE") 384) [])
    = (Ok config, w')
    ∧ ∀ l w2,
        heap w2 !! l = Some config →
        os.stat (fs w2) ex_path = Some (File (config_text "TRUE") 384) →
        ∃ doc',
          (config_updater_factory l w2).1 = Ok (ex_path, doc')
          ∧ sections doc' = sections ex_config
          ∧ ∀ section key x,
              get_field section key config = Ok x →
              get_field section key (to_dict doc') = Ok x.
Proof.
  apply (X26_read_config_result_merges ex_home (config_text "True") owner_only
           (Some ex_path) (World [] (fs_with (config_text "TRUE") 384) [])
           ex_path (config_text "TRUE") 384 ex_config "TRUE");
    [reflexivity | reflexivity | reflexivity | reflexivity | reflexivity
    | reflexivity | reflexivity | repeat constructor; discriminate
    | compute_done].
Defined.

Section read_config_start_properties.

Variable home : path.
Variable DEFAULT_CONFIG : string.
Variable verify_file_permissions : gmap path node → path → bool.

(** X27.  A first start.  When no configuration file is found, the home
    directory exists and holds nothing of the path of the user's file,
    and the default template parses, has the fields and passes the
    permission check once written, [read_config] logs that it found no
    file, makes the directories, writes the template with mode [0o600]
    and returns the template's configuration, with the path of the new
    file, without reading the file back. *)
Theorem X27_read_config_first_start given w cu v :
  List.find (os.present (fs w)) (config_path_locations home given) = None →
  os.directory (fs w) home = true →
  all_absent (fs w) (below home [".config"; "awattprice"; "config.ini"])
  = true →
  read_string DEFAULT_CONFIG = Ok cu →
  complete (to_dict cu) = true →
  get_field "notifications" "use_sandbox" (to_dict cu) = Ok (SStr v) →
  verify_file_permissions (bootstrapped home DEFAULT_CONFIG (fs w))
    (user_config home) = true →
  ∃ config,
    read_config home DEFAULT_CONFIG verify_file_permissions given w
    = (Ok config,
       World (heap w) (bootstrapped home DEFAULT_CONFIG (fs w))
         (trace w
            ++ [EvLog INFO
                  (NoConfigFileFound
                     (parent (List.last (config_path_locations home given) [])));
                EvMkdir (parent (user_config home));
                EvOpenWrite (user_config home)]
            ++ sandbox_log v))
    ∧ Dict.get "config_file_path" config
      = Some (Scalar (SPath (user_config home)))
    ∧ os.stat (bootstrapped home DEFAULT_CONFIG (fs w)) (user_config home)
      = Some (File DEFAULT_CONFIG 384).
Proof.
  intros Hnone Hhome Habs Hcu Hc Hv Hperm.
  assert (Huser : user_config home
                  = home ++ [".config"; "awattprice"] ++ ["config.ini"]).
  { unfold user_config, Pdiv. by rewrite <-!app_assoc. }
  assert (Hpar : parent (user_config home) = home ++ [".config"; "awattprice"]).
  { rewrite Huser, app_assoc. apply parent_snoc. }
  assert (Hne : user_config home ≠ []).
  { rewrite Huser. by intros [_ ?]%app_eq_nil. }
  assert (Hfile : os.stat (bootstrapped home DEFAULT_CONFIG (fs w))
                    (user_config home) = Some (File DEFAULT_CONFIG 384)).
  { unfold bootstrapped. by rewrite stat_lookup, lookup_insert_eq. }
  assert (Hdir : os.directory (bootstrapped home DEFAULT_CONFIG (fs w))
                   (parent (user_config home)) = true).
  { apply directory_stat. rewrite Hpar. unfold bootstrapped.
    rewrite stat_lookup by (by intros [_ ?]%app_eq_nil).
    rewrite lookup_insert_ne.
    2:{ rewrite Huser. intros Heq. apply (f_equal length) in Heq.
        rewrite !length_app in Heq. simpl in Heq. lia. }
    rewrite with_dirs_lookup. rewrite bool_decide_eq_true_2; [done|].
    unfold below. set_solver. }
  set (w1 := emit (EvLog INFO
                     (NoConfigFileFound
                        (parent (List.last (config_path_locations home given) []))))
               w).
  set (w2 := World (heap w) (bootstrapped home DEFAULT_CONFIG (fs w))
               (trace w1 ++ made home [".config"; "awattprice"]
                  ++ [EvOpenWrite (user_config home)])).
  destruct (resolve_run (user_config home) cu v w2 Hc Hv) as (config & Hrun & _).
  exists config. split; [|split; [|done]].
  - rewrite (read_config_missing _ _ _ _ _ Hnone). fold w1.
    pose proof (bootstrap_fresh_run home DEFAULT_CONFIG home
                  [".config"; "awattprice"] "config.ini" w1 cu Hhome Habs Hcu)
      as Hboot.
    rewrite <-Huser in Hboot.
    destruct (bootstrap_config _ _ _ _) as [r w'] eqn:Hb.
    injection Hboot as -> ->. clear Hb.
    change (World _ _ _) with w2 at 1.
    unfold mbind at 1, M_bind at 1. rewrite check_parent_run.
    change (fs w2) with (bootstrapped home DEFAULT_CONFIG (fs w)).
    rewrite Hdir, andb_false_r.
    unfold mbind at 1, M_bind at 1. rewrite check_permissions_run.
    change (fs w2) with (bootstrapped home DEFAULT_CONFIG (fs w)).
    rewrite Hperm, Hrun. f_equal. unfold w2, w1. simpl.
    rewrite Hpar. by rewrite <-!app_assoc.
  - by destruct (resolve_ok_fields _ _ _ _ _ Hrun) as (Hpath & _).
Qed.

(** X28.  Whenever [read_config] ends in [sys.exit], the status is [1]
    and the last thing it did was to log an error: it never exits
    silently, and with no other status. *)
Theorem X28_read_config_exit_logged given w c w' :
  read_config home DEFAULT_CONFIG verify_file_permissions given w
  = (Raise (SystemExit c), w') →
  c = 1 ∧ ∃ msg w0, w' = emit (EvLog ERROR msg) w0.
Proof.
  destruct (List.find (os.present (fs w)) (config_path_locations home given))
    as [p|] eqn:Hfind.
  - rewrite (read_config_after_locate _ _ _ _ _ _ _
               (locate_found home DEFAULT_CONFIG given w p Hfind)).
    apply exit_after_locate.
  - rewrite (read_config_missing _ _ _ _ _ Hfind).
    destruct (bootstrap_config _ _ _ _) as [[cu|e] w2] eqn:Hboot.
    + apply (exit_after_locate verify_file_permissions (user_config home)
               (Some cu)).
    + intros [= -> ->]. by apply never_exits_bootstrap in Hboot.
Qed.

End read_config_start_properties.

Lemma X27_witness :
  ∃ config,
    read_config ex_home (config_text "TRUE") owner_only None
      (World [] fs_home [])
    = (Ok config,
       World [] (bootstrapped ex_home (config_text "TRUE") fs_home)
         ([] ++ [EvLog INFO
                   (NoConfigFileFound
                      (parent (List.last (config_path_locations ex_home None) [])));
                 EvMkdir (parent (user_config ex_home));
                 EvOpenWrite (user_config ex_home)]
             ++ sandbox_log "TRUE"))
    ∧ Dict.get "config_file_path" config
      = Some (Scalar (SPath (user_config ex_home)))
    ∧ os.stat (bootstrapped ex_home (config_text "TRUE") fs_home)
        (user_config ex_home)
      = Some (File (config_text "TRUE") 384).
Proof.
  apply (X27_read_config_first_start ex_home (config_text "TRUE") owner_only
           None (World [] fs_home []) ex_config "TRUE");
    reflexivity.
Defined.

Lemma X28_witness :
  1 = 1
  ∧ ∃ msg w0,
      emit (EvLog ERROR (InsecurePermissions ex_path))
        (World [] (fs_with (config_text "True") 420) [])
      = emit (EvLog ERROR msg) w0.
Proof.
  apply (X28_read_config_exit_logged ex_home (config_text "True") owner_only
           (Some ex_path) (World [] (fs_with (config_text "True") 420) []) 1
           (emit (EvLog ERROR (InsecurePermissions ex_path))
              (World [] (fs_with (config_text "True") 420) []))).
  reflexivity.
Defined.
